(** * Image gallery parser: a shallow embedding of [image_gallery_parser.py]

    The development follows the source file top to bottom: the Python
    string operations the parser calls, the regular expression
    [DATE_PATTERN], [extract_date], [is_image_link], the traversal of a
    parsed document in [process_html_file], the loop of [parse_files],
    the page built by [generate_html_content], and the script around
    them: [generate_html_gallery], [validate_input_directory] and
    [main]. *)

From Stdlib Require Import String Ascii DecimalNat DecimalFacts.
From Stdlib Require Import Sorting.Sorted Sorting.Mergesort Orders ZifyBool.
From stdpp Require Import gmap list sets sorting.

Local Open Scope N_scope.
#[local] Set Warnings "-clear-no-such-hyp".

(** ** Python strings

    A Python [str] is a sequence of Unicode code points. *)

Abbreviation code := N.
Abbreviation str := (list N).

(** Literals are written as UTF-8 text and decoded to code points. *)
Fixpoint utf8_decode (bs : list N) : str :=
  match bs with
  | [] => []
  | b0 :: r0 =>
    if b0 <? 192 then b0 :: utf8_decode r0
    else match r0 with
    | [] => [b0]
    | b1 :: r1 =>
      if b0 <? 224 then (b0 - 192) * 64 + (b1 - 128) :: utf8_decode r1
      else match r1 with
      | [] => [b0; b1]
      | b2 :: r2 =>
        if b0 <? 240
        then (b0 - 224) * 4096 + (b1 - 128) * 64 + (b2 - 128) :: utf8_decode r2
        else match r2 with
        | [] => [b0; b1; b2]
        | b3 :: r3 =>
          (b0 - 240) * 262144 + (b1 - 128) * 4096 + (b2 - 128) * 64 + (b3 - 128)
            :: utf8_decode r3
        end
      end
    end
  end.

Definition u (s : string) : str :=
  utf8_decode (List.map N_of_ascii (list_ascii_of_string s)).

(** [s < t] and [s <= t] on [str]: code point by code point. *)
Fixpoint str_compare (s t : str) : comparison :=
  match s, t with
  | [], [] => Eq
  | [], _ :: _ => Lt
  | _ :: _, [] => Gt
  | a :: s', b :: t' =>
    match a ?= b with
    | Eq => str_compare s' t'
    | c => c
    end
  end.

Definition str_ltb (s t : str) : bool :=
  match str_compare s t with Lt => true | _ => false end.

Definition str_leb (s t : str) : bool :=
  match str_compare s t with Gt => false | _ => true end.

(** [len(s) ] as a Python [int], and [str(n)] for a count. *)
Fixpoint uint_codes (d : Decimal.uint) : str :=
  match d with
  | Decimal.Nil => []
  | Decimal.D0 d => 48 :: uint_codes d
  | Decimal.D1 d => 49 :: uint_codes d
  | Decimal.D2 d => 50 :: uint_codes d
  | Decimal.D3 d => 51 :: uint_codes d
  | Decimal.D4 d => 52 :: uint_codes d
  | Decimal.D5 d => 53 :: uint_codes d
  | Decimal.D6 d => 54 :: uint_codes d
  | Decimal.D7 d => 55 :: uint_codes d
  | Decimal.D8 d => 56 :: uint_codes d
  | Decimal.D9 d => 57 :: uint_codes d
  end.

Definition str_of_nat (n : nat) : str := uint_codes (Nat.to_uint n).

(** [sep.join(parts)] *)
Fixpoint join (sep : str) (parts : list str) : str :=
  match parts with
  | [] => []
  | [p] => p
  | p :: ps => p ++ sep ++ join sep ps
  end.

(** [s.split(sep)] for a one-character separator: never the empty list. *)
Fixpoint split (sep : code) (s : str) : list str :=
  match s with
  | [] => [[]]
  | c :: s' =>
    if c =? sep then [] :: split sep s'
    else match split sep s' with
         | [] => [[c]]
         | w :: ws => (c :: w) :: ws
         end
  end.

(** [s.replace(old, new)] for a one-character [old]. *)
Definition replace (old : code) (new : str) (s : str) : str :=
  flat_map (fun c => if c =? old then new else [c]) s.

(** [s.zfill(width)]: pads with ['0'] after an optional sign. *)
Definition zfill (width : nat) (s : str) : str :=
  if decide (width ≤ length s)%nat then s
  else
    let fill := replicate (width - length s) 48 in
    match s with
    | c :: r => if (c =? 43) || (c =? 45) then c :: fill ++ r else fill ++ s
    | [] => fill
    end.

(** [s.rfind(c)]: the last index of [c], or [-1]. *)
Fixpoint rfind_from (c : code) (s : str) (i : Z) (last : Z) : Z :=
  match s with
  | [] => last
  | x :: s' => rfind_from c s' (i + 1)%Z (if x =? c then i else last)
  end.

Definition rfind (c : code) (s : str) : Z := rfind_from c s 0%Z (-1)%Z.

(** [genericpath._splitext(p, sep, altsep, extsep)]: the extension starts
    at the last dot of the last path component, unless only dots come
    before it in that component. *)
Definition _splitext (p : str) (sep : code) (altsep : option code) (extsep : code)
  : str * str :=
  let sepIndex :=
    match altsep with
    | Some a => Z.max (rfind sep p) (rfind a p)
    | None => rfind sep p
    end in
  let dotIndex := rfind extsep p in
  if (sepIndex <? dotIndex)%Z then
    let filenameIndex := Z.to_nat (sepIndex + 1) in
    let leading := take (Z.to_nat dotIndex - filenameIndex) (drop filenameIndex p) in
    if forallb (fun c => c =? extsep) leading then (p, [])
    else (take (Z.to_nat dotIndex) p, drop (Z.to_nat dotIndex) p)
  else (p, []).

(** [os.path.splitext] (posixpath). *)
Definition splitext (p : str) : str * str := _splitext p 47 None 46.

(** [html.escape(s, quote=True)] *)
Definition html_escape (s : str) : str :=
  replace 39 (u "&#x27;")
    (replace 34 (u "&quot;")
      (replace 62 (u "&gt;") (replace 60 (u "&lt;") (replace 38 (u "&amp;") s)))).

(** [sorted] and [list.sort] on lists of [str]. *)
Module StrOrder <: TotalLeBool.
Definition t := str.
Definition leb := str_leb.
Infix "<=?" := leb (at level 70, no associativity).
Lemma str_compare_antisym (s t : str) : str_compare t s = CompOpp (str_compare s t).
Proof.
  revert t; induction s as [|a s IH]; intros [|b t]; simpl; try reflexivity.
  rewrite (N.compare_antisym a b).
  destruct (a ?= b); simpl; auto.
Qed.
Lemma leb_total (s t : str) : leb s t = true \/ leb t s = true.
Proof.
  unfold leb, str_leb. rewrite (str_compare_antisym s t).
  destruct (str_compare s t); simpl; auto.
Qed.
End StrOrder.

Module StrSort := Sort StrOrder.

Definition sorted (l : list str) : list str := StrSort.sort l.

(** ** The Unicode tables of the interpreter

    [str.lower], [str.strip] and the classes [\d], [\s] and [[а-я]] of
    [re] read the interpreter's Unicode character database, which is not
    part of the program: it is an interface here, and every statement
    below holds for any database unless it names a hypothesis on it. *)
Class Unicode := {
  (** the decimal digit value of a code point of category Nd: [\d], [int] *)
  decimal : code → option N;
  (** [Py_UNICODE_ISSPACE]: [\s] and [str.strip()] *)
  isspace : code → bool;
  (** [str.lower()] *)
  lower : str → str;
  (** membership in the set [[lo-hi]] of a pattern compiled with [re.IGNORECASE] *)
  range_ignorecase : code → code → code → bool
}.

Definition isdecimal `{Unicode} (c : code) : bool :=
  match decimal c with Some _ => true | None => false end.

(** The database restricted to the Basic Latin and Cyrillic blocks and
    to the digits of the Arabic block; the white space table is the
    interpreter's own. Closed examples evaluate the program on it. *)
Definition in_range (lo hi c : code) : bool := (lo <=? c) && (c <=? hi).

Definition ucd_decimal (c : code) : option N :=
  if in_range 48 57 c then Some (c - 48)
  else if in_range 1632 1641 c then Some (c - 1632)
  else if in_range 1776 1785 c then Some (c - 1776)
  else None.

Definition ucd_isspace (c : code) : bool :=
  in_range 9 13 c || in_range 28 32 c || (c =? 133) || (c =? 160) || (c =? 5760)
  || in_range 8192 8202 c || in_range 8232 8233 c || (c =? 8239) || (c =? 8287)
  || (c =? 12288).

Definition ucd_tolower (c : code) : code :=
  if in_range 65 90 c then c + 32
  else if in_range 1024 1039 c then c + 80
  else if in_range 1040 1071 c then c + 32
  else c.

Definition ucd_range_ignorecase (lo hi c : code) : bool :=
  in_range lo hi (ucd_tolower c).

Definition ucd : Unicode := {|
  decimal := ucd_decimal;
  isspace := ucd_isspace;
  lower := List.map ucd_tolower;
  range_ignorecase := ucd_range_ignorecase
|}.

(** ** Exceptions

    A call either returns a value or raises. *)
Inductive exception :=
| ValueError | IndexError | UnicodeDecodeError | FileNotFoundError
| PermissionError | MemoryError | KeyboardInterrupt.

(** [isinstance(e, Exception)]: [KeyboardInterrupt] derives from
    [BaseException] only. *)
Definition is_Exception (e : exception) : bool :=
  match e with KeyboardInterrupt => false | _ => true end.

Inductive py (A : Type) :=
| Return (a : A)
| Raise (e : exception).
Arguments Return {A} a.
Arguments Raise {A} e.

(** ** Regular expressions: the fragment of [re] that [DATE_PATTERN] uses

    A backtracking matcher in continuation-passing style: [s] is the
    input still to read, [m] the text matched so far and [gs] the groups
    closed so far. Repetition is greedy. *)
Inductive regex :=
| Chars (p : code → bool)
| Cat (r1 r2 : regex)
| Repeat (lo hi : nat) (r : regex)
| Group (r : regex).

Fixpoint exec {R : Type} (r : regex) (s m : str) (gs : list str)
    (k : str → str → list str → option R) : option R :=
  match r with
  | Chars p =>
    match s with
    | c :: s' => if p c then k s' (m ++ [c]) gs else None
    | [] => None
    end
  | Cat r1 r2 => exec r1 s m gs (fun s' m' gs' => exec r2 s' m' gs' k)
  | Group r1 => exec r1 s m gs (fun s' m' gs' => k s' m' (gs' ++ [drop (length m) m']))
  | Repeat lo hi r1 =>
    (fix rep (lo hi : nat) (s m : str) (gs : list str) : option R :=
       match hi with
       | O => k s m gs
       | S hi' =>
         match exec r1 s m gs (fun s' m' gs' => rep (pred lo) hi' s' m' gs') with
         | Some x => Some x
         | None => match lo with O => k s m gs | S _ => None end
         end
       end) lo hi s m gs
  end.

(** A match object: [m.start()], [m.group(0)] and [m.groups()]. *)
Record Match := { start : nat; group0 : str; groups : list str }.

(** [pattern.match(s)] at offset [pos] of the searched text. *)
Definition match_at (r : regex) (pos : nat) (s : str) : option Match :=
  exec r s [] [] (fun _ m gs => Some {| start := pos; group0 := m; groups := gs |}).

(** [pattern.search(text)]: the match at the leftmost position that has one. *)
Fixpoint search_from (r : regex) (pos : nat) (s : str) : option Match :=
  match match_at r pos s with
  | Some m => Some m
  | None =>
    match s with
    | [] => None
    | _ :: s' => search_from r (S pos) s'
    end
  end.

Definition search (r : regex) (text : str) : option Match := search_from r 0 text.

(** ** Configuration *)
Record Config := {
  input_dir : str;
  encoding : str;
  output_dir : str;
  image_extensions : list str
}.

(** The dataclass constructor with [__post_init__]. *)
Definition Config_init (input_dir : str) (encoding : option str)
    (output_dir : option str) (image_extensions : option (list str)) : Config :=
  {| input_dir := input_dir;
     encoding := default (u "utf-8") encoding;
     output_dir := default (u ".") output_dir;
     image_extensions :=
       match image_extensions with
       | Some l => l
       | None => [u ".jpg"; u ".jpeg"; u ".png"; u ".gif"; u ".bmp"; u ".webp"; u ".svg"]
       end |}.

Section Parser.
Context `{Unicode}.

(** [str.strip()] *)
Fixpoint lstrip (s : str) : str :=
  match s with
  | c :: s' => if isspace c then lstrip s' else s
  | [] => []
  end.

Definition rstrip (s : str) : str := reverse (lstrip (reverse s)).

Definition strip (s : str) : str := rstrip (lstrip s).

(** *** [DATE_PATTERN] and [MONTHS] *)

(** [(\d{1,2})\s([а-я]{3})\s(\d{4})] with [re.IGNORECASE] *)
Definition DATE_PATTERN : regex :=
  Cat (Group (Repeat 1 2 (Chars isdecimal)))
 (Cat (Chars isspace)
 (Cat (Group (Repeat 3 3 (Chars (range_ignorecase 1072 1103))))
 (Cat (Chars isspace)
      (Group (Repeat 4 4 (Chars isdecimal)))))).

Definition MONTHS_items : list (str * str) :=
  [ (u "янв", u "01"); (u "фев", u "02"); (u "мар", u "03"); (u "апр", u "04");
    (u "мая", u "05"); (u "июн", u "06"); (u "июл", u "07"); (u "авг", u "08");
    (u "сен", u "09"); (u "окт", u "10"); (u "ноя", u "11"); (u "дек", u "12") ].

Definition MONTHS : gmap str str := list_to_map MONTHS_items.

(** *** [extract_date] *)
Definition extract_date (text : str) : py (option str) :=
  match search DATE_PATTERN text with
  | None => Return None
  | Some m =>
    match groups m with
    | [day; mon_rus; year] =>
      match MONTHS !! lower (take 3 mon_rus) with
      | None => Return None
      | Some [] => Return None
      | Some month =>
        Return (Some (year ++ u "." ++ zfill 2 month ++ u "." ++ zfill 2 day))
      end
    | _ => Raise ValueError
    end
  end.

(** *** [is_image_link] *)
Definition is_image_link (config : Config) (href : str) : py bool :=
  match split 63 href with
  | clean_href :: _ =>
    let ext := lower (splitext clean_href).2 in
    Return (bool_decide (ext ∈ image_extensions config))
  | [] => Raise IndexError
  end.

End Parser.

(** ** Parsed documents

    The tree that [BeautifulSoup(file, "html.parser")] builds, with the
    two attributes the program reads: [href], a string, and [class],
    which the tree builder stores as a list of strings. *)
#[local] Set Warnings "-register-all".
Inductive PageElement :=
| NavigableString (s : str)
| Tag (name : str) (href : option str) (class_ : list str) (contents : list PageElement).

(** An element of a tree together with [element.parents], nearest first. *)
Record Node := { element : PageElement; parents : list PageElement }.

(** [tag.descendants], in document order. *)
Fixpoint descendants (ps : list PageElement) (e : PageElement) {struct e} : list Node :=
  match e with
  | NavigableString _ => []
  | Tag _ _ _ cs =>
    (fix go (cs : list PageElement) : list Node :=
       match cs with
       | [] => []
       | c :: cs' =>
         {| element := c; parents := e :: ps |} :: descendants (e :: ps) c ++ go cs'
       end) cs
  end.

Definition has_name (name : str) (e : PageElement) : bool :=
  match e with
  | Tag n _ _ _ => bool_decide (n = name)
  | NavigableString _ => false
  end.

Definition has_href (e : PageElement) : bool :=
  match e with
  | Tag _ (Some _) _ _ => true
  | _ => false
  end.

Definition has_class (cls : str) (e : PageElement) : bool :=
  match e with
  | Tag _ _ cs _ => bool_decide (cls ∈ cs)
  | NavigableString _ => false
  end.

(** [soup.find_all("a", href=True)] *)
Definition find_all_a_href (soup : PageElement) : list Node :=
  List.filter (fun n => has_name (u "a") (element n) && has_href (element n))
    (descendants [] soup).

(** [tag.find_parent("div", class_=cls)] *)
Definition find_parent_div (cls : str) (n : Node) : option PageElement :=
  List.find (fun e => has_name (u "div") e && has_class cls e) (parents n).

(** [tag.find("div", class_=cls)] *)
Definition find_div (cls : str) (e : PageElement) : option PageElement :=
  element <$>
    List.find (fun n => has_name (u "div") (element n) && has_class cls (element n))
      (descendants [] e).

(** [link_tag["href"]] *)
Definition get_href (e : PageElement) : py str :=
  match e with
  | Tag _ (Some h) _ _ => Return h
  | _ => Raise IndexError
  end.

(** ** The parser object and its surroundings *)

(** What the run reads from outside: the file system behind [glob] and
    behind [open] followed by [BeautifulSoup], and the clock. *)
Record Env := {
  glob : str → py (list str);
  open_soup : str → str → py PageElement;
  now : str
}.

(** The two containers of [ImageGalleryParser]. *)
Record state := {
  photos_by_date : gmap str (list str);
  all_links : gset str
}.

Inductive log_record :=
| DebugFailedToRead (file_path encoding : str) (e : exception)
| WarningCouldNotRead (file_path : str)
| InfoFound (n : nat)
| ErrorFinding (e : exception)
| WarningNoFiles
| ErrorProcessing (file_path : str) (e : exception)
| InfoCompleted
| InfoTotal (n : nat).

(** The containers, the logger's output, the progress bar, and the
    history of the containers: one entry per mutation, latest first. *)
Record world := {
  self : state;
  logs : list log_record;
  pbar : nat;
  history : list state
}.

(** A method: it may change the world and then returns or raises. *)
Definition M (A : Type) : Type := world → world * py A.

Definition ret {A} (a : A) : M A := fun w => (w, Return a).

Definition bind {A B} (m : M A) (k : A → M B) : M B :=
  fun w =>
    match m w with
    | (w', Return a) => k a w'
    | (w', Raise e) => (w', Raise e)
    end.

Definition lift {A} (r : py A) : M A := fun w => (w, r).

Definition gets {A} (f : world → A) : M A := fun w => (w, Return (f w)).

#[export] Instance M_ret : MRet M := @ret.
#[export] Instance M_bind : MBind M := fun A B k m => bind m k.

Definition mutate (f : state → state) : M unit :=
  fun w =>
    let s := f (self w) in
    ({| self := s; logs := logs w; pbar := pbar w; history := s :: history w |},
     Return tt).

Definition logger (r : log_record) : M unit :=
  fun w =>
    ({| self := self w; logs := logs w ++ [r]; pbar := pbar w; history := history w |},
     Return tt).

Definition pbar_update (n : nat) : M unit :=
  fun w =>
    ({| self := self w; logs := logs w; pbar := (pbar w + n)%nat; history := history w |},
     Return tt).

(** [for x in l: body(x)] *)
Fixpoint for_each {A} (l : list A) (body : A → M unit) : M unit :=
  match l with
  | [] => ret tt
  | x :: l' => body x ;; for_each l' body
  end.

(** [self.all_links.add(href)] *)
Definition add_link (href : str) (s : state) : state :=
  {| photos_by_date := photos_by_date s; all_links := {[ href ]} ∪ all_links s |}.

(** [self.photos_by_date[date_key].append(href)] on a [defaultdict(list)] *)
Definition append_photo (date_key href : str) (s : state) : state :=
  {| photos_by_date :=
       <[date_key := default [] (photos_by_date s !! date_key) ++ [href]]> (photos_by_date s);
     all_links := all_links s |}.

(** [self.photos_by_date[date].sort()] *)
Definition sort_bucket (date : str) (s : state) : state :=
  {| photos_by_date := alter sorted date (photos_by_date s);
     all_links := all_links s |}.

Section Gallery.
Context `{Unicode} (env : Env) (config : Config).

(** [element.get_text(separator=" ", strip=True)] *)
Definition strings_of (e : PageElement) : list str :=
  omap (fun n => match element n with
                 | NavigableString s => Some s
                 | Tag _ _ _ _ => None
                 end) (descendants [] e).

Definition get_text_strip (separator : str) (e : PageElement) : str :=
  join separator
    (List.filter (fun s => negb (bool_decide (s = []))) (List.map strip (strings_of e))).

(** *** [read_file_with_encoding] *)
Fixpoint try_encodings (file_path : str) (encodings : list str) : M (option PageElement) :=
  match encodings with
  | [] => logger (WarningCouldNotRead file_path) ;; mret None
  | encoding :: rest =>
    match open_soup env file_path encoding with
    | Return soup => mret (Some soup)
    | Raise e =>
      match e with
      | UnicodeDecodeError | FileNotFoundError =>
        logger (DebugFailedToRead file_path encoding e) ;;
        try_encodings file_path rest
      | _ => lift (Raise e)
      end
    end
  end.

Definition read_file_with_encoding (file_path : str) : M (option PageElement) :=
  try_encodings file_path [u "utf-8"; u "windows-1251"; u "cp1252"].

(** *** [find_html_files] *)
Definition find_html_files : M (list str) :=
  match glob env (input_dir config) with
  | Return html_files => logger (InfoFound (length html_files)) ;; mret html_files
  | Raise e =>
    if is_Exception e then logger (ErrorFinding e) ;; mret [] else lift (Raise e)
  end.

(** *** [process_html_file] *)

(** The body of the loop over the anchors. *)
Definition process_link (link_tag : Node) : M unit :=
  href ← lift (get_href (element link_tag));
  let href := strip href in
  is_image ← lift (is_image_link config href);
  if negb is_image then mret tt
  else
    mutate (add_link href) ;;
    match find_parent_div (u "message") link_tag with
    | Some message =>
      match find_div (u "message__header") message with
      | Some header =>
        date_key ← lift (extract_date (get_text_strip (u " ") header));
        match date_key with
        | Some (c :: k) => mutate (append_photo (c :: k) href)
        | _ => mret tt
        end
      | None => mret tt
      end
    | None => mret tt
    end.

Definition process_html_file (file_path : str) : M unit :=
  soup ← read_file_with_encoding file_path;
  match soup with
  | None => mret tt
  | Some soup => for_each (find_all_a_href soup) process_link
  end.

(** *** [parse_files] *)

(** [try: body except Exception as e: handler(e) finally: final] *)
Definition try_except_finally (body : M unit) (handler : exception → M unit)
    (final : M unit) : M unit :=
  fun w =>
    let '(w1, r) :=
      match body w with
      | (w', Return a) => (w', Return a)
      | (w', Raise e) => if is_Exception e then handler e w' else (w', Raise e)
      end in
    match final w1 with
    | (w2, Return _) => (w2, r)
    | (w2, Raise e) => (w2, Raise e)
    end.

(** One turn of the loop over the files. *)
Definition try_process (process : str → M unit) (file_path : str) : M unit :=
  try_except_finally (process file_path)
    (fun e => logger (ErrorProcessing file_path e))
    (pbar_update 1).

(** The sorting loop: [for date in self.photos_by_date: ...sort()] *)
Definition sort_buckets : M unit :=
  dates ← gets (fun w => (map_to_list (photos_by_date (self w))).*1);
  for_each dates (fun date => mutate (sort_bucket date)).

Definition parse_files_with (process : str → M unit) : M unit :=
  html_files ← find_html_files;
  match html_files with
  | [] => logger WarningNoFiles
  | _ =>
    for_each html_files (try_process process) ;;
    sort_buckets ;;
    logger InfoCompleted ;;
    n ← gets (fun w => size (all_links (self w)));
    logger (InfoTotal n)
  end.

Definition parse_files : M unit := parse_files_with process_html_file.

(** *** [generate_html_content] *)
Definition q : str := [34].

Definition html_head (total : nat) : list str :=
  [ u "<!DOCTYPE html>";
    u "<html lang=" ++ q ++ u "en" ++ q ++ u ">";
    u "<head>";
    u "    <meta charset=" ++ q ++ u "UTF-8" ++ q ++ u ">";
    u "    <meta name=" ++ q ++ u "viewport" ++ q ++ u " content=" ++ q
      ++ u "width=device-width, initial-scale=1.0" ++ q ++ u ">";
    u "    <title>Image Gallery</title>";
    u "    <style>";
    u "        body { font-family: Arial, sans-serif; margin: 0; padding: 20px; background: #f9f9f9; }";
    u "        h1 { text-align: center; margin-bottom: 20px; color: #333; }";
    u "        h2 { margin-top: 40px; border-bottom: 2px solid #ccc; padding-bottom: 5px; color: #555; }";
    u "        .gallery { display: grid; gap: 20px; padding: 20px; }";
    u "        .stats { text-align: center; margin-bottom: 30px; color: #666; }";
    u "        @media (min-width: 1200px) { .gallery { grid-template-columns: repeat(12, 1fr); } }";
    u "        @media (min-width: 800px) and (max-width: 1199px) { .gallery { grid-template-columns: repeat(10, 1fr); } }";
    u "        @media (max-width: 799px) { .gallery { grid-template-columns: repeat(6, 1fr); } }";
    u "        .gallery a { position: relative; overflow: hidden; border-radius: 8px; transition: transform 0.3s; }";
    u "        .gallery a:hover { transform: scale(1.05); box-shadow: 0 4px 12px rgba(0,0,0,0.1); }";
    u "        .gallery img { width: 100%; height: auto; display: block; object-fit: cover; }";
    u "        .no-images { text-align: center; color: #888; margin-top: 50px; }";
    u "    </style>";
    u "</head>";
    u "<body>";
    u "    <h1>Image Gallery</h1>";
    u "    <div class=" ++ q ++ u "stats" ++ q ++ u ">Total images found: "
      ++ str_of_nat total ++ u "</div>" ].

Definition no_images_line : str :=
  u "    <div class=" ++ q ++ u "no-images" ++ q ++ u ">No images found.</div>".

(** The heading of one date: [YYYY.MM.DD] is shown as [DD.MM.YYYY]. *)
Definition human_date (date_key : str) : str :=
  join (u ".") (reverse (split 46 date_key)).

Definition heading_line (date_key : str) (image_count : nat) : str :=
  u "    <h2>" ++ human_date date_key ++ u " (" ++ str_of_nat image_count
    ++ u " images)</h2>".

Definition gallery_open_line : str :=
  u "    <div class=" ++ q ++ u "gallery" ++ q ++ u ">".

Definition link_line (link : str) : str :=
  let safe_link := html_escape link in
  u "        <a href=" ++ q ++ safe_link ++ q ++ u " target=" ++ q ++ u "_blank" ++ q
    ++ u "><img src=" ++ q ++ safe_link ++ q ++ u " alt=" ++ q ++ u "Image" ++ q
    ++ u " loading=" ++ q ++ u "lazy" ++ q ++ u "></a>".

Definition date_section (s : state) (date_key : str) : list str :=
  let links := default [] (photos_by_date s !! date_key) in
  [heading_line date_key (length links); gallery_open_line]
    ++ List.map link_line links ++ [u "    </div>"].

Definition html_footer : list str :=
  [ u "    <footer style=" ++ q
      ++ u "text-align: center; margin-top: 50px; color: #999; font-size: 0.9em;"
      ++ q ++ u ">";
    u "        Generated on " ++ now env;
    u "    </footer>";
    u "</body>";
    u "</html>" ].

Definition sorted_dates (s : state) : list str :=
  sorted (map_to_list (photos_by_date s)).*1.

Definition generate_html_content (s : state) : list str :=
  html_head (size (all_links s))
    ++ match sorted_dates s with
       | [] => [no_images_line]
       | dates => flat_map (date_section s) dates
       end
    ++ html_footer.

(** *** [main]: a new parser, [parse_files], then the page *)
Definition init : world :=
  {| self := {| photos_by_date := ∅; all_links := ∅ |};
     logs := []; pbar := 0; history := [] |}.

Definition main : M (list str) :=
  parse_files ;; gets (fun w => generate_html_content (self w)).

End Gallery.

(** ** The script: [generate_html_gallery], [validate_input_directory] and [main] *)

(** [os.path.join(a, b)] (posixpath) *)
Definition path_join (a b : str) : str :=
  if bool_decide (head b = Some 47) then b
  else if bool_decide (a = []) || bool_decide (last a = Some 47) then a ++ b
  else a ++ 47 :: b.

Module Cli.

(** What [parse_arguments] returns: [args.input_dir], [args.encoding],
    [args.output_dir] and [args.verbose]. *)
Record Namespace := {
  args_input_dir : option str;
  args_encoding : str;
  args_output_dir : str;
  args_verbose : bool
}.

(** A call of the script returns, raises an exception of the parser's
    kinds, or raises [SystemExit(code)], as [exit(code)] does. *)
Inductive result (A : Type) :=
| Ok (a : A)
| Err (e : exception)
| Exit (code : Z).
Arguments Ok {A} a.
Arguments Err {A} e.
Arguments Exit {A} code.

(** What the script reads from outside, besides what the parser reads:
    the command line as [argparse] understood it, the answer to the
    prompt of [input], [os.path.isdir], [os.access(_, os.R_OK)], the
    clock as [strftime("%Y%m%d_%H%M%S")] shows it, and what the output
    does:
    - [open_w path]: whether [open(path, "w", encoding="utf-8")]
      succeeds; it raises a [PermissionError] or a [FileNotFoundError]
      when the file cannot be created;
    - [write path text]: whether writing [text] to the open file and
      closing it succeeds; a text that UTF-8 cannot encode raises a
      [UnicodeEncodeError], which is a [ValueError];
    - [stdout_write line]: whether [sys.stdout] takes a line of [print];
      a line with a character that the encoding of [sys.stdout] lacks
      raises a [UnicodeEncodeError], a [ValueError] again. *)
Record Os := {
  env : Env;
  parse_arguments : result Namespace;
  input : py str;
  isdir : str → bool;
  access_R_OK : str → bool;
  timestamp : str;
  open_w : str → py unit;
  write : str → str → py unit;
  stdout_write : str → py unit
}.

(** The records that the script itself logs. *)
Inductive record :=
| ErrorNotSpecified
| ErrorDoesNotExist (input_dir : str)
| ErrorNotReadable (input_dir : str)
| InfoGalleryCreated (output_file : str)
| ErrorCreatingGallery (e : exception)
| InfoCancelled
| ErrorUnexpected (e : exception).

(** What happens to the files: [open(path, "w")] creates the file or
    empties it, and a completed [write] leaves the text in it. *)
Inductive file_event :=
| Truncated (path : str)
| Written (path text : str).

(** The process: the parser object with what its methods logged, the
    records of the script, whether the root logger was set to [DEBUG],
    the prompts that [input] showed, what happened to the files, and the
    lines that [print] wrote. *)
Record process := {
  parser : world;
  records : list record;
  debug : bool;
  prompts : list str;
  files : list file_event;
  stdout : list str
}.

Definition S (A : Type) : Type := process → process * result A.

Definition ret {A} (a : A) : S A := fun p => (p, Ok a).

Definition bind {A B} (m : S A) (k : A → S B) : S B :=
  fun p =>
    match m p with
    | (p', Ok a) => k a p'
    | (p', Err e) => (p', Err e)
    | (p', Exit c) => (p', Exit c)
    end.

#[global] Instance S_ret : MRet S := @ret.
#[global] Instance S_bind : MBind S := fun A B k m => bind m k.

Definition raise {A} (e : exception) : S A := fun p => (p, Err e).

(** [exit(code)] *)
Definition exit {A} (code : Z) : S A := fun p => (p, Exit code).

Definition lift {A} (r : result A) : S A := fun p => (p, r).

(** A method of the parser, run on the parser of the process. *)
Definition method {A} (m : M A) : S A :=
  fun p =>
    let '(w, r) := m (parser p) in
    ({| parser := w; records := records p; debug := debug p; prompts := prompts p;
        files := files p; stdout := stdout p |},
     match r with Return a => Ok a | Raise e => Err e end).

Definition logger (r : record) : S unit :=
  fun p =>
    ({| parser := parser p; records := records p ++ [r]; debug := debug p;
        prompts := prompts p;
        files := files p; stdout := stdout p |}, Ok tt).

(** [logging.getLogger().setLevel(logging.DEBUG)] *)
Definition setLevel_DEBUG : S unit :=
  fun p =>
    ({| parser := parser p; records := records p; debug := true;
        prompts := prompts p;
        files := files p; stdout := stdout p |}, Ok tt).

(** [input(prompt)]: the prompt is shown, then the answer is read. *)
Definition input_line (os : Os) (prompt : str) : S str :=
  fun p =>
    ({| parser := parser p; records := records p; debug := debug p;
        prompts := prompts p ++ [prompt]; files := files p; stdout := stdout p |},
     match input os with Return a => Ok a | Raise e => Err e end).

(** [print(line)]: the line is written, or nothing is and [print]
    raises. *)
Definition print (os : Os) (line : str) : S unit :=
  fun p =>
    match stdout_write os line with
    | Return _ =>
      ({| parser := parser p; records := records p; debug := debug p;
          prompts := prompts p; files := files p; stdout := stdout p ++ [line] |},
       Ok tt)
    | Raise e => (p, Err e)
    end.

(** [open(path, "w", encoding="utf-8")]: once it returns, the file
    exists and is empty. *)
Definition open_for_writing (os : Os) (path : str) : S unit :=
  fun p =>
    match open_w os path with
    | Return _ =>
      ({| parser := parser p; records := records p; debug := debug p;
          prompts := prompts p; files := files p ++ [Truncated path];
          stdout := stdout p |}, Ok tt)
    | Raise e => (p, Err e)
    end.

(** [out_file.write(text)] and the end of the [with] block, which closes
    the file. *)
Definition write_and_close (os : Os) (path text : str) : S unit :=
  fun p =>
    match write os path text with
    | Return _ =>
      ({| parser := parser p; records := records p; debug := debug p;
          prompts := prompts p; files := files p ++ [Written path text];
          stdout := stdout p |}, Ok tt)
    | Raise e => (p, Err e)
    end.

(** [ImageGalleryParser(config)]: a parser with empty containers. *)
Definition ImageGalleryParser : S unit :=
  fun p =>
    ({| parser := {| self := self init; logs := logs (parser p); pbar := pbar (parser p);
                     history := [] |};
        records := records p; debug := debug p; prompts := prompts p;
        files := files p; stdout := stdout p |}, Ok tt).

(** [try: body except Exception as e: handler(e)] *)
Definition try_except {A} (body : S A) (handler : exception → S A) : S A :=
  fun p =>
    match body p with
    | (p', Err e) => if is_Exception e then handler e p' else (p', Err e)
    | r => r
    end.

Section Script.
Context `{Unicode} (os : Os).

(** *** [generate_html_gallery] *)
Definition generate_html_gallery (config : Config) : S str :=
  let output_file :=
    path_join (output_dir config) (u "gallery_" ++ timestamp os ++ u ".html") in
  try_except
    (html_content ← method (gets (fun w => generate_html_content (env os) (self w)));
     open_for_writing os output_file ;;
     write_and_close os output_file (join [10] html_content) ;;
     logger (InfoGalleryCreated output_file) ;;
     mret output_file)
    (fun e => logger (ErrorCreatingGallery e) ;; raise e).

(** *** [validate_input_directory] *)
Definition validate_input_directory (input_dir : str) : S unit :=
  match input_dir with
  | [] => logger ErrorNotSpecified ;; exit 1
  | _ =>
    if negb (isdir os input_dir) then logger (ErrorDoesNotExist input_dir) ;; exit 1
    else if negb (access_R_OK os input_dir) then
      logger (ErrorNotReadable input_dir) ;; exit 1
    else mret tt
  end.

(** *** [main] *)

(** [input_dir = args.input_dir], and the prompt when it is missing or
    empty. *)
Definition get_input_dir (args : Namespace) : S str :=
  match args_input_dir args with
  | Some (c :: d) => mret (c :: d)
  | _ => answer ← input_line os (u "Enter path to input directory: "); mret (strip answer)
  end.

(** The parser at work: from the configuration to the printed lines. *)
Definition create_gallery (config : Config) : S unit :=
  ImageGalleryParser ;;
  method (parse_files (env os) config) ;;
  output_file ← generate_html_gallery config;
  all_links ← method (gets (fun w => all_links (self w)));
  photos_by_date ← method (gets (fun w => photos_by_date (self w)));
  print os (10 :: u "✓ Gallery successfully created: " ++ output_file) ;;
  print os (u "✓ Total images processed: " ++ str_of_nat (size all_links)) ;;
  print os (u "✓ Date groups created: " ++ str_of_nat (size photos_by_date)).

(** The body of the [try] statement. *)
Definition main_body : S unit :=
  args ← lift (parse_arguments os);
  (if args_verbose args then setLevel_DEBUG else mret tt) ;;
  input_dir ← get_input_dir args;
  validate_input_directory input_dir ;;
  create_gallery
    (Config_init input_dir (Some (args_encoding args)) (Some (args_output_dir args)) None).

Definition main : S unit :=
  fun p =>
    match main_body p with
    | (p', Err e) =>
      match e with
      | KeyboardInterrupt => (logger InfoCancelled ;; exit 130) p'
      | _ =>
        if is_Exception e then (logger (ErrorUnexpected e) ;; exit 1) p'
        else (p', Err e)
      end
    | r => r
    end.

End Script.

(** A new process. *)
Definition start : process :=
  {| parser := init; records := []; debug := false; prompts := []; files := [];
     stdout := [] |}.

End Cli.

(** ** What the claims speak about *)

(** The part of a link before its first ['?']. *)
Definition query_stripped (href clean : str) : Prop :=
  ∃ rest, href = clean ++ rest ∧ (63 ∉ clean) ∧ (rest = [] ∨ head rest = Some 63).

(** [e] is the suffix of [p] from the last dot of its last path component,
    with a name before that dot that is not made of dots only. *)
Definition has_extension (p e : str) : Prop :=
  ∃ dir name r,
    p = dir ++ name ++ e ∧ e = 46 :: r ∧ (46 ∉ r) ∧ (47 ∉ r) ∧ (47 ∉ name)
    ∧ (dir = [] ∨ ∃ d, dir = d ++ [47]) ∧ ∃ c, c ∈ name ∧ c ≠ 46.

(** The filename extension of [p]: empty when [p] has none. *)
Definition filename_extension (p e : str) : Prop :=
  has_extension p e ∨ (e = [] ∧ ∀ e', ¬ has_extension p e').

Section DateWords.
Context `{Unicode}.

(** The letters of the month token: the set [[а-я]] under [re.IGNORECASE]. *)
Definition month_letter (c : code) : bool := range_ignorecase 1072 1103 c.

(** [day], [mon] and [year], separated by the white space [w1] and [w2],
    have the shape the pattern asks for. *)
Definition date_shape (day mon year : str) (w1 w2 : code) : Prop :=
  (length day = 1 ∨ length day = 2)%nat ∧ forallb isdecimal day = true
  ∧ isspace w1 = true
  ∧ length mon = 3%nat ∧ forallb month_letter mon = true
  ∧ isspace w2 = true
  ∧ length year = 4%nat ∧ forallb isdecimal year = true.

(** [s] starts with an occurrence of the pattern with these three groups. *)
Definition starts_with_date (s : str) (day mon year : str) : Prop :=
  ∃ w1 w2 post,
    s = day ++ w1 :: mon ++ w2 :: year ++ post ∧ date_shape day mon year w1 w2.

(** The pattern occurs in [text] at offset [i] with these three groups. *)
Definition occurs_at (text : str) (i : nat) (day mon year : str) : Prop :=
  starts_with_date (drop i text) day mon year.

(** The first occurrence: none starts earlier, and none at the same
    offset has a longer day. *)
Definition first_occurrence (text : str) (i : nat) (day mon year : str) : Prop :=
  occurs_at text i day mon year
  ∧ ∀ j day' mon' year',
      occurs_at text j day' mon' year' →
      (i < j ∨ (i = j ∧ length day' ≤ length day))%nat.

(** What follows the day in the pattern: [\s([а-я]{3})\s(\d{4})]. *)
Definition after_day (pos : nat) (day s : str) : option Match :=
  match s with
  | w1 :: s1 =>
    if isspace w1 && (bool_decide (3 ≤ length s1)%nat && forallb month_letter (take 3 s1))
    then
      match drop 3 s1 with
      | w2 :: s2 =>
        if isspace w2 && (bool_decide (4 ≤ length s2)%nat && forallb isdecimal (take 4 s2))
        then Some {| start := pos;
                     group0 := day ++ w1 :: take 3 s1 ++ w2 :: take 4 s2;
                     groups := [day; take 3 s1; take 4 s2] |}
        else None
      | [] => None
      end
    else None
  | [] => None
  end.

(** What [extract_date] makes of the groups of a match. *)
Definition date_of_groups (day mon year : str) : option str :=
  match MONTHS !! lower (take 3 mon) with
  | Some month => Some (year ++ u "." ++ month ++ u "." ++ zfill 2 day)
  | None => None
  end.

End DateWords.

(** The numbers a date key stands for. *)
Section DateValues.
Context `{Unicode}.

(** [int(s)] on a string of decimal digits. *)
Fixpoint int_from (acc : N) (s : str) : option N :=
  match s with
  | [] => Some acc
  | c :: s' =>
    match decimal c with
    | Some d => int_from (acc * 10 + d) s'
    | None => None
    end
  end.

Definition int (s : str) : option N :=
  match s with
  | [] => None
  | _ => int_from 0 s
  end.

(** The (year, month, day) triple of a key [YYYY.MM.DD]. *)
Definition date_triple (date_key : str) : option (N * N * N) :=
  match split 46 date_key with
  | [y; m; d] =>
    match int y, int m, int d with
    | Some y, Some m, Some d => Some (y, m, d)
    | _, _, _ => None
    end
  | _ => None
  end.

End DateValues.

(** Chronological order: by year, then month, then day. *)
Definition triple_compare (a b : N * N * N) : comparison :=
  let '(y, m, d) := a in
  let '(y', m', d') := b in
  match y ?= y' with
  | Eq => match m ?= m' with Eq => d ?= d' | c => c end
  | c => c
  end.

(** A key written with periods and the digits [0]-[9] only. *)
Definition ascii_digit (c : code) : Prop := 48 ≤ c ≤ 57.

#[export] Instance ascii_digit_dec (c : code) : Decision (ascii_digit c).
Proof. unfold ascii_digit. apply _. Defined.

Definition ascii_date (date_key : str) : Prop :=
  Forall (fun c => c = 46 ∨ ascii_digit c) date_key.

(** The value of a string of ASCII digits. *)
Fixpoint digits_value (s : str) : N :=
  match s with
  | [] => 0
  | c :: s' => (c - 48) * 10 ^ N.of_nat (length s') + digits_value s'
  end.

(** ** What the aggregation records *)

(** Every link of every bucket is in the global set. *)
Definition links_registered (s : state) : Prop :=
  ∀ date links href,
    photos_by_date s !! date = Some links → href ∈ links → href ∈ all_links s.

(** ... now and after each mutation so far. *)
Definition always_registered (w : world) : Prop :=
  links_registered (self w) ∧ Forall links_registered (history w).

(** After [all_links.add(href)]: the invariant together with [href] in the set. *)
Definition registered_with (href : str) (w : world) : Prop :=
  always_registered w ∧ href ∈ all_links (self w).

(** A method keeps a property of the world, whether it returns or raises. *)
Definition preserves {A} (P : world → Prop) (m : M A) : Prop :=
  ∀ w, P w → P (m w).1.

Section Contributions.
Context `{Unicode} (env : Env) (config : Config).

(** The image link of an anchor: its stripped [href], when accepted. *)
Definition image_link_of (n : Node) : option str :=
  match get_href (element n) with
  | Return h =>
    match is_image_link config (strip h) with
    | Return true => Some (strip h)
    | _ => None
    end
  | Raise _ => None
  end.

(** The date of the message around an anchor, when it has one. *)
Definition date_of_link (n : Node) : option str :=
  match find_parent_div (u "message") n with
  | Some message =>
    match find_div (u "message__header") message with
    | Some header =>
      match extract_date (get_text_strip (u " ") header) with
      | Return (Some (c :: k)) => Some (c :: k)
      | _ => None
      end
    | None => None
    end
  | None => None
  end.

(** The image links of a document in document order, each with its date. *)
Definition image_links (soup : PageElement) : list (str * option str) :=
  omap (fun n => match image_link_of n with
                 | Some href => Some (href, date_of_link n)
                 | None => None
                 end)
       (find_all_a_href soup).

(** What [read_file_with_encoding] returns. *)
Fixpoint read_result (file_path : str) (encodings : list str) : py (option PageElement) :=
  match encodings with
  | [] => Return None
  | encoding :: rest =>
    match open_soup env file_path encoding with
    | Return soup => Return (Some soup)
    | Raise e =>
      match e with
      | UnicodeDecodeError | FileNotFoundError => read_result file_path rest
      | _ => Raise e
      end
    end
  end.

Definition read_file (file_path : str) : py (option PageElement) :=
  read_result file_path [u "utf-8"; u "windows-1251"; u "cp1252"].

(** No file of the list is interrupted: what its reader raises is an
    [Exception]. *)
Definition uninterrupted (files : list str) : Prop :=
  ∀ f e, f ∈ files → read_file f = Raise e → is_Exception e = true.

(** The image links that a file contributes: none when it cannot be read. *)
Definition file_links (file_path : str) : list (str * option str) :=
  match read_file file_path with
  | Return (Some soup) => image_links soup
  | _ => []
  end.

End Contributions.

(** Recording one link, and a list of links, in the two containers. *)
Definition record_link (s : state) (l : str * option str) : state :=
  match l.2 with
  | Some date_key => append_photo date_key l.1 (add_link l.1 s)
  | None => add_link l.1 s
  end.

Definition record_links (s : state) (ls : list (str * option str)) : state :=
  foldl record_link s ls.

(** The links recorded under one date, in order. *)
Definition dated (date_key : str) (ls : list (str * option str)) : list str :=
  omap (fun l => if bool_decide (l.2 = Some date_key) then Some l.1 else None) ls.

(** The containers after all of [ls] was recorded in a new parser and
    every bucket was sorted. *)
Definition aggregate (ls : list (str * option str)) : state :=
  let s := record_links {| photos_by_date := ∅; all_links := ∅ |} ls in
  {| photos_by_date := sorted <$> photos_by_date s; all_links := all_links s |}.

(** ** A small export, for closed examples *)

(** A message: a header with the author and the date, a body with links. *)
Definition example_message (header : string) (hrefs : list string) : PageElement :=
  Tag (u "div") None [u "message"; u "default"]
    [ Tag (u "div") None [u "message__header"] [NavigableString (u header)];
      Tag (u "div") None [u "message__body"]
        (List.map (fun h => Tag (u "a") (Some (u h)) [] []) hrefs) ].

(** Two messages with different dates that link the same image, and a
    link outside any message. *)
Definition example_soup : PageElement :=
  Tag (u "[document]") None []
    [ example_message " Иван 15 янв 2024 в 10:00 " ["b.jpg"; "a.jpg"]%string;
      example_message "Иван 1 фев 2023" ["a.jpg"; "notes.txt"]%string;
      Tag (u "a") (Some (u "z.gif")) [] [] ].

(** A directory with a file that no encoding decodes and a good one. *)
Definition example_env : Env := {|
  glob := fun _ => Return [u "export/broken.html"; u "export/messages.html"];
  open_soup := fun file_path _ =>
    if bool_decide (file_path = u "export/messages.html")
    then Return example_soup else Raise UnicodeDecodeError;
  now := u "2024-02-01 12:00:00"
|}.


(** An empty directory. *)
Definition empty_env : Env := {|
  glob := fun _ => Return [];
  open_soup := fun _ _ => Raise FileNotFoundError;
  now := u "2024-02-01 12:00:00"
|}.

Definition example_config : Config := Config_init (u "export") None None None.

(** ** What the report shows *)

(** A line that opens a date section. *)
Definition is_heading (line : str) : bool := bool_decide (take 8 line = u "    <h2>").


(** ** The order of the sections *)

Section Chronology.
Context `{Unicode}.


End Chronology.



(** ** Well-formed pages *)

(** The markup of a line, read character by character: outside a tag
    [<] opens one; inside a tag [>] closes it and [<] is an error. The
    state is the text of the tag being read, if any, and the tags read
    so far. *)
Definition scan_step (st : option str * list str) (c : code)
  : option (option str * list str) :=
  match st with
  | (None, tags) => Some (if c =? 60 then Some [] else None, tags)
  | (Some t, tags) =>
    if c =? 62 then Some (None, tags ++ [t])
    else if c =? 60 then None
    else Some (Some (t ++ [c]), tags)
  end.

Fixpoint scan (s : str) (st : option str * list str)
  : option (option str * list str) :=
  match s with
  | [] => Some st
  | c :: s' =>
    match scan_step st c with
    | Some st' => scan s' st'
    | None => None
    end
  end.

(** The tags of a line, each without its angle brackets; [None] when a
    tag is not closed on the line. *)
Definition markup (line : str) : option (list str) :=
  match scan line (None, []) with
  | Some (None, tags) => Some tags
  | _ => None
  end.

Fixpoint markup_of (lines : list str) : option (list str) :=
  match lines with
  | [] => Some []
  | line :: rest =>
    match markup line, markup_of rest with
    | Some tags, Some more => Some (tags ++ more)
    | _, _ => None
    end
  end.

Inductive tag :=
| Doctype (text : str)
| Open (name : str)
| Close (name : str).

(** [<!...>] is a declaration, [</name>] closes an element and
    [<name attributes>] opens one. *)
Definition tag_of (t : str) : tag :=
  match t with
  | 33 :: d => Doctype d
  | 47 :: n => Close n
  | _ => Open (default [] (head (split 32 t)))
  end.

(** The elements that have no content and no closing tag. *)
Definition void (name : str) : bool :=
  bool_decide (name ∈ [u "meta"; u "img"; u "br"; u "hr"; u "link"; u "input"]).

(** [closes stack tags]: with the elements of [stack] open, innermost
    first, every closing tag of [tags] closes the innermost open
    element, and the last tag closes the outermost one. *)
Fixpoint closes (stack : list str) (tags : list tag) : bool :=
  match tags with
  | [] => false
  | Doctype _ :: _ => false
  | Open n :: rest => if void n then closes stack rest else closes (n :: stack) rest
  | Close n :: rest =>
    match stack with
    | [] => false
    | [top] => bool_decide (n = top) && bool_decide (rest = [])
    | top :: stack' => bool_decide (n = top) && closes stack' rest
    end
  end.

(** The elements opened at the given depth, in order. *)
Fixpoint children (depth : nat) (tags : list tag) : list str :=
  match tags with
  | [] => []
  | Doctype _ :: rest => children depth rest
  | Open n :: rest =>
    (if bool_decide (depth = 0%nat) then [n] else [])
      ++ children (if void n then depth else S depth) rest
  | Close _ :: rest => children (pred depth) rest
  end.

(** A complete and well-formed page: the document type, then one [html]
    element that holds a [head] and a [body], with every element closed
    in its turn. *)
Definition valid_markup (tags : list str) : bool :=
  match tag_of <$> tags with
  | Doctype d :: Open root :: rest =>
    bool_decide (d = u "DOCTYPE html") && bool_decide (root = u "html")
    && closes [root] rest
    && bool_decide (children 0 rest = [u "head"; u "body"])
  | _ => false
  end.

Definition valid_document (lines : list str) : bool :=
  match markup_of lines with
  | Some tags => valid_markup tags
  | None => false
  end.

(** ** What the reader passes over *)

(** The encodings that [read_file_with_encoding] tries, in order. *)
Definition encodings : list str := [u "utf-8"; u "windows-1251"; u "cp1252"].

(** [isinstance(e, (UnicodeDecodeError, FileNotFoundError))] *)
Definition passed_over (e : exception) : bool :=
  match e with
  | UnicodeDecodeError | FileNotFoundError => true
  | _ => false
  end.

(** ** What the containers never hold *)

Section Recorded.
Context `{Unicode} (config : Config).

(** Every recorded link was accepted by [is_image_link] and has no white
    space around it. *)
Definition image_links_only (s : state) : Prop :=
  ∀ href, href ∈ all_links s →
    is_image_link config href = Return true ∧ strip href = href.

(** Every bucket has a link, under a key that [extract_date] returned. *)
Definition dated_buckets (s : state) : Prop :=
  ∀ date links, photos_by_date s !! date = Some links →
    links ≠ [] ∧ ∃ text, extract_date text = Return (Some date).

End Recorded.

(** A method keeps a property of the containers, whether it returns or
    raises. *)
Definition keeps {A} (I : state → Prop) (m : M A) : Prop :=
  preserves (fun w => I (self w)) m.

(** ** What the page is made of *)

(** What [html.escape] writes for one character. *)
Definition escape_char (c : code) : str :=
  if c =? 38 then u "&amp;"
  else if c =? 60 then u "&lt;"
  else if c =? 62 then u "&gt;"
  else if c =? 34 then u "&quot;"
  else if c =? 39 then u "&#x27;"
  else [c].

(** The characters that delimit markup and attribute values. *)
Definition delimiter (c : code) : bool :=
  (c =? 34) || (c =? 39) || (c =? 60) || (c =? 62).

(** [s.count(c)] *)
Definition count (c : code) (s : str) : nat := length (List.filter (N.eqb c) s).

(** A line that lists a link. *)
Definition is_link_line (line : str) : bool :=
  bool_decide (take 16 line = u "        <a href=").

(** The number of entries of all buckets:
    [sum(len(links) for links in photos_by_date.values())]. *)
Definition shown (s : state) : nat :=
  sum_list_with (fun kv : str * list str => length kv.2) (map_to_list (photos_by_date s)).

(** ** More examples *)

(** A configuration whose only extension is written in capitals. *)
Definition capitals_config : Config :=
  Config_init (u "export") None None (Some [u ".JPG"]).

(** The example directory, scanned in the other order. *)
Definition example_env_reversed : Env := {|
  glob := fun _ => Return [u "export/messages.html"; u "export/broken.html"];
  open_soup := open_soup example_env;
  now := now example_env
|}.

(** A directory whose scan fails, one with a file that may not be
    opened, and one at which the user interrupts the run. *)
Definition failing_scan_env : Env := {|
  glob := fun _ => Raise PermissionError;
  open_soup := open_soup example_env;
  now := now example_env
|}.

Definition locked_env : Env := {|
  glob := fun _ => Return [u "export/messages.html"; u "export/locked.html"];
  open_soup := fun file_path encoding =>
    if bool_decide (file_path = u "export/locked.html") then Raise PermissionError
    else open_soup example_env file_path encoding;
  now := now example_env
|}.

Definition interrupted_env : Env := {|
  glob := fun _ =>
    Return [u "export/messages.html"; u "export/stop.html"; u "export/messages.html"];
  open_soup := fun file_path encoding =>
    if bool_decide (file_path = u "export/stop.html") then Raise KeyboardInterrupt
    else open_soup example_env file_path encoding;
  now := now example_env
|}.

(** The lines that [main] prints at the end. *)
Definition summary_lines (output_file : str) (s : state) : list str :=
  [10 :: u "✓ Gallery successfully created: " ++ output_file;
   u "✓ Total images processed: " ++ str_of_nat (size (all_links s));
   u "✓ Date groups created: " ++ str_of_nat (size (photos_by_date s))].





(** An empty directory, and no directory on the command line: the user
    types its name, with a space after it. *)
Definition empty_os : Cli.Os := {|
  Cli.env := empty_env;
  Cli.parse_arguments :=
    Cli.Ok {| Cli.args_input_dir := None; Cli.args_encoding := u "utf-8";
              Cli.args_output_dir := u "out/"; Cli.args_verbose := true |};
  Cli.input := Return (u "export ");
  Cli.isdir := fun d => bool_decide (d = u "export");
  Cli.access_R_OK := fun _ => true;
  Cli.timestamp := u "20240201_120000";
  Cli.open_w := fun _ => Return tt;
  Cli.write := fun _ _ => Return tt;
  Cli.stdout_write := fun _ => Return tt
|}.

(** * Theorems *)

Lemma rfind_from_spec (c : code) (s : str) (i last : Z) :
  ((c ∉ s) ∧ rfind_from c s i last = last)
  ∨ ∃ a b, s = a ++ c :: b ∧ (c ∉ b) ∧ rfind_from c s i last = (i + Z.of_nat (length a))%Z.
Proof.
  revert i last; induction s as [|x s IH]; intros i last; simpl.
  - left; split; [apply not_elem_of_nil | reflexivity].
  - destruct (IH (i + 1)%Z (if x =? c then i else last)) as [[Hn Hr] | (a & b & -> & Hb & Hr)].
    + destruct (N.eqb_spec x c) as [-> | Hxc].
      * right; exists [], s; simpl. rewrite Hr. split_and!; [done | done | lia].
      * left; split; [| done]. rewrite elem_of_cons; intros [? | ?]; [congruence | done].
    + right; exists (x :: a), b; simpl. rewrite Hr. split_and!; [done | done | lia].
Qed.

Lemma rfind_spec (c : code) (s : str) :
  ((c ∉ s) ∧ rfind c s = (-1)%Z)
  ∨ ∃ a b, s = a ++ c :: b ∧ (c ∉ b) ∧ rfind c s = Z.of_nat (length a).
Proof.
  unfold rfind. destruct (rfind_from_spec c s 0 (-1)) as [? | (a & b & ? & ? & ?)]; [by left |].
  right; exists a, b. split_and!; [done | done | lia].
Qed.

Lemma forallb_dots_iff (l : str) :
  forallb (fun c => c =? 46) l = false ↔ ∃ c, c ∈ l ∧ c ≠ 46.
Proof.
  induction l as [|x l IH]; simpl.
  - split; [done | intros (c & Hc & _); by apply elem_of_nil in Hc].
  - destruct (N.eqb_spec x 46) as [-> | Hx]; simpl.
    + rewrite IH. split; intros (c & Hc & Hne); exists c; split; try done.
      * by right.
      * apply elem_of_cons in Hc as [-> | ?]; done.
    + split; [intros _; exists x; split; [left | done] | done].
Qed.

(** Two splittings of a list around an element. *)
Lemma app_cons_eq_inv (x y : code) (a b a' b' : str) :
  a ++ x :: b = a' ++ y :: b' →
  (a = a' ∧ x = y ∧ b = b')
  ∨ (∃ m, a = a' ++ y :: m ∧ b' = m ++ x :: b)
  ∨ (∃ m, a' = a ++ x :: m ∧ b = m ++ y :: b').
Proof.
  intros Heq. apply app_eq_app in Heq as [l [[-> Hl] | [-> Hl]]].
  - destruct l as [|z l]; simpl in Hl.
    + injection Hl as -> ->. left. by rewrite app_nil_r.
    + injection Hl as -> ->. right; left. by exists l.
  - destruct l as [|z l]; simpl in Hl.
    + injection Hl as -> ->. left. by rewrite app_nil_r.
    + injection Hl as -> ->. right; right. by exists l.
Qed.

Lemma last_occurrence_unique (c : code) (a b a' b' : str) :
  a ++ c :: b = a' ++ c :: b' → c ∉ b → c ∉ b' → a = a' ∧ b = b'.
Proof.
  intros Heq Hb Hb'.
  destruct (app_cons_eq_inv _ _ _ _ _ _ Heq) as [(-> & _ & ->) | [(m & -> & ->) | (m & -> & ->)]].
  - done.
  - exfalso. apply Hb'. apply elem_of_app; right; left.
  - exfalso. apply Hb. apply elem_of_app; right; left.
Qed.

Lemma has_extension_unique (p e e' : str) :
  has_extension p e → has_extension p e' → e = e'.
Proof.
  intros (dir & name & r & Hp & -> & Hr & _) (dir' & name' & r' & Hp' & -> & Hr' & _).
  rewrite Hp' in Hp. rewrite !app_assoc in Hp.
  apply last_occurrence_unique in Hp as [_ ->]; done.
Qed.

Lemma filename_extension_unique (p e e' : str) :
  filename_extension p e → filename_extension p e' → e = e'.
Proof.
  intros [He | [-> Hn]] [He' | [-> Hn']].
  - by eapply has_extension_unique.
  - by destruct (Hn' e).
  - by destruct (Hn e').
  - done.
Qed.

Lemma splitext_extension (p : str) : filename_extension p (splitext p).2.
Proof.
  unfold splitext, _splitext.
  destruct (rfind_spec 46 p) as [[Hnd ->] | (a & b & Hp & Hb & ->)].
  - (* no dot at all *)
    assert ((rfind 47%N p <? -1)%Z = false) as ->.
    { destruct (rfind_spec 47 p) as [[_ ->] | (? & ? & _ & _ & ->)]; apply Z.ltb_ge; lia. }
    right; split; [done |].
    intros e' (dir & name & r & -> & -> & _). apply Hnd.
    rewrite !elem_of_app. right; right; left.
  - destruct (rfind_spec 47 p) as [[Hns ->] | (a' & b' & Hp' & Hb' & ->)].
    + (* no separator: the name is everything before the last dot *)
      assert ((-1 <? Z.of_nat (length a))%Z = true) as -> by (apply Z.ltb_lt; lia).
      replace (Z.to_nat (-1 + 1)) with 0%nat by lia. rewrite Nat2Z.id, Nat.sub_0_r, drop_0.
      assert (take (length a) p = a) as Ha by (by rewrite Hp, take_app_length).
      assert (drop (length a) p = 46 :: b) as Hd by (by rewrite Hp, drop_app_length).
      rewrite Ha, Hd.
      destruct (forallb (λ c, c =? 46) a) eqn:Hdots; simpl.
      * right; split; [done |].
        intros e' (dir & name & r & Hpe & -> & Hr & _ & _ & Hdir & Hname).
        rewrite Hp in Hpe. rewrite !app_assoc in Hpe.
        apply last_occurrence_unique in Hpe as [-> ->]; [| done | done].
        destruct Hdir as [-> | [d ->]].
        -- simpl in Hdots. apply forallb_dots_iff in Hname. congruence.
        -- apply Hns. rewrite Hp, !elem_of_app. left; left; right; left.
      * left. exists [], a, b. simpl. split_and!; try done.
        -- intros Hin. apply Hns. rewrite Hp, elem_of_app. right; by right.
        -- intros Hin. apply Hns. rewrite Hp, elem_of_app. by left.
        -- by left.
        -- by apply forallb_dots_iff.
    + rewrite Hp in Hp'.
      destruct (app_cons_eq_inv _ _ _ _ _ _ Hp') as [(_ & ? & _) | [(m & -> & ->) | (m & -> & ->)]].
      * done.
      * (* the last separator comes before the last dot *)
        destruct (_ <? _)%Z eqn:Hlt;
          [| apply Z.ltb_ge in Hlt; rewrite length_app in Hlt; simpl in Hlt; lia].
        replace (Z.to_nat (Z.of_nat (length a') + 1)) with (S (length a')) by lia.
        rewrite Nat2Z.id.
        assert (take (length (a' ++ 47 :: m)) p = a' ++ 47 :: m) as Ha
          by (by rewrite Hp, take_app_length).
        assert (drop (length (a' ++ 47 :: m)) p = 46 :: b) as Hd
          by (by rewrite Hp, drop_app_length).
        assert (take (length (a' ++ 47 :: m) - S (length a')) (drop (S (length a')) p) = m) as Hm.
        { rewrite Hp, <- app_assoc.
          change (a' ++ (47 :: m) ++ 46 :: b) with (a' ++ [47] ++ (m ++ 46 :: b)).
          rewrite app_assoc.
          replace (S (length a')) with (length (a' ++ [47]))
            by (rewrite length_app; simpl; lia).
          rewrite drop_app_length, !length_app; simpl.
          replace (length a' + S (length m) - (length a' + 1))%nat with (length m) by lia.
          by rewrite take_app_length. }
        rewrite Ha, Hd, Hm.
        destruct (forallb (λ c, c =? 46) m) eqn:Hdots; simpl.
        -- right; split; [done |].
           intros e' (dir & name & r & Hpe & -> & Hr & Hrs & Hnames & Hdir & Hname).
           rewrite Hp in Hpe. rewrite !app_assoc in Hpe.
           apply last_occurrence_unique in Hpe as [Hpe ->]; [| done | done].
           assert (name = m) as ->.
           { destruct Hdir as [-> | [d ->]].
             - simpl in Hpe. exfalso. apply Hnames. rewrite <- Hpe, elem_of_app. right; left.
             - rewrite <- app_assoc in Hpe. simpl in Hpe.
               apply last_occurrence_unique in Hpe as [_ ?]; [done | | done].
               intros Hin. apply Hb'. rewrite elem_of_app. by left. }
           apply forallb_dots_iff in Hname. congruence.
        -- left. exists (a' ++ [47]), m, b. split_and!; try done.
           ++ rewrite Hp. by rewrite <- !app_assoc.
           ++ intros Hin. apply Hb'. rewrite elem_of_app. right; by right.
           ++ intros Hin. apply Hb'. rewrite elem_of_app. by left.
           ++ right. by exists a'.
           ++ by apply forallb_dots_iff.
      * (* a separator follows the last dot *)
        destruct (_ <? _)%Z eqn:Hlt;
          [apply Z.ltb_lt in Hlt; rewrite length_app in Hlt; simpl in Hlt; lia |].
        right; split; [done |].
        intros e' (dir & name & r & Hpe & -> & Hr & Hrs & _).
        rewrite Hp in Hpe. rewrite !app_assoc in Hpe.
        apply last_occurrence_unique in Hpe as [_ <-]; [| done | done].
        apply Hrs. rewrite elem_of_app. right; left.
Qed.

Lemma split_first (sep : code) (s : str) :
  ∃ w ws rest, split sep s = w :: ws ∧ s = w ++ rest ∧ (sep ∉ w)
               ∧ (rest = [] ∨ head rest = Some sep).
Proof.
  induction s as [|c s (w & ws & rest & Hs & -> & Hw & Hrest)]; simpl.
  - exists [], [], []. split_and!; [done | done | apply not_elem_of_nil | by left].
  - destruct (N.eqb_spec c sep) as [-> | Hc].
    + exists [], (split sep (w ++ rest)), (sep :: w ++ rest).
      split_and!; [done | done | apply not_elem_of_nil | by right].
    + rewrite Hs. exists (c :: w), ws, rest. split_and!; [done | done | | done].
      rewrite elem_of_cons. intros [? | ?]; [congruence | done].
Qed.

Lemma first_split_unique (c : code) (a b a' b' : str) :
  a ++ c :: b = a' ++ c :: b' → c ∉ a → c ∉ a' → a = a'.
Proof.
  intros Heq Ha Ha'.
  destruct (app_cons_eq_inv _ _ _ _ _ _ Heq) as [(-> & _) | [(m & -> & _) | (m & -> & _)]].
  - done.
  - exfalso. apply Ha. apply elem_of_app; right; left.
  - exfalso. apply Ha'. apply elem_of_app; right; left.
Qed.

Lemma query_stripped_unique (href c1 c2 : str) :
  query_stripped href c1 → query_stripped href c2 → c1 = c2.
Proof.
  intros (r1 & -> & Hc1 & Hr1) (r2 & Heq & Hc2 & Hr2).
  destruct r1 as [|x r1], r2 as [|y r2]; simplify_eq/=.
  - by rewrite !app_nil_r in Heq.
  - destruct Hr2 as [? | [= ->]]; [done |]. rewrite app_nil_r in Heq.
    exfalso. apply Hc1. rewrite Heq, elem_of_app. right; left.
  - destruct Hr1 as [? | [= ->]]; [done |]. rewrite app_nil_r in Heq.
    exfalso. apply Hc2. rewrite <- Heq, elem_of_app. right; left.
  - destruct Hr1 as [? | [= ->]]; [done |]. destruct Hr2 as [? | [= ->]]; [done |].
    symmetry. by eapply first_split_unique.
Qed.

Section LinkClassifier.
Context `{Unicode}.

Lemma is_image_link_unfold (config : Config) (href : str) :
  ∃ clean, query_stripped href clean
    ∧ is_image_link config href
      = Return (bool_decide (lower (splitext clean).2 ∈ image_extensions config)).
Proof.
  unfold is_image_link.
  destruct (split_first 63 href) as (clean & ws & rest & -> & Hhref & Hclean & Hrest).
  exists clean. split; [by exists rest | done].
Qed.

(** C1. Under the default configuration [is_image_link] accepts a link
    exactly when the lowercased filename extension of the part before the
    first ['?'] is one of [.jpg .jpeg .png .gif .bmp .webp .svg]: every
    link has one such part and one extension, the answer is [True] when
    the lowercased extension is in the set and [False] otherwise, and it
    never raises. With [lower] mapping [".JPG"] to [".jpg"] and leaving
    [".pdf"] alone, ["photo.JPG?size=large"] is accepted and ["doc.pdf"]
    is rejected. *)
Theorem is_image_link_by_extension (input_dir : str) (encoding output_dir : option str)
    (Hjpg : lower (u ".JPG") = u ".jpg") (Hpdf : lower (u ".pdf") = u ".pdf") :
  let config := Config_init input_dir encoding output_dir None in
  let recognized :=
    [u ".jpg"; u ".jpeg"; u ".png"; u ".gif"; u ".bmp"; u ".webp"; u ".svg"] in
  (∀ href, ∃ clean e, query_stripped href clean ∧ filename_extension clean e)
  ∧ (∀ href clean e, query_stripped href clean → filename_extension clean e →
       (lower e ∈ recognized → is_image_link config href = Return true)
       ∧ (lower e ∉ recognized → is_image_link config href = Return false))
  ∧ is_image_link config (u "photo.JPG?size=large") = Return true
  ∧ is_image_link config (u "doc.pdf") = Return false.
Proof.
  intros config recognized. split_and!.
  - intros href. destruct (is_image_link_unfold config href) as (clean & Hclean & _).
    exists clean, (splitext clean).2. split; [done | apply splitext_extension].
  - intros href clean e Hclean He.
    destruct (is_image_link_unfold config href) as (clean' & Hclean' & ->).
    rewrite (query_stripped_unique _ _ _ Hclean' Hclean).
    rewrite (filename_extension_unique _ _ _ (splitext_extension clean) He).
    change (image_extensions config) with recognized.
    split; intros Hin.
    + by rewrite bool_decide_eq_true_2.
    + by rewrite bool_decide_eq_false_2.
  - unfold is_image_link.
    change (split 63 (u "photo.JPG?size=large")) with [u "photo.JPG"; u "size=large"].
    cbv beta iota zeta.
    change (splitext (u "photo.JPG")).2 with (u ".JPG"). rewrite Hjpg. done.
  - unfold is_image_link.
    change (split 63 (u "doc.pdf")) with [u "doc.pdf"].
    cbv beta iota zeta.
    change (splitext (u "doc.pdf")).2 with (u ".pdf"). rewrite Hpdf. done.
Qed.

End LinkClassifier.

Lemma is_image_link_by_extension_witness :
  @lower ucd (u ".JPG") = u ".jpg" ∧ @lower ucd (u ".pdf") = u ".pdf"
  ∧ @is_image_link ucd (Config_init (u "export") None None None)
      (u "photo.JPG?size=large") = Return true
  ∧ @is_image_link ucd (Config_init (u "export") None None None) (u "doc.pdf")
    = Return false.
Proof.
  split; [reflexivity |]. split; [reflexivity |].
  destruct (@is_image_link_by_extension ucd (u "export") None None eq_refl eq_refl)
    as (_ & _ & Hjpg & Hpdf).
  split; [exact Hjpg | exact Hpdf].
Defined.

(** ** The matcher on the shapes that [DATE_PATTERN] is made of *)

Section Matcher.
Context {R : Type}.
Implicit Types (k : list N → list N → list (list N) → option R).

Lemma exec_chars p s m gs k :
  exec (Chars p) s m gs k
  = match s with
    | c :: s' => if p c then k s' (m ++ [c]) gs else None
    | [] => None
    end.
Proof. reflexivity. Qed.

Lemma exec_cat r1 r2 s m gs k :
  exec (Cat r1 r2) s m gs k = exec r1 s m gs (fun s' m' gs' => exec r2 s' m' gs' k).
Proof. reflexivity. Qed.

Lemma exec_group r s m gs k :
  exec (Group r) s m gs k
  = exec r s m gs (fun s' m' gs' => k s' m' (gs' ++ [drop (length m) m'])).
Proof. reflexivity. Qed.

Lemma exec_repeat_0 lo r s m gs k : exec (Repeat lo 0 r) s m gs k = k s m gs.
Proof. reflexivity. Qed.

Lemma exec_repeat_S lo hi r s m gs k :
  exec (Repeat lo (S hi) r) s m gs k
  = match exec r s m gs (fun s' m' gs' => exec (Repeat (pred lo) hi r) s' m' gs' k) with
    | Some x => Some x
    | None => match lo with O => k s m gs | S _ => None end
    end.
Proof. reflexivity. Qed.

(** [p{n}]: exactly [n] characters of the class. *)
Lemma exec_repeat_exact n p s m gs k :
  exec (Repeat n n (Chars p)) s m gs k
  = if bool_decide (n ≤ length s)%nat && forallb p (take n s)
    then k (drop n s) (m ++ take n s) gs
    else None.
Proof.
  revert s m; induction n as [|n IH]; intros s m.
  - rewrite exec_repeat_0, bool_decide_eq_true_2 by lia. simpl. by rewrite app_nil_r.
  - rewrite exec_repeat_S, exec_chars. destruct s as [|c s].
    + done.
    + cbv beta iota. change (pred (S n)) with n.
      change (take (S n) (c :: s)) with (c :: take n s).
      change (drop (S n) (c :: s)) with (drop n s).
      change (forallb p (c :: take n s)) with (p c && forallb p (take n s)).
      rewrite (bool_decide_ext (S n ≤ length (c :: s))%nat (n ≤ length s)%nat)
        by (simpl; lia).
      destruct (p c).
      * rewrite IH, <- app_assoc. simpl.
        destruct (_ && _); [by destruct (k _ _ _) | done].
      * by rewrite andb_false_r.
Qed.

End Matcher.

(** ** [DATE_PATTERN] and [extract_date] *)

Section DateExtractor.
Context `{Unicode}.

Lemma exec_after_day (pos : nat) (day s : str) :
  exec (Cat (Chars isspace)
         (Cat (Group (Repeat 3 3 (Chars (range_ignorecase 1072 1103))))
           (Cat (Chars isspace) (Group (Repeat 4 4 (Chars isdecimal))))))
       s day [day]
       (fun _ m gs => Some {| start := pos; group0 := m; groups := gs |})
  = after_day pos day s.
Proof.
  unfold after_day, month_letter. rewrite exec_cat, exec_chars.
  destruct s as [|w1 s1]; [done |].
  destruct (isspace w1); [| done]. rewrite andb_true_l.
  rewrite exec_cat, exec_group, exec_repeat_exact.
  destruct (bool_decide (3 ≤ length s1)%nat && forallb _ (take 3 s1)); [| done].
  rewrite exec_cat, exec_chars.
  destruct (drop 3 s1) as [|w2 s2]; [done |].
  destruct (isspace w2); [| done]. rewrite andb_true_l.
  rewrite exec_group, exec_repeat_exact.
  destruct (bool_decide (4 ≤ length s2)%nat && forallb isdecimal (take 4 s2)); [| done].
  rewrite !drop_app_length, <- !app_assoc. reflexivity.
Qed.

(** The day takes two digits when the rest then matches, else one. *)
Lemma match_at_DATE_PATTERN (pos : nat) (s : str) :
  match_at DATE_PATTERN pos s
  = match s with
    | c0 :: s1 =>
      if isdecimal c0 then
        match
          match s1 with
          | c1 :: s2 => if isdecimal c1 then after_day pos [c0; c1] s2 else None
          | [] => None
          end
        with
        | Some m => Some m
        | None => after_day pos [c0] s1
        end
      else None
    | [] => None
    end.
Proof.
  unfold match_at, DATE_PATTERN.
  rewrite exec_cat, exec_group, exec_repeat_S, exec_chars.
  destruct s as [|c0 s1]; [done |].
  destruct (isdecimal c0); [| done].
  rewrite exec_repeat_S, exec_chars.
  change (pred 1) with 0%nat. change (pred 0) with 0%nat.
  destruct s1 as [|c1 s2].
  - apply (exec_after_day pos [c0] []).
  - pose proof (exec_after_day pos [c0] (c1 :: s2)) as H1.
    pose proof (exec_after_day pos [c0; c1] s2) as H2.
    destruct (isdecimal c1).
    + rewrite exec_repeat_0. cbv beta iota. simpl app. simpl drop.
      rewrite H2. destruct (after_day pos [c0; c1] s2); [done |].
      rewrite H1. by destruct (after_day pos [c0] (c1 :: s2)).
    + cbv beta iota. simpl app. simpl drop.
      rewrite H1. by destruct (after_day pos [c0] (c1 :: s2)).
Qed.

Lemma take_drop_exact (n : nat) (a b : str) :
  length a = n →
  take n (a ++ b) = a ∧ drop n (a ++ b) = b ∧ bool_decide (n ≤ length (a ++ b))%nat = true.
Proof.
  intros <-. rewrite take_app_length, drop_app_length. split_and!; [done | done |].
  apply bool_decide_eq_true_2. rewrite length_app. lia.
Qed.

Lemma after_day_spec (pos : nat) (day s : str) :
  match after_day pos day s with
  | Some mt =>
    ∃ w1 mon w2 year post,
      s = w1 :: mon ++ w2 :: year ++ post
      ∧ isspace w1 = true ∧ length mon = 3%nat ∧ forallb month_letter mon = true
      ∧ isspace w2 = true ∧ length year = 4%nat ∧ forallb isdecimal year = true
      ∧ mt = {| start := pos; group0 := day ++ w1 :: mon ++ w2 :: year;
                groups := [day; mon; year] |}
  | None =>
    ∀ w1 mon w2 year post,
      s = w1 :: mon ++ w2 :: year ++ post →
      isspace w1 = true → length mon = 3%nat → forallb month_letter mon = true →
      isspace w2 = true → length year = 4%nat → forallb isdecimal year = true →
      False
  end.
Proof.
  unfold after_day. destruct s as [|w1 s1]; [by intros |].
  destruct (isspace w1 && _) eqn:Hc1.
  - apply andb_true_iff in Hc1 as [Hw1 [Hl1 Hm]%andb_true_iff].
    apply bool_decide_eq_true_1 in Hl1.
    destruct (drop 3 s1) as [|w2 s2] eqn:Hd.
    { intros w1' mon w2' year post [= -> ->] _ Hlen _ _ _ _.
      destruct (take_drop_exact 3 mon (w2' :: year ++ post) Hlen) as (_ & Hd' & _).
      congruence. }
    destruct (isspace w2 && _) eqn:Hc2.
    + apply andb_true_iff in Hc2 as [Hw2 [Hl2 Hy]%andb_true_iff].
      apply bool_decide_eq_true_1 in Hl2.
      exists w1, (take 3 s1), w2, (take 4 s2), (drop 4 s2).
      rewrite take_drop, <- Hd, take_drop, !length_take.
      split_and!; try done; lia.
    + intros w1' mon w2' year post [= -> ->] _ Hlen _ Hw2 Hleny Hy.
      destruct (take_drop_exact 3 mon (w2' :: year ++ post) Hlen) as (_ & Hd' & _).
      rewrite Hd' in Hd. injection Hd as Hw Hs. subst w2'.
      destruct (take_drop_exact 4 year post Hleny) as (Ht & _ & Hl).
      rewrite <- Hs, Hw2, Ht, Hl, Hy in Hc2. done.
  - intros w1' mon w2' year post [= -> ->] Hw1 Hlen Hm _ _ _.
    destruct (take_drop_exact 3 mon (w2' :: year ++ post) Hlen) as (Ht & _ & Hl).
    rewrite Hw1, Ht, Hl, Hm in Hc1. done.
Qed.

Lemma starts_with_date_inv (s day mon year : str) :
  starts_with_date s day mon year →
  ∃ w1 w2 post,
    isspace w1 = true ∧ length mon = 3%nat ∧ forallb month_letter mon = true
    ∧ isspace w2 = true ∧ length year = 4%nat ∧ forallb isdecimal year = true
    ∧ ((∃ c0, day = [c0] ∧ isdecimal c0 = true
              ∧ s = c0 :: w1 :: mon ++ w2 :: year ++ post)
       ∨ (∃ c0 c1, day = [c0; c1] ∧ isdecimal c0 = true ∧ isdecimal c1 = true
                   ∧ s = c0 :: c1 :: w1 :: mon ++ w2 :: year ++ post)).
Proof.
  intros (w1 & w2 & post & -> & Hlen & Hday & Hw1 & Hmon & Hm & Hw2 & Hyear & Hy).
  exists w1, w2, post. split_and!; try done.
  destruct day as [|c0 [|c1 [|c2 day]]]; simpl in Hlen, Hday.
  - lia.
  - left. exists c0. rewrite andb_true_r in Hday. done.
  - right. exists c0, c1. rewrite andb_true_r in Hday.
    apply andb_true_iff in Hday as [? ?]. done.
  - lia.
Qed.

(** A match at an offset is an occurrence there, with the longest day. *)
Lemma match_at_spec (pos : nat) (s : str) :
  match match_at DATE_PATTERN pos s with
  | Some mt =>
    ∃ day mon year w1 w2 post,
      s = day ++ w1 :: mon ++ w2 :: year ++ post
      ∧ date_shape day mon year w1 w2
      ∧ mt = {| start := pos; group0 := day ++ w1 :: mon ++ w2 :: year;
                groups := [day; mon; year] |}
      ∧ ∀ day' mon' year',
          starts_with_date s day' mon' year' → (length day' ≤ length day)%nat
  | None => ∀ day mon year, ¬ starts_with_date s day mon year
  end.
Proof.
  rewrite match_at_DATE_PATTERN.
  destruct s as [|c0 s1].
  { intros day mon year Hs.
    apply starts_with_date_inv in Hs
      as (? & ? & ? & _ & _ & _ & _ & _ & _ & [(? & _ & _ & ?) | (? & ? & _ & _ & _ & ?)]);
      done. }
  destruct (isdecimal c0) eqn:Hc0; cycle 1.
  { intros day mon year Hs.
    apply starts_with_date_inv in Hs
      as (? & ? & ? & _ & _ & _ & _ & _ & _ & [(? & _ & ? & ?) | (? & ? & _ & ? & _ & ?)]);
      simplify_eq; congruence. }
  (* one digit: the day is [c0] *)
  assert (match after_day pos [c0] s1 with
          | Some mt =>
            ∃ mon year w1 w2 post,
              c0 :: s1 = [c0] ++ w1 :: mon ++ w2 :: year ++ post
              ∧ date_shape [c0] mon year w1 w2
              ∧ mt = {| start := pos; group0 := [c0] ++ w1 :: mon ++ w2 :: year;
                        groups := [[c0]; mon; year] |}
          | None => ∀ mon year, ¬ starts_with_date (c0 :: s1) [c0] mon year
          end) as Hone.
  { pose proof (after_day_spec pos [c0] s1) as Hspec.
    destruct (after_day pos [c0] s1) as [mt |].
    - destruct Hspec as (w1 & mon & w2 & year & post & -> & ? & ? & ? & ? & ? & ? & ->).
      exists mon, year, w1, w2, post.
      unfold date_shape; simpl; rewrite Hc0; split_and!; first [done | lia].
    - intros mon year (w1 & w2 & post & [= ->] & _ & _ & ? & ? & ? & ? & ? & ?).
      by eapply Hspec. }
  destruct s1 as [|c1 s2].
  { simpl. intros day mon year Hs.
    apply starts_with_date_inv in Hs
      as (? & ? & ? & _ & _ & _ & _ & _ & _ & [(? & _ & _ & ?) | (? & ? & _ & _ & _ & ?)]);
      done. }
  (* two digits: the day is [c0; c1] *)
  assert (match (if isdecimal c1 then after_day pos [c0; c1] s2 else None) with
          | Some mt =>
            ∃ mon year w1 w2 post,
              c0 :: c1 :: s2 = [c0; c1] ++ w1 :: mon ++ w2 :: year ++ post
              ∧ date_shape [c0; c1] mon year w1 w2
              ∧ mt = {| start := pos; group0 := [c0; c1] ++ w1 :: mon ++ w2 :: year;
                        groups := [[c0; c1]; mon; year] |}
          | None => ∀ mon year, ¬ starts_with_date (c0 :: c1 :: s2) [c0; c1] mon year
          end) as Htwo.
  { destruct (isdecimal c1) eqn:Hc1.
    - pose proof (after_day_spec pos [c0; c1] s2) as Hspec.
      destruct (after_day pos [c0; c1] s2) as [mt |].
      + destruct Hspec as (w1 & mon & w2 & year & post & -> & ? & ? & ? & ? & ? & ? & ->).
        exists mon, year, w1, w2, post.
        unfold date_shape; simpl; rewrite Hc0, Hc1; split_and!; first [done | lia].
      + intros mon year (w1 & w2 & post & [= ->] & _ & _ & ? & ? & ? & ? & ? & ?).
        by eapply Hspec.
    - intros mon year (w1 & w2 & post & _ & _ & Hday & _).
      simpl in Hday. rewrite Hc1, andb_false_r in Hday. done. }
  destruct (if isdecimal c1 then after_day pos [c0; c1] s2 else None) as [mt |].
  - destruct Htwo as (mon & year & w1 & w2 & post & Hs & Hshape & ->).
    exists [c0; c1], mon, year, w1, w2, post. split_and!; try done.
    intros day' mon' year' (_ & _ & _ & _ & [? | ?] & _); simpl; lia.
  - destruct (after_day pos [c0] (c1 :: s2)) as [mt |].
    + destruct Hone as (mon & year & w1 & w2 & post & Hs & Hshape & ->).
      exists [c0], mon, year, w1, w2, post. split_and!; try done.
      intros day' mon' year' Hs'.
      pose proof Hs' as Hinv.
      apply starts_with_date_inv in Hinv
        as (? & ? & ? & _ & _ & _ & _ & _ & _ & [(? & -> & _) | (? & ? & -> & _ & _ & Heq)]).
      * simpl; lia.
      * injection Heq as <- <- _. by destruct (Htwo mon' year').
    + intros day mon year Hs'.
      pose proof Hs' as Hinv.
      apply starts_with_date_inv in Hinv
        as (? & ? & ? & _ & _ & _ & _ & _ & _ & [(? & -> & _ & Heq) | (? & ? & -> & _ & _ & Heq)]).
      * injection Heq as <- _. by destruct (Hone mon year).
      * injection Heq as <- <- _. by destruct (Htwo mon year).
Qed.

Lemma search_from_nil (r : regex) (pos : nat) :
  search_from r pos [] = match_at r pos [].
Proof. simpl. by destruct (match_at r pos []). Qed.

Lemma search_from_cons (r : regex) (pos : nat) (c : code) (s : str) :
  search_from r pos (c :: s)
  = match match_at r pos (c :: s) with
    | Some m => Some m
    | None => search_from r (S pos) s
    end.
Proof. reflexivity. Qed.

(** [search] finds the first occurrence, and fails only when there is none. *)
Lemma search_from_spec (s : str) (pos : nat) :
  match search_from DATE_PATTERN pos s with
  | Some mt =>
    ∃ j day mon year w1 w2 post,
      start mt = (pos + j)%nat
      ∧ drop j s = day ++ w1 :: mon ++ w2 :: year ++ post
      ∧ date_shape day mon year w1 w2
      ∧ group0 mt = day ++ w1 :: mon ++ w2 :: year
      ∧ groups mt = [day; mon; year]
      ∧ (∀ day' mon' year',
           starts_with_date (drop j s) day' mon' year' → (length day' ≤ length day)%nat)
      ∧ ∀ j' day' mon' year',
          (j' < j)%nat → ¬ starts_with_date (drop j' s) day' mon' year'
  | None => ∀ j day mon year, ¬ starts_with_date (drop j s) day mon year
  end.
Proof.
  revert pos; induction s as [|c s IH]; intros pos;
    [rewrite search_from_nil | rewrite search_from_cons].
  - pose proof (match_at_spec pos []) as Hm.
    destruct (match_at DATE_PATTERN pos []) as [mt |].
    + destruct Hm as (day & mon & year & w1 & w2 & post & Hs & Hshape & -> & Hgreedy).
      exists 0%nat, day, mon, year, w1, w2, post. rewrite drop_0, Nat.add_0_r.
      split_and!; try done. intros; lia.
    + intros j. by rewrite drop_nil.
  - pose proof (match_at_spec pos (c :: s)) as Hm.
    destruct (match_at DATE_PATTERN pos (c :: s)) as [mt |].
    + destruct Hm as (day & mon & year & w1 & w2 & post & Hs & Hshape & -> & Hgreedy).
      exists 0%nat, day, mon, year, w1, w2, post. rewrite drop_0, Nat.add_0_r.
      split_and!; try done. intros; lia.
    + specialize (IH (S pos)).
      destruct (search_from DATE_PATTERN (S pos) s) as [mt |].
      * destruct IH as (j & day & mon & year & w1 & w2 & post
                        & Hst & Hs & Hshape & Hg0 & Hgs & Hgreedy & Hfirst).
        exists (S j), day, mon, year, w1, w2, post.
        split_and!; try done; [lia |].
        intros [|j'] day' mon' year' Hlt.
        -- apply Hm.
        -- apply Hfirst. lia.
      * intros [|j]; [apply Hm | apply IH].
Qed.

Lemma search_Some (text : str) (mt : Match) :
  search DATE_PATTERN text = Some mt →
  ∃ day mon year w1 w2,
    first_occurrence text (start mt) day mon year
    ∧ groups mt = [day; mon; year]
    ∧ group0 mt = day ++ w1 :: mon ++ w2 :: year
    ∧ date_shape day mon year w1 w2
    ∧ ∃ post, drop (start mt) text = group0 mt ++ post.
Proof.
  intros Hsearch. pose proof (search_from_spec text 0) as Hs.
  unfold search in Hsearch. rewrite Hsearch in Hs.
  destruct Hs as (j & day & mon & year & w1 & w2 & post
                  & -> & Hs & Hshape & Hg0 & Hgs & Hgreedy & Hfirst).
  exists day, mon, year, w1, w2. simpl. split; [split |]; [| | split_and!].
  - by exists w1, w2, post.
  - intros j' day' mon' year' Hocc.
    destruct (decide (j' < j)%nat) as [Hlt | Hge]; [by destruct (Hfirst _ _ _ _ Hlt Hocc) |].
    destruct (decide (j' = j)) as [-> | Hne]; [| left; lia].
    right. split; [done | by eapply Hgreedy].
  - done.
  - done.
  - done.
  - exists post. rewrite Hs, Hg0. rewrite <- !app_assoc. simpl.
    by rewrite <- !app_assoc.
Qed.

Lemma search_None (text : str) :
  search DATE_PATTERN text = None →
  ∀ i day mon year, ¬ occurs_at text i day mon year.
Proof.
  intros Hsearch. pose proof (search_from_spec text 0) as Hs.
  unfold search in Hsearch. by rewrite Hsearch in Hs.
Qed.

Lemma first_occurrence_unique (text : str) (i i' : nat) (day mon year day' mon' year' : str) :
  first_occurrence text i day mon year →
  first_occurrence text i' day' mon' year' →
  i = i' ∧ day = day' ∧ mon = mon' ∧ year = year'.
Proof.
  intros [Hocc Hmin] [Hocc' Hmin'].
  destruct (Hmin _ _ _ _ Hocc') as [? | [-> Hle]];
    destruct (Hmin' _ _ _ _ Hocc) as [? | [? Hle']]; try lia.
  destruct Hocc as (w1 & w2 & post & Hs & _ & _ & _ & Hmon & _ & _ & Hyear & _).
  destruct Hocc' as (w1' & w2' & post' & Hs' & _ & _ & _ & Hmon' & _ & _ & Hyear' & _).
  rewrite Hs' in Hs.
  apply app_inj_1 in Hs as [-> Hs]; [| lia]. injection Hs as -> Hs.
  apply app_inj_1 in Hs as [-> Hs]; [| lia]. injection Hs as -> Hs.
  apply app_inj_1 in Hs as [-> Hs]; [| lia]. done.
Qed.

Lemma search_first_occurrence (text : str) (i : nat) (day mon year : str) :
  first_occurrence text i day mon year →
  ∃ mt, search DATE_PATTERN text = Some mt ∧ start mt = i
        ∧ groups mt = [day; mon; year].
Proof.
  intros Hfirst.
  destruct (search DATE_PATTERN text) as [mt |] eqn:Hsearch.
  - destruct (search_Some _ _ Hsearch) as (day' & mon' & year' & ? & ? & Hfirst' & Hgs & _).
    destruct (first_occurrence_unique _ _ _ _ _ _ _ _ _ Hfirst Hfirst') as (-> & -> & -> & ->).
    by exists mt.
  - destruct Hfirst as [Hocc _]. by destruct (search_None _ Hsearch _ _ _ _ Hocc).
Qed.

(** The table has twelve entries, each a two-character number. *)
Lemma MONTHS_lookup (k month : str) :
  MONTHS !! k = Some month → (k, month) ∈ MONTHS_items ∧ length month = 2%nat.
Proof.
  intros Hk. apply elem_of_list_to_map_2 in Hk. split; [done |].
  unfold MONTHS_items in Hk. rewrite !elem_of_cons, elem_of_nil in Hk.
  destruct Hk as [Hk|[Hk|[Hk|[Hk|[Hk|[Hk|[Hk|[Hk|[Hk|[Hk|[Hk|[Hk|[]]]]]]]]]]]]];
    injection Hk as _ ->; reflexivity.
Qed.

Lemma zfill_2_spec (s : str) :
  (length s = 2%nat → zfill 2 s = s)
  ∧ (∀ c, s = [c] → c ≠ 43 → c ≠ 45 → zfill 2 s = [48; c]).
Proof.
  unfold zfill. split.
  - intros Hlen. by rewrite decide_True by lia.
  - intros c -> H43 H45. simpl.
    by rewrite (proj2 (N.eqb_neq c 43) H43), (proj2 (N.eqb_neq c 45) H45).
Qed.

Lemma extract_date_first_occurrence (text : str) (i : nat) (day mon year : str) :
  first_occurrence text i day mon year →
  extract_date text = Return (date_of_groups day mon year).
Proof.
  intros Hfirst.
  destruct (search_first_occurrence _ _ _ _ _ Hfirst) as (mt & Hsearch & _ & Hgs).
  unfold extract_date, date_of_groups. rewrite Hsearch, Hgs.
  destruct (MONTHS !! lower (take 3 mon)) as [month |] eqn:Hmonth; [| done].
  destruct (MONTHS_lookup _ _ Hmonth) as [_ Hlen].
  destruct month as [|a month]; [done |].
  by rewrite (proj1 (zfill_2_spec (a :: month)) Hlen).
Qed.

Lemma extract_date_no_occurrence (text : str) :
  (∀ i day mon year, ¬ occurs_at text i day mon year) →
  extract_date text = Return None.
Proof.
  intros Hnone. unfold extract_date.
  destruct (search DATE_PATTERN text) as [mt |] eqn:Hsearch; [| done].
  destruct (search_Some _ _ Hsearch) as (day & mon & year & ? & ? & [Hocc _] & _).
  by destruct (Hnone _ _ _ _ Hocc).
Qed.

Lemma extract_date_returns (text : str) : ∃ r, extract_date text = Return r.
Proof.
  destruct (search DATE_PATTERN text) as [mt |] eqn:Hsearch.
  - destruct (search_Some _ _ Hsearch) as (day & mon & year & ? & ? & Hfirst & _).
    rewrite (extract_date_first_occurrence _ _ _ _ _ Hfirst). by eexists.
  - exists None. unfold extract_date. by rewrite Hsearch.
Qed.

(** An occurrence that ends inside a prefix of the text does not depend on
    what follows the prefix. *)
Lemma occurs_at_prefix (p q q' : str) (j : nat) (day mon year : str) :
  occurs_at (p ++ q) j day mon year →
  (j + length day + 9 ≤ length p)%nat →
  occurs_at (p ++ q') j day mon year.
Proof.
  intros (w1 & w2 & post & Hs & Hshape) Hlen.
  pose proof Hshape as (_ & _ & _ & Hmon & _ & _ & Hyear & _).
  rewrite drop_app_le in Hs by lia.
  assert (length (day ++ w1 :: mon ++ w2 :: year) = length day + 9)%nat as HlenM.
  { rewrite length_app; simpl; rewrite length_app; simpl; lia. }
  assert (∃ r, drop j p = (day ++ w1 :: mon ++ w2 :: year) ++ r) as [r Hr].
  { replace (day ++ w1 :: mon ++ w2 :: year ++ post)
      with ((day ++ w1 :: mon ++ w2 :: year) ++ post) in Hs
      by (rewrite <- !app_assoc; simpl; by rewrite <- !app_assoc).
    apply app_eq_app in Hs as [l [[Hp _] | [HM _]]].
    - by exists l.
    - exists []. rewrite app_nil_r.
      assert (length l = 0)%nat as Hl.
      { apply (f_equal length) in HM. rewrite HlenM, length_app, length_drop in HM. lia. }
      destruct l; [| done]. by rewrite app_nil_r in HM. }
  exists w1, w2, (r ++ q'). split; [| done].
  rewrite drop_app_le by lia. rewrite Hr.
  rewrite <- !app_assoc; simpl; by rewrite <- !app_assoc.
Qed.

(** The first occurrence stays the first one whatever follows it, when no
    character is both a digit and white space. *)
Lemma first_occurrence_ignores_rest
    (pre day mon year : str) (w1 w2 : code) (post post' : str) :
  (∀ c, isdecimal c = true → isspace c = false) →
  date_shape day mon year w1 w2 →
  first_occurrence (pre ++ (day ++ w1 :: mon ++ w2 :: year) ++ post)
    (length pre) day mon year →
  first_occurrence (pre ++ (day ++ w1 :: mon ++ w2 :: year) ++ post')
    (length pre) day mon year.
Proof.
  intros Hdisj Hshape [Hocc Hmin].
  pose proof Hshape as (Hday & Hdec & Hw1 & Hmon & _ & _ & Hyear & _).
  assert (length (pre ++ day ++ w1 :: mon ++ w2 :: year)
          = length pre + length day + 9)%nat as HlenP.
  { rewrite !length_app; simpl; rewrite length_app; simpl; lia. }
  rewrite (app_assoc pre _ post) in Hocc, Hmin. rewrite (app_assoc pre _ post').
  split.
  - eapply occurs_at_prefix; [exact Hocc | lia].
  - intros j day' mon' year' Hocc'.
    pose proof Hocc' as (w1' & w2' & p' & Hs' & Hday' & Hdec' & _).
    destruct (decide (length pre < j)%nat) as [? | Hge]; [by left |].
    destruct (decide (j = length pre)) as [-> | Hne].
    + right. split; [done |].
      destruct Hday as [Hd1 | Hd2]; [| lia].
      destruct Hday' as [? | Hd2']; [lia |]. exfalso.
      rewrite <- !app_assoc in Hs'. rewrite drop_app_length in Hs'.
      destruct day as [|c0 [|? ?]]; try done.
      destruct day' as [|c0' [|c1' [|? ?]]]; try done.
      simpl in Hs', Hdec'. injection Hs' as _ -> _.
      rewrite (Hdisj c1') in Hw1; [done |].
      by apply andb_true_iff in Hdec' as [_ [? _]%andb_true_iff].
    + exfalso.
      assert (occurs_at ((pre ++ day ++ w1 :: mon ++ w2 :: year) ++ post) j day' mon' year')
        as Hold by (eapply occurs_at_prefix; [exact Hocc' | lia]).
      destruct (Hmin _ _ _ _ Hold) as [? | [? _]]; lia.
Qed.

Lemma search_start_minimal (text : str) (mt : Match) :
  search DATE_PATTERN text = Some mt →
  ∀ j day mon year, (j < start mt)%nat → ¬ occurs_at text j day mon year.
Proof.
  intros Hsearch j day mon year Hlt Hocc.
  destruct (search_Some _ _ Hsearch) as (? & ? & ? & ? & ? & [_ Hmin] & _).
  destruct (Hmin _ _ _ _ Hocc) as [? | [? _]]; lia.
Qed.

(** C2, amended. When the first occurrence of the pattern in a text has
    a month token whose first three characters, lowercased, are a key of
    the twelve-entry table, [extract_date] returns the year, the table's
    two-digit month and the day padded with a zero to two digits, joined
    by periods. In particular a text containing ["15 янв 2024"] with no
    occurrence of the pattern starting before it yields ["2024.01.15"]. *)
Theorem extract_date_normalizes
    (Hdigits : forallb isdecimal (u "152024") = true)
    (Hsigns : isdecimal 43 = false ∧ isdecimal 45 = false)
    (Hspace : isspace 32 = true)
    (Hletters : forallb month_letter (u "янв") = true)
    (Hlower : lower (u "янв") = u "янв") :
  (∀ text i day mon year month,
     first_occurrence text i day mon year →
     MONTHS !! lower (take 3 mon) = Some month →
     extract_date text
       = Return (Some (year ++ u "." ++ month ++ u "." ++ zfill 2 day))
     ∧ length year = 4%nat ∧ length month = 2%nat ∧ length (zfill 2 day) = 2%nat
     ∧ (length day = 2%nat → zfill 2 day = day)
     ∧ (length day = 1%nat → zfill 2 day = 48 :: day))
  ∧ (∀ pre post,
       (∀ j day mon year,
          (j < length pre)%nat →
          ¬ occurs_at (pre ++ u "15 янв 2024" ++ post) j day mon year) →
       extract_date (pre ++ u "15 янв 2024" ++ post) = Return (Some (u "2024.01.15"))).
Proof.
  split.
  - intros text i day mon year month Hfirst Hmonth.
    rewrite (extract_date_first_occurrence _ _ _ _ _ Hfirst).
    unfold date_of_groups. rewrite Hmonth.
    destruct Hfirst as [(w1 & w2 & post & _ & Hday & Hdec & _ & _ & _ & _ & Hyear & _) _].
    destruct (MONTHS_lookup _ _ Hmonth) as [_ Hlen].
    assert (length day = 1%nat → zfill 2 day = 48 :: day) as Hone.
    { intros Hd. destruct day as [|c [|? ?]]; try done.
      simpl in Hdec. rewrite andb_true_r in Hdec. destruct Hsigns as [H43 H45].
      apply (zfill_2_spec [c]); [done | |]; intros ->; congruence. }
    split_and!; try done.
    + destruct Hday as [Hd | Hd].
      * by rewrite (Hone Hd); simpl; rewrite Hd.
      * by rewrite (proj1 (zfill_2_spec day) Hd).
    + apply zfill_2_spec.
  - intros pre post Hbefore.
    assert (first_occurrence (pre ++ u "15 янв 2024" ++ post) (length pre)
              (u "15") (u "янв") (u "2024")) as Hfirst.
    { split.
      - exists 32, 32, post. rewrite drop_app_length. split; [done |].
        apply andb_true_iff in Hdigits as [H1 [H5 Hy]%andb_true_iff].
        unfold date_shape. simpl in *. rewrite H1, H5. split_and!; try done.
        by right.
      - intros j day' mon' year' Hocc.
        destruct (decide (j < length pre)%nat) as [Hlt | Hge];
          [by destruct (Hbefore _ _ _ _ Hlt Hocc) |].
        destruct (decide (j = length pre)) as [-> | Hne]; [| left; lia].
        right. split; [done |].
        destruct Hocc as (_ & _ & _ & _ & [-> | ->] & _); simpl; lia. }
    rewrite (extract_date_first_occurrence _ _ _ _ _ Hfirst).
    unfold date_of_groups.
    change (take 3 (u "янв")) with (u "янв"). rewrite Hlower.
    reflexivity.
Qed.

(** C3. [extract_date] never raises. It returns [None] when the pattern
    occurs nowhere in the text, and when the month token of the first
    occurrence is not a key of the table. Its result is a function of
    the first occurrence alone, and does not change when the text after
    the first match is replaced by any other text. *)
Theorem extract_date_no_date
    (Hdisjoint : ∀ c, isdecimal c = true → isspace c = false) :
  (∀ text, ∃ r, extract_date text = Return r)
  ∧ (∀ text,
       (∀ i day mon year, ¬ occurs_at text i day mon year) →
       extract_date text = Return None)
  ∧ (∀ text i day mon year,
       first_occurrence text i day mon year →
       MONTHS !! lower (take 3 mon) = None →
       extract_date text = Return None)
  ∧ (∀ text i day mon year,
       first_occurrence text i day mon year →
       extract_date text = Return (date_of_groups day mon year))
  ∧ (∀ pre matched post post' mt,
       search DATE_PATTERN (pre ++ matched ++ post) = Some mt →
       start mt = length pre → group0 mt = matched →
       extract_date (pre ++ matched ++ post')
       = extract_date (pre ++ matched ++ post)).
Proof.
  split_and!.
  - apply extract_date_returns.
  - apply extract_date_no_occurrence.
  - intros text i day mon year Hfirst Hmonth.
    rewrite (extract_date_first_occurrence _ _ _ _ _ Hfirst).
    unfold date_of_groups. by rewrite Hmonth.
  - apply extract_date_first_occurrence.
  - intros pre matched post post' mt Hsearch Hstart <-.
    destruct (search_Some _ _ Hsearch)
      as (day & mon & year & w1 & w2 & Hfirst & _ & Hg0 & Hshape & _).
    rewrite Hstart, Hg0 in Hfirst. rewrite Hg0.
    rewrite (extract_date_first_occurrence _ _ _ _ _ Hfirst).
    apply (extract_date_first_occurrence _ (length pre)).
    by eapply first_occurrence_ignores_rest.
Qed.

End DateExtractor.

Lemma extract_date_normalizes_witness :
  @extract_date ucd (u "Иван 15 янв 2024 в 10:30") = Return (Some (u "2024.01.15")).
Proof.
  refine (proj2 (@extract_date_normalizes ucd eq_refl (conj eq_refl eq_refl)
                   eq_refl eq_refl eq_refl) (u "Иван ") (u " в 10:30") _).
  apply (@search_start_minimal ucd _
           {| start := 5; group0 := u "15 янв 2024";
              groups := [u "15"; u "янв"; u "2024"] |}).
  vm_compute. reflexivity.
Defined.

(** C2, as stated, fails: a text can contain ["15 янв 2024"] after an
    earlier date, and the earlier date is returned. *)
Lemma extract_date_earlier_match :
  (∃ pre post, u "1 фев 2023, 15 янв 2024" = pre ++ u "15 янв 2024" ++ post)
  ∧ @extract_date ucd (u "1 фев 2023, 15 янв 2024") = Return (Some (u "2023.02.01"))
  ∧ u "2023.02.01" ≠ u "2024.01.15".
Proof.
  split; [by exists (u "1 фев 2023, "), [] |]. split; [by vm_compute | by vm_compute].
Qed.

(** In the table [ucd] no digit is white space. *)
Lemma ucd_digits_not_space (c : code) :
  @isdecimal ucd c = true → @isspace ucd c = false.
Proof.
  unfold isdecimal, isspace, decimal, ucd, ucd_decimal, ucd_isspace, in_range.
  intros Hd.
  destruct (_ && _) eqn:H1 in Hd;
    [| destruct (_ && _) eqn:H2 in Hd; [| destruct (_ && _) eqn:H3 in Hd; [| done]]];
    lia.
Qed.

Lemma extract_date_no_date_witness :
  @extract_date ucd ([] ++ u "5 мая 2021" ++ u " и 15 янв 2024")
  = @extract_date ucd ([] ++ u "5 мая 2021" ++ u ", потом 1 фев 2023").
Proof.
  apply (proj2 (proj2 (proj2 (proj2 (@extract_date_no_date ucd ucd_digits_not_space))))
           [] (u "5 мая 2021") (u ", потом 1 фев 2023") (u " и 15 янв 2024")
           {| start := 0; group0 := u "5 мая 2021";
              groups := [u "5"; u "мая"; u "2021"] |}).
  - vm_compute. reflexivity.
  - reflexivity.
  - reflexivity.
Defined.

(** ** Date keys and their order *)

Lemma digits_value_bound (s : str) :
  Forall ascii_digit s → digits_value s < 10 ^ N.of_nat (length s).
Proof.
  induction 1 as [|c s [Hlo Hhi] _ IH]; simpl; [lia |].
  rewrite Nat2N.inj_succ, N.pow_succ_r'. nia.
Qed.

Lemma str_compare_digits (a b : str) :
  length a = length b → Forall ascii_digit a → Forall ascii_digit b →
  str_compare a b = (digits_value a ?= digits_value b).
Proof.
  revert b; induction a as [|x a IH]; intros [|y b] Hlen Ha Hb; simplify_eq/=.
  - done.
  - apply Forall_cons in Ha as [[? ?] Ha]. apply Forall_cons in Hb as [[? ?] Hb].
    pose proof (digits_value_bound a Ha). pose proof (digits_value_bound b Hb).
    rewrite Hlen in *.
    destruct (N.compare_spec x y) as [-> | Hlt | Hgt].
    + rewrite (IH b) by done.
      destruct (N.compare_spec (digits_value a) (digits_value b));
        symmetry; [apply N.compare_eq_iff | apply N.compare_lt_iff | apply N.compare_gt_iff]; lia.
    + symmetry. apply N.compare_lt_iff. nia.
    + symmetry. apply N.compare_gt_iff. nia.
Qed.

Lemma str_compare_app (a a' b b' : str) :
  length a = length a' →
  str_compare (a ++ b) (a' ++ b')
  = match str_compare a a' with Eq => str_compare b b' | c => c end.
Proof.
  revert a'; induction a as [|x a IH]; intros [|y a'] Hlen; simplify_eq/=; [done |].
  destruct (x ?= y); [by apply IH | done | done].
Qed.

Lemma split_no_sep (sep : code) (s : str) : sep ∉ s → split sep s = [s].
Proof.
  induction s as [|c s IH]; [done |]. rewrite not_elem_of_cons. intros [Hc Hs]. simpl.
  rewrite (proj2 (N.eqb_neq c sep)) by done. by rewrite IH.
Qed.

Lemma split_app_sep (sep : code) (a b : str) :
  sep ∉ a → split sep (a ++ sep :: b) = a :: split sep b.
Proof.
  induction a as [|c a IH]; simpl.
  - intros _. by rewrite N.eqb_refl.
  - rewrite not_elem_of_cons. intros [Hc Ha].
    rewrite (proj2 (N.eqb_neq c sep)) by done. by rewrite IH.
Qed.

Lemma zfill_2_length (s : str) :
  (length s = 1 ∨ length s = 2)%nat → length (zfill 2 s) = 2%nat.
Proof.
  intros [Hs | Hs]; unfold zfill.
  - destruct s as [|c [|? ?]]; try done. simpl. by destruct (_ || _).
  - by rewrite decide_True by lia.
Qed.

Lemma MONTHS_items_digits (k month : str) :
  (k, month) ∈ MONTHS_items → Forall ascii_digit month ∧ length month = 2%nat.
Proof.
  unfold MONTHS_items. rewrite !elem_of_cons, elem_of_nil.
  intros [Hk|[Hk|[Hk|[Hk|[Hk|[Hk|[Hk|[Hk|[Hk|[Hk|[Hk|[Hk|[]]]]]]]]]]]]];
    injection Hk as _ ->; (split; [| done]);
    refine (bool_decide_unpack _ _); vm_compute; exact I.
Qed.

Section DateKeys.
Context `{Unicode}.

(** What a returned key is made of. *)
Lemma extract_date_Some_inv (text key : str) :
  extract_date text = Return (Some key) →
  ∃ day year month k,
    key = year ++ 46 :: month ++ 46 :: zfill 2 day
    ∧ length year = 4%nat ∧ forallb isdecimal year = true
    ∧ (length day = 1 ∨ length day = 2)%nat ∧ forallb isdecimal day = true
    ∧ (k, month) ∈ MONTHS_items.
Proof.
  intros Hkey.
  destruct (search DATE_PATTERN text) as [mt |] eqn:Hsearch;
    [| unfold extract_date in Hkey; by rewrite Hsearch in Hkey].
  destruct (search_Some _ _ Hsearch)
    as (day & mon & year & w1 & w2 & Hfirst & _ & _ & Hshape & _).
  rewrite (extract_date_first_occurrence _ _ _ _ _ Hfirst) in Hkey.
  unfold date_of_groups in Hkey.
  destruct (MONTHS !! lower (take 3 mon)) as [month |] eqn:Hmonth; [| done].
  injection Hkey as <-.
  destruct Hshape as (? & ? & _ & _ & _ & _ & ? & ?).
  exists day, year, month, (lower (take 3 mon)).
  split_and!; try done. by apply MONTHS_lookup.
Qed.

Hypothesis Hlatin :
  ∀ c, c < 128 →
       decimal c = if (48 <=? c) && (c <=? 57) then Some (c - 48) else None.

Lemma decimal_ascii_digit (c : code) : ascii_digit c → decimal c = Some (c - 48).
Proof.
  intros [? ?]. rewrite Hlatin by lia.
  by replace ((48 <=? c) && (c <=? 57)) with true by lia.
Qed.

Lemma int_from_digits (s : str) (acc : N) :
  Forall ascii_digit s →
  int_from acc s = Some (acc * 10 ^ N.of_nat (length s) + digits_value s).
Proof.
  intros Hs; revert acc; induction Hs as [|c s Hc _ IH]; intros acc; simpl.
  - f_equal. lia.
  - rewrite (decimal_ascii_digit c Hc), IH. f_equal.
    rewrite Nat2N.inj_succ, N.pow_succ_r'. lia.
Qed.

Lemma int_digits (s : str) :
  s ≠ [] → Forall ascii_digit s → int s = Some (digits_value s).
Proof.
  intros Hne Hs. destruct s as [|c s]; [done |].
  unfold int. rewrite (int_from_digits _ 0 Hs). f_equal; lia.
Qed.

(** In a key made of periods and ASCII digits, the digits that the
    pattern matched are ASCII digits. *)
Lemma decimal_in_ascii_date (s : str) :
  Forall (fun c => c = 46 ∨ ascii_digit c) s → forallb isdecimal s = true →
  Forall ascii_digit s.
Proof.
  induction 1 as [|c s Hc _ IH]; simpl; [done |].
  intros [Hd Hs]%andb_true_iff. constructor; [| by apply IH].
  destruct Hc as [-> | ?]; [| done].
  unfold isdecimal in Hd. rewrite Hlatin in Hd by lia. done.
Qed.

Lemma ascii_date_parts (key : str) (text : str) :
  extract_date text = Return (Some key) → ascii_date key →
  ∃ y m d,
    key = y ++ 46 :: m ++ 46 :: d
    ∧ length y = 4%nat ∧ length m = 2%nat ∧ length d = 2%nat
    ∧ Forall ascii_digit y ∧ Forall ascii_digit m ∧ Forall ascii_digit d.
Proof.
  intros Hkey Hascii.
  destruct (extract_date_Some_inv _ _ Hkey)
    as (day & year & month & k & -> & Hyear & Hydec & Hday & Hddec & Hmonth).
  destruct (MONTHS_items_digits _ _ Hmonth) as [Hmdig Hmlen].
  unfold ascii_date in Hascii.
  apply Forall_app in Hascii as [Hy Hrest].
  apply Forall_cons in Hrest as [_ Hrest].
  apply Forall_app in Hrest as [_ Hrest].
  apply Forall_cons in Hrest as [_ Hd].
  exists year, month, (zfill 2 day).
  split_and!; try done.
  - by apply zfill_2_length.
  - by apply decimal_in_ascii_date.
  - destruct Hday as [Hlen | Hlen].
    + destruct day as [|c [|? ?]]; try done.
      unfold zfill in *. simpl in *. rewrite andb_true_r in Hddec.
      destruct ((c =? 43) || (c =? 45)) eqn:Hsign.
      * apply Forall_cons in Hd as [[-> | [? ?]] _]; [done | lia].
      * apply Forall_cons in Hd as [? [Hc _]%Forall_cons].
        apply Forall_cons; split; [unfold ascii_digit; lia |].
        apply Forall_cons; split; [| constructor].
        destruct Hc as [-> | ?]; [| done].
        unfold isdecimal in Hddec. rewrite Hlatin in Hddec by lia. done.
    + rewrite (proj1 (zfill_2_spec day) Hlen) in *.
      by apply decimal_in_ascii_date.
Qed.

Lemma date_triple_parts (y m d : str) :
  y ≠ [] → m ≠ [] → d ≠ [] →
  Forall ascii_digit y → Forall ascii_digit m → Forall ascii_digit d →
  date_triple (y ++ 46 :: m ++ 46 :: d)
  = Some (digits_value y, digits_value m, digits_value d).
Proof.
  intros ? ? ? Hy Hm Hd.
  assert (∀ s, Forall ascii_digit s → 46 ∉ s) as Hnodot.
  { intros s Hs Hin. rewrite Forall_forall in Hs. destruct (Hs _ Hin). lia. }
  unfold date_triple.
  rewrite split_app_sep, split_app_sep, split_no_sep by auto.
  by rewrite !int_digits.
Qed.

End DateKeys.

(** C9, amended. For two keys that [extract_date] returns and that are
    written with periods and the digits [0]-[9] only, comparing the keys
    as strings gives the same answer as comparing their (year, month,
    day) triples. *)
Theorem date_keys_sort_chronologically `{Unicode}
    (Hlatin : ∀ c, c < 128 →
       decimal c = if (48 <=? c) && (c <=? 57) then Some (c - 48) else None)
    (text1 text2 key1 key2 : str) :
  extract_date text1 = Return (Some key1) →
  extract_date text2 = Return (Some key2) →
  ascii_date key1 → ascii_date key2 →
  ∃ v1 v2,
    date_triple key1 = Some v1 ∧ date_triple key2 = Some v2
    ∧ str_compare key1 key2 = triple_compare v1 v2.
Proof.
  intros Hk1 Hk2 Ha1 Ha2.
  destruct (ascii_date_parts Hlatin _ _ Hk1 Ha1)
    as (y & m & d & -> & Hy & Hm & Hd & Hyd & Hmd & Hdd).
  destruct (ascii_date_parts Hlatin _ _ Hk2 Ha2)
    as (y' & m' & d' & -> & Hy' & Hm' & Hd' & Hyd' & Hmd' & Hdd').
  assert (∀ s : str, length s ≠ 0%nat → s ≠ []) as Hne by (by intros [|? ?]).
  exists (digits_value y, digits_value m, digits_value d),
         (digits_value y', digits_value m', digits_value d').
  rewrite !(date_triple_parts Hlatin) by (done || (apply Hne; lia)).
  split_and!; [done | done |].
  rewrite str_compare_app by lia. simpl.
  rewrite str_compare_app by lia. simpl.
  rewrite !str_compare_digits by (done || lia).
  reflexivity.
Qed.

Lemma ucd_latin (c : code) :
  c < 128 →
  @decimal ucd c = if (48 <=? c) && (c <=? 57) then Some (c - 48) else None.
Proof.
  intros Hc. unfold decimal, ucd, ucd_decimal, in_range.
  destruct ((48 <=? c) && (c <=? 57)); [done |].
  replace ((1632 <=? c) && (c <=? 1641)) with false by lia.
  by replace ((1776 <=? c) && (c <=? 1785)) with false by lia.
Qed.

Lemma date_keys_sort_chronologically_witness :
  ∃ v1 v2,
    @date_triple ucd (u "2024.01.15") = Some v1
    ∧ @date_triple ucd (u "2023.02.01") = Some v2
    ∧ str_compare (u "2024.01.15") (u "2023.02.01") = triple_compare v1 v2.
Proof.
  apply (@date_keys_sort_chronologically ucd ucd_latin
           (u "15 янв 2024") (u "1 фев 2023")).
  - vm_compute. reflexivity.
  - vm_compute. reflexivity.
  - refine (bool_decide_unpack _ _). vm_compute. exact I.
  - refine (bool_decide_unpack _ _). vm_compute. exact I.
Defined.

(** C9, as stated, fails: [\d] also matches the decimal digits of other
    scripts, and a key written with them sorts after every key written
    with [0]-[9], whatever its date. *)
Lemma date_keys_unicode_digits :
  @extract_date ucd (u "١٥ янв ٢٠٢٤") = Return (Some (u "٢٠٢٤.01.١٥"))
  ∧ @extract_date ucd (u "15 янв 2025") = Return (Some (u "2025.01.15"))
  ∧ @date_triple ucd (u "٢٠٢٤.01.١٥") = Some (2024, 1, 15)
  ∧ @date_triple ucd (u "2025.01.15") = Some (2025, 1, 15)
  ∧ triple_compare (2024, 1, 15) (2025, 1, 15) = Lt
  ∧ str_compare (u "٢٠٢٤.01.١٥") (u "2025.01.15") = Gt.
Proof. vm_compute. repeat split. Qed.

(** ** Methods: how they run *)

Lemma run_bind {A B} (m : M A) (k : A → M B) (w : world) :
  (m ≫= k) w
  = match m w with
    | (w', Return a) => k a w'
    | (w', Raise e) => (w', Raise e)
    end.
Proof. reflexivity. Qed.

Lemma run_ret {A} (a : A) (w : world) : (mret a : M A) w = (w, Return a).
Proof. reflexivity. Qed.

Section Preservation.
Context (P : world → Prop).

Lemma preserves_ret {A} (a : A) : preserves P (mret a : M A).
Proof. by intros w Hw. Qed.

Lemma preserves_lift {A} (r : py A) : preserves P (lift r).
Proof. by intros w Hw. Qed.

Lemma preserves_gets {A} (f : world → A) : preserves P (gets f).
Proof. by intros w Hw. Qed.

Lemma preserves_bind {A B} (m : M A) (k : A → M B) :
  preserves P m → (∀ a, preserves P (k a)) → preserves P (m ≫= k).
Proof.
  intros Hm Hk w Hw. rewrite run_bind. specialize (Hm w Hw).
  destruct (m w) as [w' [a | e]]; [by apply Hk | done].
Qed.

Lemma preserves_for_each {A} (l : list A) (body : A → M unit) :
  (∀ x, preserves P (body x)) → preserves P (for_each l body).
Proof.
  intros Hbody. induction l as [|x l IH]; simpl.
  - apply preserves_ret.
  - apply preserves_bind; [apply Hbody | by intros _].
Qed.

Lemma preserves_try_except_finally (body : M unit) (handler : exception → M unit)
    (final : M unit) :
  preserves P body → (∀ e, preserves P (handler e)) → preserves P final →
  preserves P (try_except_finally body handler final).
Proof.
  intros Hbody Hhandler Hfinal w Hw. unfold try_except_finally.
  specialize (Hbody w Hw). destruct (body w) as [w1 [a | e]]; simpl in Hbody.
  - specialize (Hfinal w1 Hbody). by destruct (final w1) as [w2 [? | ?]].
  - destruct (is_Exception e).
    + specialize (Hhandler e w1 Hbody). destruct (handler e w1) as [w2 r].
      specialize (Hfinal w2 Hhandler). by destruct (final w2) as [w3 [? | ?]].
    + specialize (Hfinal w1 Hbody). by destruct (final w1) as [w2 [? | ?]].
Qed.

End Preservation.

(** ** Every bucket link is in the global set *)

Lemma elem_of_sorted (href : str) (links : list str) : href ∈ sorted links ↔ href ∈ links.
Proof.
  unfold sorted. by rewrite <- (StrSort.Permuted_sort links).
Qed.

Lemma links_registered_add_link (href : str) (s : state) :
  links_registered s → links_registered (add_link href s).
Proof.
  intros Hs date links h Hlinks Hh. simpl in *.
  apply elem_of_union. right. by eapply Hs.
Qed.

Lemma links_registered_append_photo (date_key href : str) (s : state) :
  links_registered s → href ∈ all_links s →
  links_registered (append_photo date_key href s).
Proof.
  intros Hs Hhref date links h Hlinks Hh. simpl in *.
  destruct (decide (date_key = date)) as [-> | Hne].
  - rewrite lookup_insert_eq in Hlinks. injection Hlinks as <-.
    apply elem_of_app in Hh as [Hh | Hh%list_elem_of_singleton]; [| by subst].
    destruct (photos_by_date s !! date) as [old |] eqn:Hold; simpl in Hh.
    + by eapply Hs.
    + by apply elem_of_nil in Hh.
  - rewrite lookup_insert_ne in Hlinks by done. by eapply Hs.
Qed.

Lemma links_registered_sort_bucket (date : str) (s : state) :
  links_registered s → links_registered (sort_bucket date s).
Proof.
  intros Hs d links h Hlinks Hh. simpl in *.
  destruct (decide (date = d)) as [-> | Hne].
  - rewrite lookup_alter_eq in Hlinks.
    destruct (photos_by_date s !! d) as [old |] eqn:Hold; simplify_eq/=.
    apply (proj1 (elem_of_sorted h old)) in Hh. by eapply Hs.
  - rewrite lookup_alter_ne in Hlinks by done. by eapply Hs.
Qed.

Lemma preserves_logger (r : log_record) : preserves always_registered (logger r).
Proof. by intros w Hw. Qed.

Lemma preserves_pbar_update (n : nat) : preserves always_registered (pbar_update n).
Proof. by intros w Hw. Qed.

Lemma preserves_mutate (f : state → state) :
  (∀ s, links_registered s → links_registered (f s)) →
  preserves always_registered (mutate f).
Proof.
  intros Hf w [Hself Hhist]. split; simpl.
  - by apply Hf.
  - constructor; [by apply Hf | done].
Qed.

Lemma preserves_append_photo (date_key href : str) :
  preserves (registered_with href) (mutate (append_photo date_key href)).
Proof.
  intros w [[Hself Hhist] Hhref]. split; [split |]; simpl.
  - by apply links_registered_append_photo.
  - constructor; [by apply links_registered_append_photo | done].
  - done.
Qed.

Section Invariant.
Context `{Unicode} (env : Env) (config : Config).

Lemma preserves_process_link (link_tag : Node) :
  preserves always_registered (process_link config link_tag).
Proof.
  unfold process_link.
  apply preserves_bind; [apply preserves_lift |]. intros href.
  apply preserves_bind; [apply preserves_lift |]. intros is_image.
  destruct is_image; simpl; [| apply preserves_ret].
  intros w Hw. rewrite run_bind.
  assert (registered_with (strip href) (mutate (add_link (strip href)) w).1) as Hreg.
  { split; [by apply preserves_mutate; [apply links_registered_add_link |] |].
    simpl. apply elem_of_union. left. by apply elem_of_singleton. }
  change (mutate (add_link (strip href)) w)
    with ((mutate (add_link (strip href)) w).1, @Return unit tt).
  revert Hreg. generalize ((mutate (add_link (strip href)) w).1). intros w1 Hreg.
  assert (∀ m : M unit, preserves (registered_with (strip href)) m →
                        always_registered (m w1).1) as Hrest
    by (intros m Hm; by apply Hm).
  apply Hrest.
  destruct (find_parent_div _ link_tag) as [message |]; [| apply preserves_ret].
  destruct (find_div _ message) as [header |]; [| apply preserves_ret].
  apply preserves_bind; [apply preserves_lift |]. intros [[|c k] |].
  - apply preserves_ret.
  - apply preserves_append_photo.
  - apply preserves_ret.
Qed.

Lemma preserves_try_encodings (file_path : str) (encodings : list str) :
  preserves always_registered (try_encodings env file_path encodings).
Proof.
  induction encodings as [|encoding rest IH]; simpl.
  - apply preserves_bind; [apply preserves_logger | intros _; apply preserves_ret].
  - destruct (open_soup env file_path encoding) as [soup | e]; [apply preserves_ret |].
    destruct e; try apply preserves_lift;
      (apply preserves_bind; [apply preserves_logger | by intros _]).
Qed.

Lemma preserves_process_html_file (file_path : str) :
  preserves always_registered (process_html_file env config file_path).
Proof.
  unfold process_html_file, read_file_with_encoding.
  apply preserves_bind; [apply preserves_try_encodings |]. intros [soup |].
  - apply preserves_for_each. apply preserves_process_link.
  - apply preserves_ret.
Qed.

Lemma preserves_find_html_files :
  preserves always_registered (find_html_files env config).
Proof.
  unfold find_html_files. destruct (glob env (input_dir config)) as [files | e].
  - apply preserves_bind; [apply preserves_logger | intros _; apply preserves_ret].
  - destruct (is_Exception e); [| apply preserves_lift].
    apply preserves_bind; [apply preserves_logger | intros _; apply preserves_ret].
Qed.

Lemma preserves_sort_buckets : preserves always_registered sort_buckets.
Proof.
  unfold sort_buckets. apply preserves_bind; [apply preserves_gets |]. intros dates.
  apply preserves_for_each. intros date.
  apply preserves_mutate, links_registered_sort_bucket.
Qed.

Lemma preserves_parse_files_with (process : str → M unit) :
  (∀ file_path, preserves always_registered (process file_path)) →
  preserves always_registered (parse_files_with env config process).
Proof.
  intros Hprocess. unfold parse_files_with.
  apply preserves_bind; [apply preserves_find_html_files |]. intros [|f files].
  - apply preserves_logger.
  - apply preserves_bind; [| intros _].
    { apply preserves_for_each. intros file_path. unfold try_process.
      apply preserves_try_except_finally;
        [apply Hprocess | intros e; apply preserves_logger | apply preserves_pbar_update]. }
    apply preserves_bind; [apply preserves_sort_buckets | intros _].
    apply preserves_bind; [apply preserves_logger | intros _].
    apply preserves_bind; [apply preserves_gets | intros n; apply preserves_logger].
Qed.

(** C10. At every point of a run every link of every bucket is in the
    global set: the property holds of a new parser, every method keeps
    it for the containers and for each state they went through (one per
    mutation: [add], [append], [sort]), whether the method returns or
    raises; so it holds after [parse_files] on a new parser, and held
    after each mutation on the way. *)
Theorem links_always_registered :
  always_registered init
  ∧ (∀ file_path,
       preserves always_registered (process_html_file env config file_path))
  ∧ preserves always_registered (parse_files env config)
  ∧ (let w := (parse_files env config init).1 in
     ∀ s, s = self w ∨ s ∈ history w →
          ∀ date links href,
            photos_by_date s !! date = Some links → href ∈ links →
            href ∈ all_links s).
Proof.
  assert (always_registered init) as Hinit.
  { split; [| constructor]. intros date links href Hlinks. simpl in Hlinks.
    by rewrite lookup_empty in Hlinks. }
  assert (preserves always_registered (parse_files env config)) as Hparse
    by (apply preserves_parse_files_with, preserves_process_html_file).
  split_and!; [done | apply preserves_process_html_file | done |].
  intros w s Hs. destruct (Hparse init Hinit) as [Hself Hhist].
  destruct Hs as [-> | Hin]; [apply Hself |].
  rewrite Forall_forall in Hhist. by apply Hhist.
Qed.

End Invariant.

(** ** What one file contributes *)

Section Runs.
Context `{Unicode} (env : Env) (config : Config).

Lemma is_image_link_returns (href : str) : ∃ b, is_image_link config href = Return b.
Proof.
  destruct (is_image_link_unfold config href) as (clean & _ & ->). by eexists.
Qed.

(** One anchor: the link is recorded, nothing is logged, nothing raises. *)
Lemma process_link_run (link_tag : Node) (w : world) :
  has_href (element link_tag) = true →
  let r := process_link config link_tag w in
  r.2 = Return tt
  ∧ self r.1 = match image_link_of config link_tag with
               | Some href => record_link (self w) (href, date_of_link link_tag)
               | None => self w
               end
  ∧ logs r.1 = logs w ∧ pbar r.1 = pbar w.
Proof.
  intros Hhref. cbv zeta.
  destruct (process_link config link_tag w) as [w1 r] eqn:Hrun. simpl fst; simpl snd.
  unfold process_link, image_link_of in *.
  destruct (element link_tag) as [? | name [h |] cls contents]; try done.
  simpl get_href in *. rewrite run_bind in Hrun. unfold lift at 1 in Hrun.
  cbv beta iota in Hrun.
  destruct (is_image_link_returns (strip h)) as [b Hb]. rewrite Hb.
  rewrite run_bind in Hrun. unfold lift at 1 in Hrun. rewrite Hb in Hrun.
  cbv beta iota in Hrun.
  destruct b; cbn [negb] in Hrun; cbv iota in Hrun;
    [| rewrite run_ret in Hrun; by simplify_eq].
  rewrite run_bind in Hrun. unfold mutate at 1 in Hrun. cbv beta iota zeta in Hrun.
  unfold record_link, date_of_link. simpl fst. simpl snd.
  destruct (find_parent_div _ link_tag) as [message |];
    [| rewrite run_ret in Hrun; by simplify_eq].
  destruct (find_div _ message) as [header |];
    [| rewrite run_ret in Hrun; by simplify_eq].
  destruct (extract_date_returns (get_text_strip (u " ") header)) as [d Hd]. rewrite Hd.
  rewrite run_bind in Hrun. unfold lift at 1 in Hrun. rewrite Hd in Hrun.
  cbv beta iota in Hrun.
  destruct d as [[|c k] |]; rewrite ?run_ret in Hrun; unfold mutate in Hrun;
    by simplify_eq.
Qed.

Lemma for_each_process_link (nodes : list Node) (w : world) :
  Forall (fun n => has_href (element n) = true) nodes →
  let r := for_each nodes (process_link config) w in
  r.2 = Return tt
  ∧ self r.1
    = record_links (self w)
        (omap (fun n => match image_link_of config n with
                        | Some href => Some (href, date_of_link n)
                        | None => None
                        end) nodes)
  ∧ logs r.1 = logs w ∧ pbar r.1 = pbar w.
Proof.
  intros Hnodes; revert w; induction Hnodes as [|n nodes Hn _ IH]; intros w.
  - done.
  - cbv zeta. simpl for_each. rewrite run_bind.
    destruct (process_link_run n w Hn) as (Hret & Hself & Hlogs & Hpbar).
    destruct (process_link config n w) as [w1 r1]. simpl in *. subst r1.
    destruct (IH w1) as (Hret2 & Hself2 & Hlogs2 & Hpbar2).
    split_and!; [done | | congruence | congruence].
    rewrite Hself2, Hself.
    by destruct (image_link_of config n).
Qed.

Lemma find_all_a_href_has_href (soup : PageElement) :
  Forall (fun n => has_href (element n) = true) (find_all_a_href soup).
Proof.
  unfold find_all_a_href. apply Forall_forall. intros n Hn.
  apply list_elem_of_In, filter_In in Hn as [_ Hn].
  by apply andb_true_iff in Hn as [_ ?].
Qed.

(** The reader: it touches neither the containers nor the progress bar,
    and warns when every encoding failed. *)
Lemma try_encodings_run (file_path : str) (encodings : list str) (w : world) :
  let r := try_encodings env file_path encodings w in
  r.2 = read_result env file_path encodings
  ∧ self r.1 = self w ∧ pbar r.1 = pbar w ∧ history r.1 = history w
  ∧ (∃ more, logs r.1 = logs w ++ more)
  ∧ (read_result env file_path encodings = Return None →
     WarningCouldNotRead file_path ∈ logs r.1).
Proof.
  revert w; induction encodings as [|encoding rest IH]; intros w; cbv zeta; simpl.
  - split_and!; try done.
    + by eexists.
    + intros _. apply elem_of_app. right. by apply list_elem_of_singleton.
  - destruct (open_soup env file_path encoding) as [soup | e].
    { split_and!; try done. exists []. by rewrite app_nil_r. }
    assert (let r := (logger (DebugFailedToRead file_path encoding e)
                        ≫= λ _, try_encodings env file_path rest) w in
            r.2 = read_result env file_path rest
            ∧ self r.1 = self w ∧ pbar r.1 = pbar w ∧ history r.1 = history w
            ∧ (∃ more, logs r.1 = logs w ++ more)
            ∧ (read_result env file_path rest = Return None →
               WarningCouldNotRead file_path ∈ logs r.1)) as Hnext.
    { cbv zeta.
      destruct ((logger (DebugFailedToRead file_path encoding e)
                   ≫= λ _, try_encodings env file_path rest) w) as [w2 r2] eqn:Hrun.
      rewrite run_bind in Hrun. unfold logger at 1 in Hrun. cbv beta iota in Hrun.
      specialize (IH {| self := self w;
                        logs := logs w ++ [DebugFailedToRead file_path encoding e];
                        pbar := pbar w; history := history w |}).
      cbv zeta in IH. rewrite Hrun in IH. simpl in *.
      destruct IH as (? & ? & ? & ? & [more Hmore] & ?).
      split_and!; try done.
      exists ([DebugFailedToRead file_path encoding e] ++ more).
      by rewrite Hmore, <- app_assoc. }
    destruct e; try exact Hnext;
      (split_and!; try done; exists []; by rewrite app_nil_r).
Qed.

Lemma process_html_file_run (file_path : str) (w : world) :
  let r := process_html_file env config file_path w in
  r.2 = match read_file env file_path with
        | Return _ => Return tt
        | Raise e => Raise e
        end
  ∧ self r.1 = record_links (self w) (file_links env config file_path)
  ∧ pbar r.1 = pbar w
  ∧ (∃ more, logs r.1 = logs w ++ more)
  ∧ (read_file env file_path = Return None →
     WarningCouldNotRead file_path ∈ logs r.1).
Proof.
  cbv zeta. unfold process_html_file, read_file_with_encoding, file_links, read_file.
  set (encodings := [u "utf-8"; u "windows-1251"; u "cp1252"]).
  pose proof (try_encodings_run file_path encodings w) as Hr. cbv zeta in Hr.
  rewrite run_bind.
  destruct (try_encodings env file_path encodings w) as [w1 r1]. cbn [fst snd] in Hr.
  destruct Hr as (-> & Hself & Hpbar & _ & Hlogs & Hwarn).
  destruct (read_result env file_path encodings) as [[soup |] | e]; cbv beta iota.
  - pose proof (for_each_process_link (find_all_a_href soup) w1
                  (find_all_a_href_has_href soup)) as Hr2. cbv zeta in Hr2.
    destruct (for_each (find_all_a_href soup) (process_link config) w1) as [w2 r2].
    cbn [fst snd] in *. destruct Hr2 as (-> & Hself2 & Hlogs2 & Hpbar2).
    split_and!; try done; try congruence.
    + unfold image_links. congruence.
    + by rewrite Hlogs2.
  - rewrite run_ret. cbn [fst snd]. by split_and!.
  - cbn [fst snd]. by split_and!.
Qed.

End Runs.

(** ** The loops of [parse_files] *)

(** One turn: the file's processing, then the log entry of a caught
    exception, then one step of the progress bar. *)
Lemma try_process_run (process : str → M unit) (file_path : str) (w : world) :
  let p := process file_path w in
  let r := try_process process file_path w in
  self r.1 = self p.1 ∧ history r.1 = history p.1 ∧ pbar r.1 = (pbar p.1 + 1)%nat
  ∧ logs r.1
    = logs p.1 ++ match p.2 with
                  | Raise e => if is_Exception e then [ErrorProcessing file_path e] else []
                  | Return _ => []
                  end
  ∧ r.2 = match p.2 with
          | Raise e => if is_Exception e then Return tt else Raise e
          | Return _ => Return tt
          end.
Proof.
  cbv zeta. unfold try_process, try_except_finally.
  destruct (process file_path w) as [w1 [[] | e]]; simpl.
  - by rewrite app_nil_r.
  - destruct (is_Exception e); simpl; [done | by rewrite app_nil_r].
Qed.


Lemma record_links_app (s : state) (l1 l2 : list (str * option str)) :
  record_links s (l1 ++ l2) = record_links (record_links s l1) l2.
Proof. apply foldl_app. Qed.

Section Aggregation.
Context `{Unicode} (env : Env) (config : Config).

Lemma parse_loop_run (files : list str) (w : world) :
  uninterrupted env files →
  let r := for_each files (try_process (process_html_file env config)) w in
  r.2 = Return tt
  ∧ self r.1 = record_links (self w) (flat_map (file_links env config) files)
  ∧ pbar r.1 = (pbar w + length files)%nat
  ∧ (∃ more, logs r.1 = logs w ++ more)
  ∧ (∀ f, f ∈ files →
          (read_file env f = Return None → WarningCouldNotRead f ∈ logs r.1)
          ∧ (∀ e, read_file env f = Raise e → ErrorProcessing f e ∈ logs r.1)).
Proof.
  revert w; induction files as [|f files IH]; intros w Hexc; cbv zeta.
  - simpl. split_and!; try done.
    + exists []. by rewrite app_nil_r.
    + intros f Hf. by apply elem_of_nil in Hf.
  - simpl for_each. rewrite run_bind.
    pose proof (try_process_run (process_html_file env config) f w)
      as (Hself & _ & Hpbar & Hlogs & Hret).
    pose proof (process_html_file_run env config f w)
      as (Hpret & Hpself & Hppbar & [more Hplogs] & Hpwarn).
    destruct (process_html_file env config f w) as [wp rp]. cbn [fst snd] in *.
    destruct (try_process (process_html_file env config) f w) as [w1 r1].
    cbn [fst snd] in *. subst rp.
    assert (r1 = Return tt) as ->.
    { rewrite Hret. destruct (read_file env f) as [? | e] eqn:Hread; [done |].
      rewrite (Hexc f e); [done | by left | done]. }
    destruct (IH w1) as (Hret2 & Hself2 & Hpbar2 & [more2 Hlogs2] & Hlog2).
    { intros f' e Hf'. apply Hexc. by right. }
    destruct (for_each files (try_process (process_html_file env config)) w1)
      as [w2 r2]. cbn [fst snd] in *.
    split_and!.
    + done.
    + rewrite Hself2, Hself, Hpself. simpl flat_map. by rewrite record_links_app.
    + simpl. lia.
    + eexists. by rewrite Hlogs2, Hlogs, Hplogs, <- !app_assoc.
    + intros f' [-> | Hf']%elem_of_cons; [| by apply Hlog2].
      split.
      * intros Hnone. rewrite Hlogs2, Hlogs. rewrite !elem_of_app. left; left.
        by apply Hpwarn.
      * intros e He. rewrite Hlogs2, Hlogs, He, (Hexc f e); [| by left | done].
        rewrite !elem_of_app. left; right. by apply list_elem_of_singleton.
Qed.

End Aggregation.

(** The sorting loop sorts every bucket and changes nothing else. *)
Lemma for_each_mutate {A} (f : A → state → state) (l : list A) (w : world) :
  let r := for_each l (fun x => mutate (f x)) w in
  r.2 = Return tt ∧ self r.1 = foldl (fun s x => f x s) (self w) l
  ∧ logs r.1 = logs w ∧ pbar r.1 = pbar w.
Proof.
  revert w; induction l as [|x l IH]; intros w; cbv zeta; [done |].
  simpl for_each. rewrite run_bind. unfold mutate at 1. cbv beta iota zeta.
  apply (IH {| self := f x (self w); logs := logs w; pbar := pbar w;
               history := f x (self w) :: history w |}).
Qed.

Lemma foldl_sort_bucket_lookup (dates : list str) (s : state) (date : str) :
  NoDup dates →
  photos_by_date (foldl (fun s d => sort_bucket d s) s dates) !! date
  = if decide (date ∈ dates) then sorted <$> photos_by_date s !! date
    else photos_by_date s !! date.
Proof.
  intros Hnodup; revert s; induction Hnodup as [|d dates Hd _ IH]; intros s;
    cbn [foldl].
  - destruct (decide (date ∈ [])) as [Hin |]; [by apply elem_of_nil in Hin | done].
  - rewrite IH. cbn [sort_bucket photos_by_date].
    destruct (decide (date ∈ d :: dates)) as [Hin | Hnin];
      destruct (decide (date ∈ dates)) as [Hin' | Hnin'].
    + assert (date ≠ d) by (by intros ->). by rewrite lookup_alter_ne.
    + apply elem_of_cons in Hin as [-> | ?]; [| done]. by rewrite lookup_alter_eq.
    + exfalso. apply Hnin. by right.
    + rewrite lookup_alter_ne; [done |]. intros ->. apply Hnin. by left.
Qed.

Lemma foldl_sort_bucket_all_links (dates : list str) (s : state) :
  all_links (foldl (fun s d => sort_bucket d s) s dates) = all_links s.
Proof.
  revert s; induction dates as [|d dates IH]; intros s; [done |].
  simpl. by rewrite IH.
Qed.

Lemma sort_buckets_run (w : world) :
  let r := sort_buckets w in
  r.2 = Return tt
  ∧ photos_by_date (self r.1) = sorted <$> photos_by_date (self w)
  ∧ all_links (self r.1) = all_links (self w)
  ∧ logs r.1 = logs w ∧ pbar r.1 = pbar w.
Proof.
  cbv zeta. destruct (sort_buckets w) as [w1 r1] eqn:Hrun. cbn [fst snd].
  unfold sort_buckets in Hrun. rewrite run_bind in Hrun. unfold gets at 1 in Hrun.
  cbv beta iota in Hrun.
  set (dates := (map_to_list (photos_by_date (self w))).*1) in *.
  destruct (for_each_mutate (fun d => sort_bucket d) dates w)
    as (Hret & Hself & Hlogs & Hpbar).
  rewrite Hrun in Hret, Hself, Hlogs, Hpbar. cbn [fst snd] in *.
  split_and!; try done.
  - rewrite Hself. apply map_eq. intros date.
    rewrite foldl_sort_bucket_lookup by apply NoDup_fst_map_to_list.
    rewrite lookup_fmap. destruct (decide (date ∈ dates)) as [Hin | Hnin]; [done |].
    destruct (photos_by_date (self w) !! date) as [links |] eqn:Hdate; [| done].
    exfalso. apply Hnin. apply list_elem_of_fmap. exists (date, links).
    split; [done |]. by apply elem_of_map_to_list.
  - rewrite Hself. apply foldl_sort_bucket_all_links.
Qed.

Section Aggregator.
Context `{Unicode} (env : Env) (config : Config).

(** [parse_files] on a list of files that is not empty. *)
Lemma parse_files_run (f : str) (files : list str) (w : world) :
  glob env (input_dir config) = Return (f :: files) →
  uninterrupted env (f :: files) →
  let r := parse_files env config w in
  let recorded :=
    record_links (self w) (flat_map (file_links env config) (f :: files)) in
  r.2 = Return tt
  ∧ photos_by_date (self r.1) = sorted <$> photos_by_date recorded
  ∧ all_links (self r.1) = all_links recorded
  ∧ pbar r.1 = (pbar w + length (f :: files))%nat
  ∧ (∀ f', f' ∈ f :: files →
       (read_file env f' = Return None → WarningCouldNotRead f' ∈ logs r.1)
       ∧ (∀ e, read_file env f' = Raise e → ErrorProcessing f' e ∈ logs r.1)).
Proof.
  intros Hglob Hexc. cbv zeta.
  destruct (parse_files env config w) as [wr rr] eqn:Hrun. cbn [fst snd].
  unfold parse_files, parse_files_with, find_html_files in Hrun. rewrite Hglob in Hrun.
  rewrite !run_bind in Hrun. unfold logger at 1 in Hrun. cbv beta iota in Hrun.
  rewrite run_ret in Hrun. cbv beta iota in Hrun. rewrite run_bind in Hrun.
  set (w0 := {| self := self w; logs := logs w ++ [InfoFound (length (f :: files))];
                pbar := pbar w; history := history w |}) in *.
  pose proof (parse_loop_run env config (f :: files) w0 Hexc)
    as (Hret & Hself & Hpbar & [more Hlogs] & Hlog).
  destruct (for_each (f :: files) (try_process (process_html_file env config)) w0)
    as [w1 r1]. cbn [fst snd] in *. subst r1.
  rewrite run_bind in Hrun.
  pose proof (sort_buckets_run w1) as (Hret2 & Hpbd2 & Hall2 & Hlogs2 & Hpbar2).
  destruct (sort_buckets w1) as [w2 r2]. cbn [fst snd] in *. subst r2.
  rewrite run_bind in Hrun. unfold logger at 1 in Hrun. cbv beta iota in Hrun.
  rewrite run_bind in Hrun. unfold gets at 1 in Hrun. cbv beta iota in Hrun.
  unfold logger in Hrun. injection Hrun as <- <-. cbn [self pbar logs].
  rewrite Hpbd2, Hall2, Hself, Hpbar2, Hpbar. split_and!; try done.
  intros f' Hf'. destruct (Hlog f' Hf') as [Hwarn Herr].
  rewrite Hlogs2. split.
  - intros Hnone. rewrite !elem_of_app. left; left. by apply Hwarn.
  - intros e He. rewrite !elem_of_app. left; left. by apply Herr.
Qed.

End Aggregator.

(** ** What the containers hold after the run *)

Lemma record_links_all_links (s : state) (ls : list (str * option str)) :
  all_links (record_links s ls) = all_links s ∪ list_to_set ls.*1.
Proof.
  revert s; induction ls as [|[href d] ls IH]; intros s.
  - simpl. set_solver.
  - change (record_links s ((href, d) :: ls))
      with (record_links (record_link s (href, d)) ls).
    rewrite IH. unfold record_link. simpl.
    destruct d; simpl; set_solver.
Qed.

Lemma dated_cons (date href : str) (d : option str) (ls : list (str * option str)) :
  dated date ((href, d) :: ls)
  = if bool_decide (d = Some date) then href :: dated date ls else dated date ls.
Proof. unfold dated. simpl. by destruct (bool_decide _). Qed.

Lemma record_link_lookup (s : state) (href : str) (d : option str) (date : str) :
  photos_by_date (record_link s (href, d)) !! date
  = if bool_decide (d = Some date)
    then Some (default [] (photos_by_date s !! date) ++ [href])
    else photos_by_date s !! date.
Proof.
  unfold record_link. cbn [fst snd].
  destruct d as [k |]; cbn [append_photo add_link photos_by_date].
  - destruct (decide (k = date)) as [-> | Hne].
    + by rewrite bool_decide_eq_true_2, lookup_insert_eq.
    + rewrite bool_decide_eq_false_2 by congruence. by rewrite lookup_insert_ne.
  - by rewrite bool_decide_eq_false_2.
Qed.

Lemma record_links_lookup (s : state) (ls : list (str * option str)) (date : str) :
  photos_by_date (record_links s ls) !! date
  = match dated date ls with
    | [] => photos_by_date s !! date
    | new => Some (default [] (photos_by_date s !! date) ++ new)
    end.
Proof.
  revert s; induction ls as [|[href d] ls IH]; intros s; [done |].
  change (record_links s ((href, d) :: ls))
    with (record_links (record_link s (href, d)) ls).
  rewrite IH, dated_cons, record_link_lookup.
  destruct (bool_decide (d = Some date)).
  - destruct (dated date ls); simpl; [done |]. by rewrite <- app_assoc.
  - done.
Qed.

Lemma aggregate_lookup (ls : list (str * option str)) (date : str) :
  photos_by_date (aggregate ls) !! date
  = match dated date ls with
    | [] => None
    | new => Some (sorted new)
    end.
Proof.
  unfold aggregate. cbn [photos_by_date]. rewrite lookup_fmap, record_links_lookup.
  cbn [photos_by_date]. rewrite lookup_empty.
  by destruct (dated date ls).
Qed.

Section Results.
Context `{Unicode} (env : Env) (config : Config).

(** The run on a list of files, none interrupted: the containers hold
    what the files contribute, sorted. *)
Lemma parse_files_aggregate (files : list str) :
  glob env (input_dir config) = Return files →
  uninterrupted env files →
  (parse_files env config init).2 = Return tt
  ∧ self (parse_files env config init).1
    = aggregate (flat_map (file_links env config) files).
Proof.
  intros Hglob Hexc. destruct files as [|f files].
  - unfold parse_files, parse_files_with, find_html_files. rewrite Hglob. split; [done |].
    unfold aggregate. simpl. by rewrite fmap_empty.
  - pose proof (parse_files_run env config f files init Hglob Hexc)
      as (Hret & Hpbd & Hall & _).
    split; [done |]. unfold aggregate.
    destruct (self (parse_files env config init).1) as [pbd all].
    cbn [photos_by_date all_links] in *. by subst.
Qed.

End Results.

Lemma example_env_uninterrupted (files : list str) : uninterrupted example_env files.
Proof.
  intros f e _. unfold read_file, read_result, example_env, open_soup.
  destruct (bool_decide _); [done |]. by intros [= <-].
Qed.

Section Buckets.
Context `{Unicode} (env : Env) (config : Config).

(** C4, amended. After [parse_files] on a new parser, the bucket of a
    date is the sorted list of the image links of the occurrences found
    under that date, one entry per occurrence: an occurrence with a date
    is recorded in the bucket of its date and in no other, and a date
    without occurrences has no bucket. The same link is in several
    buckets when it occurs under several dates. *)
Theorem dated_links_bucketed (files : list str) :
  glob env (input_dir config) = Return files →
  uninterrupted env files →
  let s := self (parse_files env config init).1 in
  let seen := flat_map (file_links env config) files in
  ∀ date,
    photos_by_date s !! date
    = match dated date seen with
      | [] => None
      | new => Some (sorted new)
      end
    ∧ default [] (photos_by_date s !! date) ≡ₚ dated date seen.
Proof.
  intros Hglob Hexc s seen date. subst s.
  destruct (parse_files_aggregate env config files Hglob Hexc) as [_ ->].
  rewrite aggregate_lookup. fold seen. split; [done |].
  destruct (dated date seen) as [|l ls]; simpl; [done |].
  symmetry. apply StrSort.Permuted_sort.
Qed.

End Buckets.

Lemma dated_links_bucketed_witness :
  photos_by_date (self (@parse_files ucd example_env example_config init).1)
    !! u "2024.01.15"
  = match dated (u "2024.01.15")
            (flat_map (@file_links ucd example_env example_config)
               [u "export/broken.html"; u "export/messages.html"]) with
    | [] => None
    | new => Some (sorted new)
    end.
Proof.
  exact (proj1 (@dated_links_bucketed ucd example_env example_config
                  [u "export/broken.html"; u "export/messages.html"]
                  eq_refl (example_env_uninterrupted _) (u "2024.01.15"))).
Defined.

(** C4, as stated, fails: the same link under two dates is in two buckets. *)
Lemma same_link_in_two_buckets :
  photos_by_date (self (@parse_files ucd example_env example_config init).1)
    !! u "2024.01.15" = Some [u "a.jpg"; u "b.jpg"]
  ∧ photos_by_date (self (@parse_files ucd example_env example_config init).1)
      !! u "2023.02.01" = Some [u "a.jpg"]
  ∧ u "2024.01.15" ≠ u "2023.02.01".
Proof. split; [by vm_compute |]. split; [by vm_compute | by vm_compute]. Qed.

Section Sorting.
Context `{Unicode} (env : Env) (config : Config).

Lemma parse_files_returns_sorted (w' : world) :
  parse_files env config init = (w', Return tt) →
  ∃ m, photos_by_date (self w') = sorted <$> m.
Proof.
  intros Hrun. unfold parse_files, parse_files_with, find_html_files in Hrun.
  assert (∀ l : list log_record,
            (logger WarningNoFiles
               {| self := self init; logs := l; pbar := pbar init;
                  history := history init |}).1.(self) = self init) as Hempty by done.
  destruct (glob env (input_dir config)) as [[|f files] | e].
  - rewrite !run_bind in Hrun. unfold logger at 1 in Hrun. cbv beta iota in Hrun.
    rewrite run_ret in Hrun. cbv beta iota in Hrun.
    injection Hrun as <-. exists ∅. simpl. by rewrite fmap_empty.
  - rewrite !run_bind in Hrun. unfold logger at 1 in Hrun. cbv beta iota in Hrun.
    rewrite run_ret in Hrun. cbv beta iota in Hrun. rewrite run_bind in Hrun.
    destruct (for_each (f :: files) _ _) as [w1 [[] | e]]; [| done].
    rewrite run_bind in Hrun.
    pose proof (sort_buckets_run w1) as (Hret & Hpbd & _).
    destruct (sort_buckets w1) as [w2 r2]. cbn [fst snd] in *. subst r2.
    rewrite run_bind in Hrun. unfold logger at 1 in Hrun. cbv beta iota in Hrun.
    rewrite run_bind in Hrun. unfold gets at 1 in Hrun. cbv beta iota in Hrun.
    unfold logger in Hrun. injection Hrun as <-. cbn [self].
    by exists (photos_by_date (self w1)).
  - destruct (is_Exception e).
    + rewrite !run_bind in Hrun. unfold logger at 1 in Hrun. cbv beta iota in Hrun.
      rewrite run_ret in Hrun. cbv beta iota in Hrun.
      injection Hrun as <-. exists ∅. simpl. by rewrite fmap_empty.
    + rewrite run_bind in Hrun. by unfold lift in Hrun.
Qed.

(** C5. When [parse_files] has returned on a new parser, the links of
    every date are in ascending order of their code points, each link at
    most the next one: the order of plain strings, in which ["img10.jpg"]
    comes before ["img2.jpg"]. [main] passes this state to
    [generate_html_content]. *)
Theorem buckets_sorted (w' : world) :
  parse_files env config init = (w', Return tt) →
  (∀ date links,
     photos_by_date (self w') !! date = Some links →
     Sorted (fun a b => str_leb a b = true) links)
  ∧ main env config init = (w', Return (generate_html_content env (self w')))
  ∧ sorted [u "img2.jpg"; u "img10.jpg"] = [u "img10.jpg"; u "img2.jpg"]
  ∧ str_ltb (u "img10.jpg") (u "img2.jpg") = true.
Proof.
  intros Hrun. split_and!.
  - intros date links Hlinks.
    destruct (parse_files_returns_sorted w' Hrun) as [m Hm].
    rewrite Hm, lookup_fmap in Hlinks.
    destruct (m !! date) as [l |]; simplify_eq/=.
    apply StrSort.Sorted_sort.
  - unfold main. rewrite run_bind, Hrun. reflexivity.
  - by vm_compute.
  - by vm_compute.
Qed.

End Sorting.

Lemma buckets_sorted_witness :
  Sorted (fun a b => str_leb a b = true) [u "a.jpg"; u "b.jpg"].
Proof.
  refine (proj1 (@buckets_sorted ucd example_env example_config
                   (@parse_files ucd example_env example_config init).1 _)
            (u "2024.01.15") _ _).
  - vm_compute. reflexivity.
  - vm_compute. reflexivity.
Defined.

Lemma file_links_ext `{Unicode} (env env' : Env) (config : Config) (f : str) :
  open_soup env' = open_soup env →
  read_file env' f = read_file env f
  ∧ file_links env' config f = file_links env config f.
Proof.
  intros Hopen. unfold file_links, read_file, read_result. by rewrite Hopen.
Qed.



(** ** The report *)

Lemma str_compare_eq (a b : str) : str_compare a b = Eq → a = b.
Proof.
  revert b; induction a as [|x a IH]; intros [|y b]; simpl; try done.
  destruct (N.compare_spec x y) as [-> | ? | ?]; try done.
  intros Hab. by rewrite (IH b Hab).
Qed.

Lemma str_leb_ne_ltb (a b : str) : str_leb a b = true → a ≠ b → str_ltb a b = true.
Proof.
  unfold str_leb, str_ltb. intros Hle Hne.
  destruct (str_compare a b) eqn:Hc; try done.
  by apply str_compare_eq in Hc.
Qed.

Lemma Sorted_strict (l : list str) :
  Sorted (fun a b => str_leb a b = true) l → NoDup l →
  Sorted (fun a b => str_ltb a b = true) l.
Proof.
  induction 1 as [|a l Hsorted IH Hhd]; intros Hnodup; [constructor |].
  apply NoDup_cons in Hnodup as [Ha Hl]. constructor; [by apply IH |].
  destruct Hhd as [|b l Hab]; constructor.
  apply str_leb_ne_ltb; [done |]. intros ->. apply Ha. left.
Qed.

Lemma sorted_dates_spec (s : state) :
  Sorted (fun a b => str_ltb a b = true) (sorted_dates s)
  ∧ NoDup (sorted_dates s)
  ∧ ∀ date, date ∈ sorted_dates s ↔ is_Some (photos_by_date s !! date).
Proof.
  unfold sorted_dates.
  assert (NoDup (sorted (map_to_list (photos_by_date s)).*1)) as Hnodup.
  { unfold sorted. rewrite <- (StrSort.Permuted_sort _). apply NoDup_fst_map_to_list. }
  split_and!; [| done |].
  - apply Sorted_strict; [apply StrSort.Sorted_sort | done].
  - intros date. rewrite elem_of_sorted, list_elem_of_fmap. split.
    + intros [[d links] [-> Hin]]. apply elem_of_map_to_list in Hin. by eexists.
    + intros [links Hlinks]. exists (date, links). split; [done |].
      by apply elem_of_map_to_list.
Qed.




Ltac distinct_at n :=
  let Heq := fresh "Heq" in
  intros Heq; apply (f_equal (take n)) in Heq; vm_compute in Heq; discriminate.



(** ** Counts in decimal *)

Lemma uint_codes_digits (d : Decimal.uint) (c : code) :
  c ∈ uint_codes d → ascii_digit c.
Proof.
  induction d; simpl; [by intros ?%elem_of_nil | ..];
    (intros [-> | Hin]%elem_of_cons; [unfold ascii_digit; lia | by apply IHd]).
Qed.






(** ** Keys in order of their dates *)



Section Report.
Context `{Unicode} (env : Env).


End Report.



Lemma no_images_line_not_in_head (total : nat) : no_images_line ∉ html_head total.
Proof.
  unfold html_head.
  repeat (apply not_elem_of_cons; split; [symmetry; distinct_at 17%nat |]).
  apply not_elem_of_nil.
Qed.

Lemma no_images_line_not_in_footer (env : Env) : no_images_line ∉ html_footer env.
Proof.
  unfold html_footer.
  repeat (apply not_elem_of_cons; split; [symmetry; distinct_at 17%nat |]).
  apply not_elem_of_nil.
Qed.

Ltac not_heading :=
  let Heq := fresh "Heq" in
  unfold is_heading; apply bool_decide_eq_false_2;
  intros Heq; vm_compute in Heq; discriminate.

Lemma no_heading_outside_sections (env : Env) (total : nat) :
  Forall (fun line => is_heading line = false)
    (html_head total ++ [no_images_line] ++ html_footer env).
Proof.
  apply Forall_app_2; [| apply Forall_app_2].
  - unfold html_head. repeat (apply Forall_cons_2; [not_heading |]). apply Forall_nil_2.
  - apply Forall_cons_2; [not_heading | apply Forall_nil_2].
  - unfold html_footer. repeat (apply Forall_cons_2; [not_heading |]). apply Forall_nil_2.
Qed.

(** ** The markup of the page *)

Lemma scan_app (a b : str) (st : option str * list str) :
  scan (a ++ b) st
  = match scan a st with
    | Some st' => scan b st'
    | None => None
    end.
Proof.
  revert st; induction a as [|c a IH]; intros st; [done |].
  cbn [app scan]. by destruct (scan_step st c).
Qed.

(** Text without [<] has no markup. *)
Lemma scan_text (s : str) (tags : list str) :
  60 ∉ s → scan s (None, tags) = Some (None, tags).
Proof.
  induction s as [|c s IH]; [done |]. rewrite not_elem_of_cons. intros [Hc Hs].
  cbn [scan scan_step]. rewrite (proj2 (N.eqb_neq c 60)) by done. by apply IH.
Qed.

Lemma markup_of_app (a b : list str) :
  markup_of (a ++ b)
  = match markup_of a, markup_of b with
    | Some x, Some y => Some (x ++ y)
    | _, _ => None
    end.
Proof.
  induction a as [|line a IH]; cbn [app markup_of].
  - by destruct (markup_of b).
  - rewrite IH. destruct (markup line), (markup_of a), (markup_of b); try done.
    by rewrite app_assoc.
Qed.

Lemma markup_of_singleton (line : str) : markup_of [line] = markup line.
Proof. cbn [markup_of]. destruct (markup line); [| done]. by rewrite app_nil_r. Qed.

(** The line of the total is one [div] element around a number. *)
Lemma markup_stats_line (total : nat) :
  markup (u "    <div class=" ++ q ++ u "stats" ++ q ++ u ">Total images found: "
            ++ str_of_nat total ++ u "</div>")
  = Some [u "div class=" ++ q ++ u "stats" ++ q; u "/div"].
Proof.
  assert (60 ∉ str_of_nat total) as Hnum.
  { intros Hin. apply uint_codes_digits in Hin as [? ?]. lia. }
  unfold markup.
  replace (u "    <div class=" ++ q ++ u "stats" ++ q ++ u ">Total images found: "
             ++ str_of_nat total ++ u "</div>")
    with ((u "    <div class=" ++ q ++ u "stats" ++ q ++ u ">Total images found: ")
            ++ str_of_nat total ++ u "</div>")
    by (by rewrite <- !app_assoc).
  generalize dependent (str_of_nat total). intros num Hnum.
  rewrite scan_app.
  assert (scan (u "    <div class=" ++ q ++ u "stats" ++ q ++ u ">Total images found: ")
            (None, [])
          = Some (None, [u "div class=" ++ q ++ u "stats" ++ q])) as ->
    by (vm_compute; reflexivity).
  rewrite scan_app, scan_text by done. vm_compute. reflexivity.
Qed.

(** The line of the clock has no markup when the clock shows none. *)
Lemma markup_generated_line (clock : str) :
  60 ∉ clock → markup (u "        Generated on " ++ clock) = Some [].
Proof.
  intros Hclock. unfold markup. rewrite scan_app.
  assert (scan (u "        Generated on ") (None, []) = Some (None, [])) as ->
    by (vm_compute; reflexivity).
  by rewrite scan_text.
Qed.

Lemma html_head_total (total : nat) :
  html_head total
  = take 23 (html_head 0)
      ++ [u "    <div class=" ++ q ++ u "stats" ++ q ++ u ">Total images found: "
            ++ str_of_nat total ++ u "</div>"].
Proof. reflexivity. Qed.

Lemma html_footer_clock (env : Env) :
  html_footer env
  = take 1 (html_footer env) ++ [u "        Generated on " ++ now env]
      ++ drop 2 (html_footer env).
Proof. reflexivity. Qed.

(** The page of an empty gallery is well formed. *)
Lemma empty_page_valid (env : Env) (total : nat) :
  60 ∉ now env →
  valid_document (html_head total ++ [no_images_line] ++ html_footer env) = true.
Proof.
  intros Hclock. unfold valid_document.
  rewrite html_head_total, html_footer_clock, !markup_of_app, !markup_of_singleton.
  rewrite markup_stats_line, (markup_generated_line _ Hclock).
  unfold html_footer. cbn [take drop].
  match goal with
  | |- context [markup_of (take 23 (html_head 0))] =>
    let v := eval vm_compute in (markup_of (take 23 (html_head 0))) in
    change (markup_of (take 23 (html_head 0))) with v
  end.
  vm_compute. reflexivity.
Qed.

Lemma html_head_length (total : nat) : length (html_head total) = 24%nat.
Proof. reflexivity. Qed.

Section EmptyReport.
Context `{Unicode} (env : Env) (config : Config).

(** C7. With no bucket the report is the head with the total, one notice
    and the footer. The notice is a [div] element of class [no-images]
    with the text [No images found.]; it is line 24 of the page and no
    other line, and no line opens a date section. The page is complete
    and well formed: it starts with the document type, which is followed
    by one [html] element with a [head] and a [body], every element is
    closed in its turn, and the last line closes the document; this
    holds whenever the clock shows no [<]. On an empty directory [main]
    does not raise: it returns this page, with a total of 0. *)
Theorem empty_report (s : state) :
  photos_by_date s = ∅ →
  let page := generate_html_content env s in
  page = html_head (size (all_links s)) ++ [no_images_line] ++ html_footer env
  ∧ (no_images_line ∉ html_head (size (all_links s)))
  ∧ (no_images_line ∉ html_footer env)
  ∧ Forall (fun line => is_heading line = false) page
  ∧ head page = Some (u "<!DOCTYPE html>")
  ∧ last page = Some (u "</html>")
  ∧ (glob env (input_dir config) = Return [] →
     (main env config init).2
     = Return (html_head 0 ++ [no_images_line] ++ html_footer env))
  ∧ u "    <div class=" ++ q ++ u "stats" ++ q ++ u ">Total images found: 0</div>"
    ∈ html_head 0
  ∧ no_images_line
    = u "    <div class=" ++ q ++ u "no-images" ++ q ++ u ">" ++ u "No images found."
        ++ u "</div>"
  ∧ markup no_images_line = Some [u "div class=" ++ q ++ u "no-images" ++ q; u "/div"]
  ∧ (∀ i, page !! i = Some no_images_line ↔ i = 24%nat)
  ∧ (60 ∉ now env → valid_document page = true).
Proof.
  intros Hempty page.
  assert (page = html_head (size (all_links s)) ++ [no_images_line] ++ html_footer env)
    as Hpage.
  { subst page. unfold generate_html_content, sorted_dates.
    by rewrite Hempty, map_to_list_empty. }
  split_and!.
  - done.
  - apply no_images_line_not_in_head.
  - apply no_images_line_not_in_footer.
  - rewrite Hpage. apply no_heading_outside_sections.
  - by rewrite Hpage.
  - rewrite Hpage. unfold html_footer.
    rewrite !app_assoc.
    change [_; _; _; _; ?x] with ([u "    <footer style=" ++ q
      ++ u "text-align: center; margin-top: 50px; color: #999; font-size: 0.9em;"
      ++ q ++ u ">"; u "        Generated on " ++ now env; u "    </footer>";
      u "</body>"] ++ [x]).
    rewrite app_assoc. apply last_snoc.
  - intros Hglob. unfold main, parse_files, parse_files_with, find_html_files.
    rewrite Hglob. rewrite !run_bind. unfold logger, gets. rewrite run_ret.
    cbn [fst snd self init photos_by_date all_links].
    unfold generate_html_content, sorted_dates. cbn [photos_by_date all_links].
    by rewrite map_to_list_empty, size_empty.
  - unfold html_head. do 23 apply list_elem_of_further.
    match goal with
    | |- ?x ∈ ?y :: _ => replace x with y by (vm_compute; reflexivity)
    end.
    apply list_elem_of_here.
  - vm_compute. reflexivity.
  - vm_compute. reflexivity.
  - intros i. rewrite Hpage. clear Hpage page. split.
    + intros Hi. destruct (decide (i < 24)%nat) as [Hlt | Hge].
      * rewrite lookup_app_l in Hi by (by rewrite html_head_length).
        apply list_elem_of_lookup_2 in Hi.
        by apply no_images_line_not_in_head in Hi.
      * rewrite lookup_app_r, html_head_length in Hi
          by (rewrite html_head_length; lia).
        destruct (i - 24)%nat as [|k] eqn:Hk; [lia |].
        cbn [app lookup list_lookup] in Hi.
        apply list_elem_of_lookup_2 in Hi.
        by apply no_images_line_not_in_footer in Hi.
    + intros ->. rewrite lookup_app_r, html_head_length by (by rewrite html_head_length).
      reflexivity.
  - intros Hclock. rewrite Hpage. by apply empty_page_valid.
Qed.

End EmptyReport.

Lemma empty_report_witness :
  (@main ucd empty_env example_config init).2
  = Return (html_head 0 ++ [no_images_line] ++ html_footer empty_env)
  ∧ valid_document (generate_html_content empty_env (self init)) = true.
Proof.
  destruct (@empty_report ucd empty_env example_config (self init) eq_refl)
    as (_ & _ & _ & _ & _ & _ & Hmain & _ & _ & _ & _ & Hvalid).
  split; [exact (Hmain eq_refl) |]. apply Hvalid.
  refine (bool_decide_unpack _ _). vm_compute. exact I.
Defined.

(** * More of the program *)

(** ** Splitting and joining *)

Lemma split_not_nil (sep : code) (s : str) : split sep s ≠ [].
Proof. destruct (split_first sep s) as (w & ws & rest & -> & _). done. Qed.

Lemma split_parts (sep : code) (s : str) : Forall (fun p => sep ∉ p) (split sep s).
Proof.
  induction s as [|c s IH]; simpl.
  - constructor; [apply not_elem_of_nil | constructor].
  - destruct (N.eqb_spec c sep) as [-> | Hc].
    + constructor; [apply not_elem_of_nil | done].
    + destruct (split sep s) as [|w ws]; [constructor; [| constructor] |].
      * rewrite elem_of_cons. intros [? | Hin]; [done | by apply elem_of_nil in Hin].
      * apply Forall_cons in IH as [Hw Hws]. constructor; [| done].
        rewrite elem_of_cons. intros [? | ?]; [congruence | done].
Qed.

Lemma join_split (sep : code) (s : str) : join [sep] (split sep s) = s.
Proof.
  induction s as [|c s IH]; [done |]. simpl.
  destruct (N.eqb_spec c sep) as [-> | Hc].
  - pose proof (split_not_nil sep s) as Hne.
    destruct (split sep s) as [|w ws]; [done |]. simpl in *. by rewrite IH.
  - destruct (split sep s) as [|w ws]; simpl in *; [by subst |].
    destruct ws; simpl in *; by subst.
Qed.

Lemma split_join (sep : code) (parts : list str) :
  parts ≠ [] → Forall (fun p => sep ∉ p) parts → split sep (join [sep] parts) = parts.
Proof.
  intros Hne Hparts. induction Hparts as [|p ps Hp Hps IH]; [done |].
  destruct ps as [|p' ps].
  - simpl. by apply split_no_sep.
  - change (join [sep] (p :: p' :: ps)) with (p ++ sep :: join [sep] (p' :: ps)).
    rewrite split_app_sep by done. by rewrite IH.
Qed.

(** X1. The heading's date is the key with its period-separated parts in
    reverse order, whatever the key: reversing twice gives the key back,
    so two different keys never share a heading date. *)
Theorem human_date_involutive :
  (∀ date_key, human_date (human_date date_key) = date_key)
  ∧ (∀ k k', human_date k = human_date k' → k = k').
Proof.
  assert (∀ date_key, human_date (human_date date_key) = date_key) as Hinv.
  { intros date_key. unfold human_date. change (u ".") with [46].
    rewrite split_join.
    - by rewrite reverse_involutive, join_split.
    - intros Hnil. apply (f_equal reverse) in Hnil.
      rewrite reverse_involutive in Hnil. by apply split_not_nil in Hnil.
    - apply Forall_reverse, split_parts. }
  split; [done |].
  intros k k' Heq. by rewrite <- (Hinv k), Heq, Hinv.
Qed.

(** ** Escaping *)

Lemma replace_app (old : code) (new a b : str) :
  replace old new (a ++ b) = replace old new a ++ replace old new b.
Proof. unfold replace. apply flat_map_app. Qed.

Lemma replace_absent (old : code) (new s : str) : old ∉ s → replace old new s = s.
Proof.
  induction s as [|c s IH]; [done |]. rewrite not_elem_of_cons. intros [Hc Hs].
  unfold replace in *. simpl. rewrite (proj2 (N.eqb_neq c old)) by done.
  simpl. by rewrite IH.
Qed.

(** The five replacements, made one after the other, amount to one pass:
    no replacement text contains a character replaced later. *)
Lemma html_escape_flat_map (s : str) : html_escape s = flat_map escape_char s.
Proof.
  induction s as [|c s IH]; [done |].
  change (c :: s) with ([c] ++ s). unfold html_escape in *.
  rewrite !replace_app, IH. simpl flat_map. f_equal.
  unfold escape_char.
  destruct (N.eqb_spec c 38) as [-> | H38]; [by vm_compute |].
  destruct (N.eqb_spec c 60) as [-> | H60]; [by vm_compute |].
  destruct (N.eqb_spec c 62) as [-> | H62]; [by vm_compute |].
  destruct (N.eqb_spec c 34) as [-> | H34]; [by vm_compute |].
  destruct (N.eqb_spec c 39) as [-> | H39]; [by vm_compute |].
  assert (∀ x, x ≠ c → x ∉ [c]) as Habsent
    by (intros x Hx; rewrite elem_of_cons, elem_of_nil; intros [? | []]; congruence).
  rewrite (replace_absent 38), (replace_absent 60), (replace_absent 62),
    (replace_absent 34), (replace_absent 39) by (apply Habsent; congruence).
  done.
Qed.

Lemma escape_char_delimiters (c x : code) : x ∈ escape_char c → delimiter x = false.
Proof.
  unfold escape_char.
  destruct (N.eqb_spec c 38); [| destruct (N.eqb_spec c 60); [| destruct (N.eqb_spec c 62);
    [| destruct (N.eqb_spec c 34); [| destruct (N.eqb_spec c 39)]]]].
  1-5: intros Hx; vm_compute in Hx;
       repeat (apply elem_of_cons in Hx as [-> | Hx]; [by vm_compute |]);
       by apply elem_of_nil in Hx.
  intros ->%list_elem_of_singleton. unfold delimiter. lia.
Qed.

Lemma html_escape_delimiters (s : str) (x : code) :
  x ∈ html_escape s → delimiter x = false.
Proof.
  rewrite html_escape_flat_map. intros Hx.
  apply list_elem_of_In, in_flat_map in Hx as (c & _ & Hx).
  apply (escape_char_delimiters c). by apply list_elem_of_In.
Qed.

Lemma count_app (c : code) (a b : str) : count c (a ++ b) = (count c a + count c b)%nat.
Proof. unfold count. by rewrite List.filter_app, length_app. Qed.

Lemma count_absent (c : code) (s : str) : c ∉ s → count c s = 0%nat.
Proof.
  induction s as [|x s IH]; [done |]. rewrite not_elem_of_cons. intros [Hx Hs].
  unfold count in *. simpl. rewrite (proj2 (N.eqb_neq c x)) by done. by apply IH.
Qed.

(** Escaping loses nothing: the escaped text determines the link. *)
Lemma escape_char_inj (c c' : code) (s s' : str) :
  escape_char c ++ s = escape_char c' ++ s' → c = c' ∧ s = s'.
Proof.
  unfold escape_char.
  destruct (N.eqb_spec c 38) as [-> | ?]; [| destruct (N.eqb_spec c 60) as [-> | ?];
    [| destruct (N.eqb_spec c 62) as [-> | ?]; [| destruct (N.eqb_spec c 34) as [-> | ?];
    [| destruct (N.eqb_spec c 39) as [-> | ?]]]]];
  (destruct (N.eqb_spec c' 38) as [-> | ?]; [| destruct (N.eqb_spec c' 60) as [-> | ?];
    [| destruct (N.eqb_spec c' 62) as [-> | ?]; [| destruct (N.eqb_spec c' 34) as [-> | ?];
    [| destruct (N.eqb_spec c' 39) as [-> | ?]]]]]);
  vm_compute; intros Heq; simplify_eq; done.
Qed.

Lemma html_escape_inj (s s' : str) : html_escape s = html_escape s' → s = s'.
Proof.
  rewrite !html_escape_flat_map.
  revert s'; induction s as [|c s IH]; intros [|c' s']; simpl; try done.
  - intros Heq. symmetry in Heq. apply app_eq_nil in Heq as [Heq _].
    unfold escape_char in Heq. repeat (destruct (_ =? _); [by vm_compute in Heq |]). done.
  - intros Heq. apply app_eq_nil in Heq as [Heq _].
    unfold escape_char in Heq. repeat (destruct (_ =? _); [by vm_compute in Heq |]). done.
  - intros [-> Heq]%escape_char_inj. by rewrite (IH s').
Qed.

(** X2. A link is written into the page between double quotes as the
    value of [href] and of [src]. Its escaped form contains no quote and
    no angle bracket, so the line of a link has the ten double quotes and
    the three pairs of angle brackets of its markup and no more, whatever
    the link; a link without [&], quotes and angle brackets is written
    unchanged; and two different links never have the same line. *)
Theorem link_line_delimiters (link : str) :
  (∀ c, c ∈ html_escape link → c ≠ 34 ∧ c ≠ 39 ∧ c ≠ 60 ∧ c ≠ 62)
  ∧ count 34 (link_line link) = 10%nat
  ∧ count 60 (link_line link) = 3%nat
  ∧ count 62 (link_line link) = 3%nat
  ∧ count 39 (link_line link) = 0%nat
  ∧ ((∀ c, c ∈ link → c ≠ 38 ∧ delimiter c = false) → html_escape link = link)
  ∧ (∀ link', link_line link = link_line link' → link = link').
Proof.
  assert (∀ c, delimiter c = true → count c (html_escape link) = 0%nat) as Hcount.
  { intros c Hc. apply count_absent. intros Hin.
    apply html_escape_delimiters in Hin. congruence. }
  split_and!.
  - intros c Hc%html_escape_delimiters. unfold delimiter in Hc. lia.
  - unfold link_line. cbv zeta. rewrite !count_app, !Hcount by done. reflexivity.
  - unfold link_line. cbv zeta. rewrite !count_app, !Hcount by done. reflexivity.
  - unfold link_line. cbv zeta. rewrite !count_app, !Hcount by done. reflexivity.
  - unfold link_line. cbv zeta. rewrite !count_app, !Hcount by done. reflexivity.
  - intros Hplain. rewrite html_escape_flat_map. clear Hcount.
    induction link as [|c link IH]; [done |]. simpl.
    rewrite IH by (intros c' Hc'; apply Hplain; by right).
    destruct (Hplain c) as [H38 Hd]; [left |]. unfold delimiter in Hd.
    unfold escape_char.
    replace (c =? 38) with false by lia. replace (c =? 60) with false by lia.
    replace (c =? 62) with false by lia. replace (c =? 34) with false by lia.
    by replace (c =? 39) with false by lia.
  - intros link' Heq. unfold link_line in Heq. cbv zeta in Heq.
    apply app_inv_head in Heq. apply app_inv_head in Heq.
    apply html_escape_inj.
    assert (∀ a b r r' : str, 34 ∉ a → 34 ∉ b → a ++ q ++ r = b ++ q ++ r' → a = b) as Hcut.
    { intros a b r r' Ha Hb Hab. change q with [34] in Hab. simpl in Hab.
      by eapply first_split_unique. }
    eapply Hcut; [| | exact Heq]; intros Hin%html_escape_delimiters; done.
Qed.

(** ** More on the two classifiers *)

Section Classifiers.
Context `{Unicode}.

(** X3. Whatever the configured extensions, [is_image_link] does not look
    past the first ['?']: a link with a query string is classified as the
    link without it. *)
Theorem is_image_link_ignores_query (config : Config) (href query : str) :
  63 ∉ href →
  is_image_link config (href ++ 63 :: query) = is_image_link config href.
Proof.
  intros Hhref. unfold is_image_link.
  by rewrite split_app_sep, split_no_sep.
Qed.

(** X4. The extension of the link is lowercased, the configured ones are
    not. When lowercasing is idempotent, only the configured extensions
    that are in lower case count: two configurations with the same
    lower-case extensions classify every link alike, and a configuration
    with no extension in lower case rejects every link. *)
Theorem capital_extension_never_matches
    (Hidem : ∀ s, lower (lower s) = lower s) (config config' : Config) :
  ((∀ e, lower e = e → e ∈ image_extensions config ↔ e ∈ image_extensions config') →
   ∀ href, is_image_link config href = is_image_link config' href)
  ∧ ((∀ e, e ∈ image_extensions config → lower e ≠ e) →
     ∀ href, is_image_link config href = Return false).
Proof.
  split.
  - intros Hsame href.
    destruct (is_image_link_unfold config href) as (clean & Hclean & ->).
    destruct (is_image_link_unfold config' href) as (clean' & Hclean' & ->).
    rewrite (query_stripped_unique _ _ _ Hclean' Hclean).
    f_equal. apply bool_decide_ext, Hsame, Hidem.
  - intros Hcap href.
    destruct (is_image_link_unfold config href) as (clean & _ & ->).
    f_equal. apply bool_decide_eq_false_2. intros Hin.
    by apply (Hcap _ Hin).
Qed.

(** An occurrence of the pattern has white space on both sides of its
    month token: two white-space characters four positions apart. *)
Lemma occurs_at_spaces (text : str) (j : nat) (day mon year : str) :
  occurs_at text j day mon year →
  ∃ i c d, text !! i = Some c ∧ text !! (i + 4)%nat = Some d
           ∧ isspace c = true ∧ isspace d = true.
Proof.
  intros (w1 & w2 & post & Hs & _ & _ & Hw1 & Hmon & _ & Hw2 & _).
  exists (j + length day)%nat, w1, w2.
  split_and!; [| | done | done].
  - rewrite <- lookup_drop, Hs. by rewrite list_lookup_middle.
  - replace (j + length day + 4)%nat with (j + (length day + 4))%nat by lia.
    rewrite <- lookup_drop, Hs.
    replace (day ++ w1 :: mon ++ w2 :: year ++ post)
      with ((day ++ w1 :: mon) ++ w2 :: year ++ post)
      by (by rewrite <- app_assoc).
    apply list_lookup_middle. rewrite length_app. simpl. lia.
Qed.

(** X5. [extract_date] finds a date only where two white-space characters
    stand four positions apart, around a month token of three letters: a
    text without such a pair has no date. In particular a day, a word
    and a year separated by single characters give no date when the word
    is not three characters long, so a month written in full is not
    recognised. *)
Theorem extract_date_needs_short_month :
  (∀ text,
     (∀ i c d, text !! i = Some c → text !! (i + 4)%nat = Some d →
               isspace c = true → isspace d = false) →
     extract_date text = Return None)
  ∧ (∀ day word year w1 w2,
       length word ≠ 3%nat →
       Forall (fun c => isspace c = false) (day ++ word ++ year) →
       extract_date (day ++ w1 :: word ++ w2 :: year) = Return None).
Proof.
  assert (∀ text,
     (∀ i c d, text !! i = Some c → text !! (i + 4)%nat = Some d →
               isspace c = true → isspace d = false) →
     extract_date text = Return None) as Hgeneral.
  { intros text Hapart. apply extract_date_no_occurrence.
    intros j day mon year Hocc.
    destruct (occurs_at_spaces _ _ _ _ _ Hocc) as (i & c & d & Hc & Hd & Hsc & Hsd).
    rewrite (Hapart i c d Hc Hd Hsc) in Hsd. done. }
  split; [done |].
  intros day word year w1 w2 Hlen Hplain. apply Hgeneral.
  apply Forall_app in Hplain as [Hday Hplain].
  apply Forall_app in Hplain as [Hword Hyear].
  assert (∀ i c, (day ++ w1 :: word ++ w2 :: year) !! i = Some c → isspace c = true →
                 i = length day ∨ i = (length day + 1 + length word)%nat) as Hpos.
  { intros i c Hi Hc.
    apply lookup_app_Some in Hi as [Hi | [Hge Hi]].
    { rewrite Forall_forall in Hday. apply list_elem_of_lookup_2, Hday in Hi. congruence. }
    destruct (i - length day)%nat as [|k] eqn:Hk; [left; lia |]. simpl in Hi.
    apply lookup_app_Some in Hi as [Hi | [Hge' Hi]].
    { rewrite Forall_forall in Hword. apply list_elem_of_lookup_2, Hword in Hi. congruence. }
    destruct (k - length word)%nat as [|k'] eqn:Hk'; [right; lia |]. simpl in Hi.
    rewrite Forall_forall in Hyear. apply list_elem_of_lookup_2, Hyear in Hi. congruence. }
  intros i c d Hi Hd Hc.
  destruct (isspace d) eqn:Hsd; [| done]. exfalso.
  destruct (Hpos _ _ Hi Hc), (Hpos _ _ Hd Hsd); lia.
Qed.

End Classifiers.

Lemma ucd_lower_idempotent (s : str) : @lower ucd (@lower ucd s) = @lower ucd s.
Proof.
  unfold lower, ucd. rewrite List.map_map. apply List.map_ext. intros c.
  unfold ucd_tolower, in_range.
  destruct ((65 <=? c) && (c <=? 90)) eqn:H1;
    [| destruct ((1024 <=? c) && (c <=? 1039)) eqn:H2;
       [| destruct ((1040 <=? c) && (c <=? 1071)) eqn:H3]].
  - replace ((65 <=? c + 32) && (c + 32 <=? 90)) with false by lia.
    replace ((1024 <=? c + 32) && (c + 32 <=? 1039)) with false by lia.
    by replace ((1040 <=? c + 32) && (c + 32 <=? 1071)) with false by lia.
  - replace ((65 <=? c + 80) && (c + 80 <=? 90)) with false by lia.
    replace ((1024 <=? c + 80) && (c + 80 <=? 1039)) with false by lia.
    by replace ((1040 <=? c + 80) && (c + 80 <=? 1071)) with false by lia.
  - replace ((65 <=? c + 32) && (c + 32 <=? 90)) with false by lia.
    replace ((1024 <=? c + 32) && (c + 32 <=? 1039)) with false by lia.
    by replace ((1040 <=? c + 32) && (c + 32 <=? 1071)) with false by lia.
  - by rewrite H1, H2, H3.
Qed.

Lemma is_image_link_ignores_query_witness :
  @is_image_link ucd example_config (u "photo.JPG" ++ 63 :: u "size=large")
  = @is_image_link ucd example_config (u "photo.JPG").
Proof.
  apply (@is_image_link_ignores_query ucd example_config (u "photo.JPG") (u "size=large")).
  refine (bool_decide_unpack _ _). vm_compute. exact I.
Defined.

Lemma capital_extension_never_matches_witness :
  @is_image_link ucd capitals_config (u "photo.JPG") = Return false
  ∧ @is_image_link ucd capitals_config (u "photo.jpg") = Return false.
Proof.
  assert (∀ e, e ∈ image_extensions capitals_config → @lower ucd e ≠ e) as Hcap.
  { intros e ->%list_elem_of_singleton. by vm_compute. }
  split;
    apply (proj2 (@capital_extension_never_matches ucd ucd_lower_idempotent
                    capitals_config capitals_config) Hcap).
Defined.

Lemma extract_date_needs_short_month_witness :
  @extract_date ucd (u "15" ++ 32 :: u "января" ++ 32 :: u "2024") = Return None.
Proof.
  apply (proj2 (@extract_date_needs_short_month ucd)
           (u "15") (u "января") (u "2024") 32 32).
  - vm_compute. discriminate.
  - refine (bool_decide_unpack _ _). vm_compute. exact I.
Defined.

(** ** The reader *)

Section Reader.
Context (env : Env).

(** What the reader returns, read off the answers of [open]. *)
Lemma read_result_spec (file_path : str) (encs : list str) :
  match read_result env file_path encs with
  | Return (Some soup) =>
    ∃ before enc after,
      encs = before ++ enc :: after ∧ open_soup env file_path enc = Return soup
      ∧ ∀ enc', enc' ∈ before →
          ∃ e, open_soup env file_path enc' = Raise e ∧ passed_over e = true
  | Return None =>
    ∀ enc, enc ∈ encs →
      ∃ e, open_soup env file_path enc = Raise e ∧ passed_over e = true
  | Raise e =>
    passed_over e = false
    ∧ ∃ before enc after,
        encs = before ++ enc :: after ∧ open_soup env file_path enc = Raise e
        ∧ ∀ enc', enc' ∈ before →
            ∃ e', open_soup env file_path enc' = Raise e' ∧ passed_over e' = true
  end.
Proof.
  induction encs as [|enc encs IH]; simpl.
  - intros enc Henc. by apply elem_of_nil in Henc.
  - destruct (open_soup env file_path enc) as [soup | e] eqn:Hopen.
    + exists [], enc, encs. split_and!; [done | done |].
      intros enc' Henc'. by apply elem_of_nil in Henc'.
    + assert (passed_over e = false →
              passed_over e = false
              ∧ ∃ before enc0 after,
                  enc :: encs = before ++ enc0 :: after
                  ∧ open_soup env file_path enc0 = Raise e
                  ∧ ∀ enc', enc' ∈ before →
                      ∃ e', open_soup env file_path enc' = Raise e'
                            ∧ passed_over e' = true) as Hraise.
      { intros He. split; [done |]. exists [], enc, encs. split_and!; [done | done |].
        intros enc' Henc'. by apply elem_of_nil in Henc'. }
      assert (passed_over e = true →
              match read_result env file_path encs with
              | Return (Some soup) =>
                ∃ before enc0 after,
                  enc :: encs = before ++ enc0 :: after
                  ∧ open_soup env file_path enc0 = Return soup
                  ∧ ∀ enc', enc' ∈ before →
                      ∃ e, open_soup env file_path enc' = Raise e ∧ passed_over e = true
              | Return None =>
                ∀ enc0, enc0 ∈ enc :: encs →
                  ∃ e, open_soup env file_path enc0 = Raise e ∧ passed_over e = true
              | Raise e0 =>
                passed_over e0 = false
                ∧ ∃ before enc0 after,
                    enc :: encs = before ++ enc0 :: after
                    ∧ open_soup env file_path enc0 = Raise e0
                    ∧ ∀ enc', enc' ∈ before →
                        ∃ e', open_soup env file_path enc' = Raise e'
                              ∧ passed_over e' = true
              end) as Hnext.
      { intros He.
        assert (∀ before enc', enc' ∈ enc :: before →
                  (∀ x, x ∈ before →
                     ∃ e', open_soup env file_path x = Raise e' ∧ passed_over e' = true) →
                  ∃ e', open_soup env file_path enc' = Raise e' ∧ passed_over e' = true)
          as Hcons.
        { intros before enc' [-> | Hin]%elem_of_cons Hbefore; [by exists e | by apply Hbefore]. }
        destruct (read_result env file_path encs) as [[soup |] | e0].
        - destruct IH as (before & enc0 & after & -> & Hsoup & Hbefore).
          exists (enc :: before), enc0, after. split_and!; [done | done |].
          intros enc' Henc'. by eapply Hcons.
        - intros enc0 [-> | Hin]%elem_of_cons; [by exists e | by apply IH].
        - destruct IH as (He0 & before & enc0 & after & -> & Hopen0 & Hbefore).
          split; [done |]. exists (enc :: before), enc0, after.
          split_and!; [done | done |]. intros enc' Henc'. by eapply Hcons. }
      destruct e; first [by apply Hnext | by apply Hraise].
Qed.

Lemma read_result_skip (file_path : str) (before rest : list str) :
  (∀ enc, enc ∈ before →
     ∃ e, open_soup env file_path enc = Raise e ∧ passed_over e = true) →
  read_result env file_path (before ++ rest) = read_result env file_path rest.
Proof.
  induction before as [|enc before IH]; intros Hbefore; [done |]. simpl.
  destruct (Hbefore enc) as (e & -> & He); [left |].
  rewrite IH by (intros enc' Henc'; apply Hbefore; by right).
  by destruct e.
Qed.

Lemma try_encodings_warns (file_path : str) (encs : list str) (w : world) :
  read_result env file_path encs = Return None →
  last (logs (try_encodings env file_path encs w).1) = Some (WarningCouldNotRead file_path).
Proof.
  revert w; induction encs as [|enc encs IH]; intros w; simpl.
  - intros _. apply last_snoc.
  - destruct (open_soup env file_path enc) as [soup | e]; [done |].
    destruct e; try done; intros Hnone; rewrite run_bind; unfold logger at 1;
      cbv beta iota; by apply IH.
Qed.

(** X6. [read_file_with_encoding] tries ["utf-8"], ["windows-1251"] and
    ["cp1252"] in this order and returns the document of the first one
    that opens. It returns [None], with a warning as its last log
    record, exactly when every encoding fails with a decoding error or a
    missing file; an error of any other kind, at the first attempt that
    does not fail in one of these two ways, is raised to the caller. It
    never touches the containers or the progress bar. *)
Theorem read_file_with_encoding_outcome (file_path : str) (w : world) :
  let r := read_file_with_encoding env file_path w in
  let failed enc :=
    ∃ e, open_soup env file_path enc = Raise e ∧ passed_over e = true in
  self r.1 = self w ∧ pbar r.1 = pbar w ∧ history r.1 = history w
  ∧ (∀ soup, r.2 = Return (Some soup) ↔
       ∃ before enc after,
         encodings = before ++ enc :: after
         ∧ open_soup env file_path enc = Return soup
         ∧ ∀ enc', enc' ∈ before → failed enc')
  ∧ (r.2 = Return None ↔ ∀ enc, enc ∈ encodings → failed enc)
  ∧ (r.2 = Return None → last (logs r.1) = Some (WarningCouldNotRead file_path))
  ∧ (∀ e, r.2 = Raise e ↔
       passed_over e = false
       ∧ ∃ before enc after,
           encodings = before ++ enc :: after
           ∧ open_soup env file_path enc = Raise e
           ∧ ∀ enc', enc' ∈ before → failed enc').
Proof.
  intros r failed. subst r. unfold read_file_with_encoding. fold encodings.
  destruct (try_encodings_run env file_path encodings w) as (Hret & ? & ? & ? & _).
  pose proof (read_result_spec file_path encodings) as Hspec.
  pose proof (try_encodings_warns file_path encodings w) as Hwarn.
  rewrite Hret. split_and!; try done.
  - intros soup. split.
    + intros Hres. by rewrite Hres in Hspec.
    + intros (before & enc & after & -> & Hopen & Hbefore).
      rewrite read_result_skip by done. simpl. by rewrite Hopen.
  - split.
    + intros Hres. by rewrite Hres in Hspec.
    + intros Hall. rewrite <- (app_nil_r encodings). by rewrite read_result_skip.
  - intros e. split.
    + intros Hres. by rewrite Hres in Hspec.
    + intros (He & before & enc & after & -> & Hopen & Hbefore).
      rewrite read_result_skip by done. simpl. rewrite Hopen.
      by destruct e.
Qed.

(** X7. [process_html_file] raises only what opening the file raised:
    once the file is read, handling its anchors returns, with nothing
    logged. An exception that leaves it is no decoding error and no
    missing file, and is the answer of [open] under one of the three
    encodings. *)
Theorem process_html_file_raises_open_errors `{Unicode}
    (config : Config) (file_path : str) (w : world) :
  (∀ soup w',
     let r := for_each (find_all_a_href soup) (process_link config) w' in
     r.2 = Return tt ∧ logs r.1 = logs w' ∧ pbar r.1 = pbar w')
  ∧ (∀ e, (process_html_file env config file_path w).2 = Raise e →
          passed_over e = false
          ∧ ∃ enc, enc ∈ encodings ∧ open_soup env file_path enc = Raise e).
Proof.
  split.
  - intros soup w'.
    destruct (for_each_process_link config (find_all_a_href soup) w'
                (find_all_a_href_has_href soup)) as (? & _ & ? & ?).
    done.
  - intros e Hraise.
    destruct (process_html_file_run env config file_path w) as (Hret & _).
    rewrite Hret in Hraise. unfold read_file in Hraise. fold encodings in Hraise.
    pose proof (read_result_spec file_path encodings) as Hspec.
    destruct (read_result env file_path encodings) as [? | e']; [done |].
    injection Hraise as ->.
    destruct Hspec as (He & before & enc & after & Hencs & Hopen & _).
    split; [done |]. exists enc. split; [| done].
    rewrite Hencs, elem_of_app, elem_of_cons. tauto.
Qed.

End Reader.

Lemma read_file_with_encoding_outcome_witness :
  (read_file_with_encoding example_env (u "export/broken.html") init).2 = Return None
  ∧ last (logs (read_file_with_encoding example_env (u "export/broken.html") init).1)
    = Some (WarningCouldNotRead (u "export/broken.html")).
Proof.
  pose proof (read_file_with_encoding_outcome example_env (u "export/broken.html") init)
    as (_ & _ & _ & _ & Hnone & Hwarn & _).
  assert ((read_file_with_encoding example_env (u "export/broken.html") init).2
          = Return None) as Hres.
  { apply Hnone. intros enc _. exists UnicodeDecodeError. split; reflexivity. }
  split; [exact Hres | exact (Hwarn Hres)].
Defined.

Lemma process_html_file_raises_open_errors_witness :
  passed_over PermissionError = false
  ∧ ∃ enc, enc ∈ encodings
           ∧ open_soup locked_env (u "export/locked.html") enc = Raise PermissionError.
Proof.
  apply (proj2 (@process_html_file_raises_open_errors locked_env ucd example_config
                  (u "export/locked.html") init)).
  vm_compute. reflexivity.
Defined.

(** ** A scan that finds nothing *)

Section NoFiles.
Context `{Unicode} (env : Env) (config : Config).

(** X8. When the scan of the directory raises an [Exception],
    [find_html_files] logs it and answers with no file, and [parse_files]
    goes on as for an empty directory: it warns that there is nothing to
    process and returns, with the containers and the progress bar
    untouched and no completion record; the page is the one of an empty
    directory. An interruption of the scan is not caught. *)
Theorem parse_files_failed_scan (e : exception) (w : world) :
  glob env (input_dir config) = Raise e →
  (is_Exception e = true →
     find_html_files env config w
     = ({| self := self w; logs := logs w ++ [ErrorFinding e]; pbar := pbar w;
           history := history w |}, Return [])
     ∧ parse_files env config w
       = ({| self := self w; logs := logs w ++ [ErrorFinding e; WarningNoFiles];
             pbar := pbar w; history := history w |}, Return tt)
     ∧ (main env config init).2
       = Return (html_head 0 ++ [no_images_line] ++ html_footer env))
  ∧ (is_Exception e = false →
     parse_files env config w = (w, Raise e) ∧ main env config w = (w, Raise e)).
Proof.
  intros Hglob. split; intros He.
  - assert (∀ w0, find_html_files env config w0
       = ({| self := self w0; logs := logs w0 ++ [ErrorFinding e]; pbar := pbar w0;
             history := history w0 |}, Return [])) as Hfind.
    { intros w0. unfold find_html_files. rewrite Hglob, He. reflexivity. }
    assert (∀ w0, parse_files env config w0
       = ({| self := self w0; logs := logs w0 ++ [ErrorFinding e; WarningNoFiles];
             pbar := pbar w0; history := history w0 |}, Return tt)) as Hparse.
    { intros w0. unfold parse_files, parse_files_with. rewrite run_bind, Hfind.
      unfold logger. cbn [self logs pbar history]. by rewrite <- app_assoc. }
    split_and!; [apply Hfind | apply Hparse |].
    unfold main. rewrite run_bind, Hparse. unfold gets. cbn [fst snd self init].
    unfold generate_html_content, sorted_dates. cbn [photos_by_date all_links].
    by rewrite map_to_list_empty, size_empty.
  - assert (parse_files env config w = (w, Raise e)) as Hparse.
    { unfold parse_files, parse_files_with, find_html_files.
      rewrite Hglob, He. reflexivity. }
    split; [done |]. unfold main. by rewrite run_bind, Hparse.
Qed.

End NoFiles.

Lemma parse_files_failed_scan_witness :
  (@main ucd failing_scan_env example_config init).2
  = Return (html_head 0 ++ [no_images_line] ++ html_footer failing_scan_env).
Proof.
  exact (proj2 (proj2 (proj1 (@parse_files_failed_scan ucd failing_scan_env
                                example_config PermissionError init eq_refl) eq_refl))).
Defined.

(** ** Properties of the containers that every method keeps *)

Section Keeps.
Context (I : state → Prop).

Lemma keeps_logger (r : log_record) : keeps I (logger r).
Proof. by intros w Hw. Qed.

Lemma keeps_pbar_update (n : nat) : keeps I (pbar_update n).
Proof. by intros w Hw. Qed.

Lemma keeps_mutate (f : state → state) : (∀ s, I s → I (f s)) → keeps I (mutate f).
Proof. intros Hf w Hw. by apply Hf. Qed.

Lemma keeps_find_html_files (env : Env) (config : Config) :
  keeps I (find_html_files env config).
Proof.
  unfold keeps, find_html_files. destruct (glob env (input_dir config)) as [files | e].
  - apply preserves_bind; [apply keeps_logger | intros _; apply preserves_ret].
  - destruct (is_Exception e); [| apply preserves_lift].
    apply preserves_bind; [apply keeps_logger | intros _; apply preserves_ret].
Qed.

Lemma keeps_parse_files `{Unicode} (env : Env) (config : Config) :
  (∀ s f, I s → I (record_links s (file_links env config f))) →
  (∀ s date, I s → I (sort_bucket date s)) →
  keeps I (parse_files env config).
Proof.
  intros Hrecord Hsort. unfold keeps, parse_files, parse_files_with.
  apply preserves_bind; [apply keeps_find_html_files |]. intros [|f files].
  - apply keeps_logger.
  - apply preserves_bind; [| intros _].
    { apply preserves_for_each. intros file_path. unfold try_process.
      apply preserves_try_except_finally;
        [| intros e; apply keeps_logger | apply keeps_pbar_update].
      intros w Hw.
      destruct (process_html_file_run env config file_path w) as (_ & -> & _).
      by apply Hrecord. }
    apply preserves_bind; [| intros _].
    { unfold sort_buckets. apply preserves_bind; [apply preserves_gets |]. intros dates.
      apply preserves_for_each. intros date. apply keeps_mutate. intros s. apply Hsort. }
    apply preserves_bind; [apply keeps_logger | intros _].
    apply preserves_bind; [apply preserves_gets | intros n; apply keeps_logger].
Qed.

End Keeps.

(** ** White space around a link *)

Section Strip.
Context `{Unicode}.

Lemma lstrip_head (s : str) :
  lstrip s = [] ∨ ∃ c r, lstrip s = c :: r ∧ isspace c = false.
Proof.
  induction s as [|c s IH]; simpl; [by left |].
  destruct (isspace c) eqn:Hc; [done |]. right. by exists c, s.
Qed.

Lemma lstrip_nonspace (c : code) (s : str) : isspace c = false → lstrip (c :: s) = c :: s.
Proof. intros Hc. simpl. by rewrite Hc. Qed.

Lemma lstrip_snoc (s : str) (c : code) :
  isspace c = false → ∃ r, lstrip (s ++ [c]) = r ++ [c].
Proof.
  intros Hc. induction s as [|x s IH]; simpl.
  - rewrite Hc. by exists [].
  - destruct (isspace x); [done |]. by exists (x :: s).
Qed.

Lemma rstrip_nonspace (c : code) (s : str) :
  isspace c = false → ∃ r, rstrip (c :: s) = c :: r.
Proof.
  intros Hc. unfold rstrip. rewrite reverse_cons.
  destruct (lstrip_snoc (reverse s) c Hc) as [r ->].
  exists (reverse r). by rewrite reverse_app.
Qed.

Lemma rstrip_idempotent (s : str) : rstrip (rstrip s) = rstrip s.
Proof.
  unfold rstrip. rewrite reverse_involutive. f_equal.
  destruct (lstrip_head (reverse s)) as [-> | (c & r & -> & Hc)]; [done |].
  by apply lstrip_nonspace.
Qed.

Lemma strip_idempotent (s : str) : strip (strip s) = strip s.
Proof.
  unfold strip.
  destruct (lstrip_head s) as [-> | (c & r & -> & Hc)]; [done |].
  destruct (rstrip_nonspace c r Hc) as [r' Hr]. rewrite Hr.
  rewrite (lstrip_nonspace c r' Hc), <- Hr. apply rstrip_idempotent.
Qed.

End Strip.

(** ** What a file contributes is made of image links and dates *)

Lemma elem_of_dated (date href : str) (ls : list (str * option str)) :
  href ∈ dated date ls ↔ (href, Some date) ∈ ls.
Proof.
  unfold dated. rewrite list_elem_of_omap. split.
  - intros ([h d] & Hin & Hsome). simpl in Hsome.
    destruct (bool_decide_reflect (d = Some date)) as [-> | ?]; by simplify_eq.
  - intros Hin. exists (href, Some date). split; [done |]. simpl.
    by rewrite bool_decide_eq_true_2.
Qed.

Lemma sorted_length (l : list str) : length (sorted l) = length l.
Proof. unfold sorted. by rewrite <- (StrSort.Permuted_sort l). Qed.

Lemma sorted_not_nil (l : list str) : l ≠ [] → sorted l ≠ [].
Proof.
  intros Hl Hs. apply (f_equal length) in Hs. rewrite sorted_length in Hs.
  by destruct l.
Qed.

Section Contributed.
Context `{Unicode} (env : Env) (config : Config).

Lemma file_links_elem (f href : str) (d : option str) :
  (href, d) ∈ file_links env config f →
  is_image_link config href = Return true ∧ strip href = href
  ∧ ∀ k, d = Some k → k ≠ [] ∧ ∃ text, extract_date text = Return (Some k).
Proof.
  unfold file_links. destruct (read_file env f) as [[soup |] | e];
    [| by intros ?%elem_of_nil | by intros ?%elem_of_nil].
  unfold image_links. rewrite list_elem_of_omap. intros (n & _ & Hn).
  destruct (image_link_of config n) as [href' |] eqn:Hlink; [| done].
  injection Hn as -> <-. unfold image_link_of in Hlink.
  destruct (get_href (element n)) as [h | ?]; [| done].
  destruct (is_image_link config (strip h)) as [[|] | ?] eqn:Himg; try done.
  injection Hlink as <-. split_and!; [done | apply strip_idempotent |].
  intros k Hk. unfold date_of_link in Hk.
  destruct (find_parent_div _ n) as [message |]; [| done].
  destruct (find_div _ message) as [header |]; [| done].
  destruct (extract_date (get_text_strip (u " ") header)) as [[[|c k'] |] | ?] eqn:Hdate;
    try done.
  injection Hk as <-. split; [done | by eexists].
Qed.

Lemma image_links_only_record (s : state) (f : str) :
  image_links_only config s →
  image_links_only config (record_links s (file_links env config f)).
Proof.
  intros Hs href. rewrite record_links_all_links, elem_of_union, elem_of_list_to_set.
  intros [Hin | Hin]; [by apply Hs |].
  apply list_elem_of_fmap in Hin as ([h d] & -> & Hin).
  by destruct (file_links_elem _ _ _ Hin) as (? & ? & _).
Qed.

Lemma dated_buckets_record (s : state) (f : str) :
  dated_buckets s → dated_buckets (record_links s (file_links env config f)).
Proof.
  intros Hs date links. rewrite record_links_lookup.
  destruct (dated date (file_links env config f)) as [|href new] eqn:Hdated;
    [by apply Hs |].
  intros [= <-]. split; [by destruct (default [] _) |].
  assert (href ∈ dated date (file_links env config f)) as Hin by (rewrite Hdated; left).
  apply elem_of_dated, file_links_elem in Hin as (_ & _ & Hdate).
  by destruct (Hdate date eq_refl).
Qed.

Lemma dated_buckets_sort_bucket (s : state) (date : str) :
  dated_buckets s → dated_buckets (sort_bucket date s).
Proof.
  intros Hs d links. cbn [sort_bucket photos_by_date]. rewrite lookup_alter.
  destruct (decide (date = d)) as [-> | Hne]; [| by apply Hs].
  destruct (photos_by_date s !! d) as [old |] eqn:Hold; [| done].
  intros [= <-]. destruct (Hs _ _ Hold) as [Hne Hkey].
  split; [by apply sorted_not_nil | done].
Qed.

(** X9. Nothing but image links is recorded: after [parse_files],
    however it ends, every link of the global set and of every bucket is
    one that [is_image_link] accepts, with no white space before or
    after it. *)
Theorem recorded_links_are_images :
  keeps (image_links_only config) (parse_files env config)
  ∧ (let s := self (parse_files env config init).1 in
     (∀ href, href ∈ all_links s →
        is_image_link config href = Return true ∧ strip href = href)
     ∧ (∀ date links href,
          photos_by_date s !! date = Some links → href ∈ links →
          is_image_link config href = Return true ∧ strip href = href)).
Proof.
  assert (keeps (image_links_only config) (parse_files env config)) as Hkeeps.
  { apply keeps_parse_files; [intros s f; apply image_links_only_record |].
    intros s date Hs href. apply Hs. }
  assert (image_links_only config (self (parse_files env config init).1)) as Hall.
  { apply (Hkeeps init). intros href Hin. by apply elem_of_empty in Hin. }
  split; [done |]. cbv zeta. split; [done |].
  intros date links href Hlinks Hhref. apply Hall.
  assert (always_registered (parse_files env config init).1) as [Hreg _].
  { apply preserves_parse_files_with; [apply preserves_process_html_file |].
    split; [| constructor]. intros d l h Hl. simpl in Hl. by rewrite lookup_empty in Hl. }
  by eapply Hreg.
Qed.

(** X10. A date has a bucket only once a link was found under it: after
    [parse_files], however it ends, every bucket holds at least one link
    and its key is a string of ten characters that [extract_date]
    returned, so every section of the page lists at least one image. *)
Theorem buckets_never_empty :
  keeps dated_buckets (parse_files env config)
  ∧ (let s := self (parse_files env config init).1 in
     (∀ date links,
        photos_by_date s !! date = Some links →
        links ≠ [] ∧ length date = 10%nat
        ∧ ∃ text, extract_date text = Return (Some date))
     ∧ (∀ date, date ∈ sorted_dates s →
          ∃ link links,
            date_section s date
            = heading_line date (S (length links)) :: gallery_open_line
                :: link_line link :: List.map link_line links ++ [u "    </div>"])).
Proof.
  assert (keeps dated_buckets (parse_files env config)) as Hkeeps.
  { apply keeps_parse_files;
      [intros s f; apply dated_buckets_record | intros s f; apply dated_buckets_sort_bucket]. }
  assert (dated_buckets (self (parse_files env config init).1)) as Hall.
  { apply (Hkeeps init). intros date links Hl. simpl in Hl. by rewrite lookup_empty in Hl. }
  split; [done |]. cbv zeta. split.
  - intros date links Hlinks. destruct (Hall _ _ Hlinks) as [Hne [text Htext]].
    split_and!; [done | | by exists text].
    destruct (extract_date_Some_inv _ _ Htext)
      as (day & year & month & k & -> & Hyear & _ & Hday & _ & Hmonth).
    destruct (MONTHS_items_digits _ _ Hmonth) as [_ Hmlen].
    rewrite length_app. simpl. rewrite length_app. simpl.
    rewrite (zfill_2_length day Hday). lia.
  - intros date Hdate.
    apply (sorted_dates_spec (self (parse_files env config init).1)) in Hdate as [links Hlinks].
    destruct (Hall _ _ Hlinks) as [Hne _]. destruct links as [|link links]; [done |].
    exists link, links. unfold date_section. by rewrite Hlinks.
Qed.

End Contributed.

(** ** The total, a second run, an interrupted run *)

Lemma for_each_app {A} (l1 l2 : list A) (body : A → M unit) (w : world) :
  for_each (l1 ++ l2) body w
  = match for_each l1 body w with
    | (w1, Return _) => for_each l2 body w1
    | (w1, Raise e) => (w1, Raise e)
    end.
Proof.
  revert w; induction l1 as [|x l1 IH]; intros w; [done |].
  simpl for_each. rewrite !run_bind.
  destruct (body x w) as [w1 [[] | e]]; [apply IH | done].
Qed.

Lemma size_list_to_set_le (l : list str) :
  (size (list_to_set l : gset str) ≤ length l)%nat.
Proof.
  induction l as [|x l IH].
  - by rewrite list_to_set_nil, size_empty.
  - rewrite list_to_set_cons, size_union_alt, size_singleton. cbn [length].
    assert (size (list_to_set l ∖ {[x]} : gset str) ≤ size (list_to_set l : gset str))%nat
      by (apply subseteq_size; set_solver).
    lia.
Qed.

Section Totals.
Context `{Unicode} (env : Env) (config : Config).

(** X11. The global set is the set of the image links found in the files
    that could be read, with or without a date, each counted once: the
    total shown on the page is at most the number of image anchors. A
    link that occurs only outside dated messages is counted in the total
    and listed in no section. *)
Theorem all_links_exact (files : list str) :
  glob env (input_dir config) = Return files →
  uninterrupted env files →
  let s := self (parse_files env config init).1 in
  let seen := flat_map (file_links env config) files in
  (∀ href, href ∈ all_links s ↔ ∃ d, (href, d) ∈ seen)
  ∧ (size (all_links s) ≤ length seen)%nat
  ∧ (∀ href,
       (href, None) ∈ seen → (∀ d, (href, d) ∈ seen → d = None) →
       href ∈ all_links s
       ∧ ∀ date links, photos_by_date s !! date = Some links → href ∉ links).
Proof.
  intros Hglob Hexc s seen. subst s.
  destruct (parse_files_aggregate env config files Hglob Hexc) as [_ ->].
  fold seen.
  assert (∀ href, href ∈ all_links (aggregate seen) ↔ ∃ d, (href, d) ∈ seen) as Hall.
  { intros href. unfold aggregate. cbn [all_links].
    rewrite record_links_all_links. cbn [all_links].
    rewrite elem_of_union, elem_of_list_to_set, list_elem_of_fmap. split.
    - intros [Hin | ([h d] & -> & Hin)]; [by apply elem_of_empty in Hin | by exists d].
    - intros [d Hin]. right. by exists (href, d). }
  split_and!; [done | |].
  - unfold aggregate. cbn [all_links]. rewrite record_links_all_links. cbn [all_links].
    rewrite (left_id_L ∅ (∪)).
    etransitivity; [apply size_list_to_set_le |]. by rewrite length_fmap.
  - intros href Hnone Honly. split; [apply Hall; by exists None |].
    intros date links Hlinks Hin. rewrite aggregate_lookup in Hlinks.
    destruct (dated date seen) as [|l ls] eqn:Hdated; [done |].
    injection Hlinks as <-. apply (proj1 (elem_of_sorted _ _)) in Hin.
    rewrite <- Hdated in Hin. apply (proj1 (elem_of_dated _ _ _)) in Hin.
    by specialize (Honly _ Hin).
Qed.

(** X12. [parse_files] adds to what the parser already holds. A second
    call on the same parser leaves the global set as it is, and so the
    total, and records every dated link once more: each bucket then
    holds every entry twice. *)
Theorem parse_files_twice (files : list str) :
  glob env (input_dir config) = Return files →
  uninterrupted env files →
  let once := (parse_files env config init).1 in
  let twice := (parse_files env config once).1 in
  (parse_files env config once).2 = Return tt
  ∧ all_links (self twice) = all_links (self once)
  ∧ ∀ date,
      default [] (photos_by_date (self twice) !! date)
      ≡ₚ default [] (photos_by_date (self once) !! date)
         ++ default [] (photos_by_date (self once) !! date).
Proof.
  intros Hglob Hexc once twice. subst twice.
  destruct (parse_files_aggregate env config files Hglob Hexc) as [_ Honce].
  fold once in Honce. revert Honce. generalize once. clear once. intros once Honce.
  set (seen := flat_map (file_links env config) files) in *.
  destruct files as [|f files].
  - unfold parse_files, parse_files_with, find_html_files. rewrite Hglob.
    rewrite !run_bind. unfold logger. rewrite run_ret. cbn [fst snd self].
    split_and!; [done | done |]. intros date.
    rewrite Honce, aggregate_lookup. done.
  - destruct (parse_files_run env config f files once Hglob Hexc)
      as (Hret & Hpbd & Hall & _).
    fold seen in Hpbd, Hall.
    split_and!; [done | |].
    + rewrite Hall, record_links_all_links, Honce.
      unfold aggregate. cbn [all_links]. rewrite record_links_all_links.
      cbn [all_links]. set_solver.
    + intros date. rewrite Hpbd, lookup_fmap, record_links_lookup, Honce, aggregate_lookup.
      destruct (dated date seen) as [|l ls]; [done |]. cbn [default fmap option_fmap option_map].
      unfold sorted. rewrite <- !StrSort.Permuted_sort. done.
Qed.

(** X13. An interruption is not caught by the loop of [parse_files]: when
    opening a file raises something that is no [Exception], the progress
    bar is still advanced for that file and the exception leaves
    [parse_files]. The files after it are not read, the buckets are not
    sorted: the containers hold what the files before it contributed,
    in the order of their occurrence. *)
Theorem parse_files_interrupted
    (before after : list str) (stop : str) (e : exception) (w : world) :
  glob env (input_dir config) = Return (before ++ stop :: after) →
  uninterrupted env before →
  open_soup env stop (u "utf-8") = Raise e → is_Exception e = false →
  let r := parse_files env config w in
  r.2 = Raise e
  ∧ pbar r.1 = (pbar w + length before + 1)%nat
  ∧ self r.1 = record_links (self w) (flat_map (file_links env config) before).
Proof.
  intros Hglob Hexc Hopen He. cbv zeta.
  assert (read_file env stop = Raise e) as Hread.
  { unfold read_file. simpl. rewrite Hopen. by destruct e. }
  destruct (parse_files env config w) as [wr rr] eqn:Hrun. cbn [fst snd].
  unfold parse_files, parse_files_with, find_html_files in Hrun. rewrite Hglob in Hrun.
  rewrite !run_bind in Hrun. unfold logger at 1 in Hrun. cbv beta iota in Hrun.
  rewrite run_ret in Hrun. cbv beta iota in Hrun.
  set (w0 := {| self := self w;
                logs := logs w ++ [InfoFound (length (before ++ stop :: after))];
                pbar := pbar w; history := history w |}) in *.
  assert (∃ f files, before ++ stop :: after = f :: files) as (f & files & Hlist)
    by (destruct before; by eexists _, _).
  rewrite Hlist in Hrun. cbv iota in Hrun. rewrite <- Hlist in Hrun.
  rewrite run_bind, for_each_app in Hrun.
  pose proof (parse_loop_run env config before w0 Hexc) as (Hret & Hself & Hpbar & _).
  destruct (for_each before (try_process (process_html_file env config)) w0)
    as [w1 r1]. cbn [fst snd] in *. subst r1.
  simpl for_each in Hrun. rewrite run_bind in Hrun.
  pose proof (try_process_run (process_html_file env config) stop w1)
    as (Hself2 & _ & Hpbar2 & _ & Hret2).
  pose proof (process_html_file_run env config stop w1) as (Hpret & Hpself & Hppbar & _).
  rewrite Hread in Hpret. rewrite Hpret, He in Hret2.
  destruct (try_process (process_html_file env config) stop w1) as [w2 r2].
  cbn [fst snd] in *. subst r2. injection Hrun as <- <-.
  split_and!; [done | unfold w0 in Hpbar; cbn [pbar] in Hpbar; lia |].
  rewrite Hself2, Hpself, Hself.
  assert (file_links env config stop = []) as -> by (unfold file_links; by rewrite Hread).
  done.
Qed.

End Totals.

Lemma all_links_exact_witness :
  (size (all_links (self (@parse_files ucd example_env example_config init).1))
   ≤ length (flat_map (@file_links ucd example_env example_config)
               [u "export/broken.html"; u "export/messages.html"]))%nat.
Proof.
  exact (proj1 (proj2 (@all_links_exact ucd example_env example_config
                         [u "export/broken.html"; u "export/messages.html"]
                         eq_refl (example_env_uninterrupted _)))).
Defined.

Lemma parse_files_twice_witness :
  all_links (self (@parse_files ucd example_env example_config
                     (@parse_files ucd example_env example_config init).1).1)
  = all_links (self (@parse_files ucd example_env example_config init).1).
Proof.
  exact (proj1 (proj2 (@parse_files_twice ucd example_env example_config
                         [u "export/broken.html"; u "export/messages.html"]
                         eq_refl (example_env_uninterrupted _)))).
Defined.

Lemma parse_files_interrupted_witness :
  (@parse_files ucd interrupted_env example_config init).2 = Raise KeyboardInterrupt
  ∧ pbar (@parse_files ucd interrupted_env example_config init).1 = 2%nat.
Proof.
  destruct (@parse_files_interrupted ucd interrupted_env example_config
              [u "export/messages.html"] [u "export/messages.html"]
              (u "export/stop.html") KeyboardInterrupt init eq_refl)
    as (Hret & Hpbar & _).
  - intros f e ->%list_elem_of_singleton. vm_compute. discriminate.
  - reflexivity.
  - reflexivity.
  - split; [exact Hret | exact Hpbar].
Defined.

(** ** The order of the scan *)

Lemma str_leb_trans (a b c : str) :
  str_leb a b = true → str_leb b c = true → str_leb a c = true.
Proof.
  unfold str_leb. revert b c; induction a as [|x a IH]; intros [|y b] [|z c]; simpl;
    try done.
  specialize (IH b c).
  destruct (N.compare_spec x y), (N.compare_spec y z), (N.compare_spec x z);
    subst; try lia; done.
Qed.

Lemma str_leb_antisym (a b : str) : str_leb a b = true → str_leb b a = true → a = b.
Proof.
  unfold str_leb. rewrite (StrOrder.str_compare_antisym a b).
  destruct (str_compare a b) eqn:Hc; try done. intros _ _. by apply str_compare_eq.
Qed.

#[local] Instance str_leb_transitive : Transitive (fun a b => str_leb a b = true).
Proof. intros a b c. apply str_leb_trans. Qed.

#[local] Instance str_leb_antisymmetric : AntiSymm (=) (fun a b => str_leb a b = true).
Proof. intros a b. apply str_leb_antisym. Qed.

(** Sorting forgets the order of its input. *)
Lemma sorted_Permutation (l l' : list str) : l ≡ₚ l' → sorted l = sorted l'.
Proof.
  intros Hperm. unfold sorted.
  apply (Sorted_unique (fun a b => str_leb a b = true)).
  - apply StrSort.Sorted_sort.
  - apply StrSort.Sorted_sort.
  - by rewrite <- !StrSort.Permuted_sort.
Qed.

Lemma aggregate_Permutation (ls ls' : list (str * option str)) :
  ls ≡ₚ ls' → aggregate ls = aggregate ls'.
Proof.
  intros Hperm.
  assert (photos_by_date (aggregate ls) = photos_by_date (aggregate ls')) as Hpbd.
  { apply map_eq. intros date. rewrite !aggregate_lookup.
    assert (dated date ls ≡ₚ dated date ls') as Hd
      by (unfold dated; by rewrite Hperm).
    destruct (dated date ls) as [|x l] eqn:Hl.
    - apply Permutation_nil in Hd. by rewrite Hd.
    - destruct (dated date ls') as [|x' l'] eqn:Hl';
        [symmetry in Hd; by apply Permutation_nil in Hd |].
      f_equal. by apply sorted_Permutation. }
  assert (all_links (aggregate ls) = all_links (aggregate ls')) as Hall.
  { unfold aggregate. cbn [all_links]. rewrite !record_links_all_links.
    f_equal. by apply list_to_set_perm_L, fmap_Permutation. }
  destruct (aggregate ls), (aggregate ls'). simpl in *. by subst.
Qed.

(** X14. The result does not depend on the order in which the scan lists
    the files: two runs over the same files in different orders end with
    the same buckets and the same global set, and give the same page. *)
Theorem gallery_independent_of_scan_order `{Unicode}
    (env env' : Env) (config : Config) (files files' : list str) :
  glob env (input_dir config) = Return files →
  glob env' (input_dir config) = Return files' →
  open_soup env' = open_soup env → now env' = now env →
  files ≡ₚ files' →
  uninterrupted env files →
  self (parse_files env' config init).1 = self (parse_files env config init).1
  ∧ (main env' config init).2 = (main env config init).2.
Proof.
  intros Hglob Hglob' Hopen Hnow Hperm Hexc.
  assert (uninterrupted env' files') as Hexc'.
  { intros f e Hf Hread.
    rewrite (proj1 (file_links_ext env env' config f Hopen)) in Hread.
    apply (Hexc f e); [by rewrite Hperm | done]. }
  destruct (parse_files_aggregate env config files Hglob Hexc) as [Hret Hself].
  destruct (parse_files_aggregate env' config files' Hglob' Hexc') as [Hret' Hself'].
  assert (self (parse_files env' config init).1 = self (parse_files env config init).1)
    as Heq.
  { rewrite Hself, Hself'. apply aggregate_Permutation.
    transitivity (flat_map (file_links env config) files').
    - erewrite flat_map_ext; [done |]. intros f.
      apply (file_links_ext env env' config f Hopen).
    - apply Permutation_flat_map. by symmetry. }
  split; [done |].
  unfold main. rewrite !run_bind.
  destruct (parse_files env config init) as [w [[] | ?]]; [| done].
  destruct (parse_files env' config init) as [w' [[] | ?]]; [| done].
  unfold gets. cbn [fst snd] in *. rewrite Heq.
  unfold generate_html_content, html_footer. by rewrite Hnow.
Qed.

Lemma gallery_independent_of_scan_order_witness :
  (@main ucd example_env_reversed example_config init).2
  = (@main ucd example_env example_config init).2.
Proof.
  apply (@gallery_independent_of_scan_order ucd example_env example_env_reversed
           example_config
           [u "export/broken.html"; u "export/messages.html"]
           [u "export/messages.html"; u "export/broken.html"]).
  - reflexivity.
  - reflexivity.
  - vm_compute. reflexivity.
  - vm_compute. reflexivity.
  - apply perm_swap.
  - apply example_env_uninterrupted.
Defined.

(** ** Counting the lines of the page *)

Lemma filter_none {A} (f : A → bool) (l : list A) :
  Forall (fun x => f x = false) l → List.filter f l = [].
Proof. induction 1 as [|x l Hx _ IH]; simpl; [done |]. by rewrite Hx. Qed.

Lemma filter_flat_map_length {A B} (f : B → bool) (g : A → list B) (n : A → nat)
    (l : list A) :
  (∀ x, x ∈ l → length (List.filter f (g x)) = n x) →
  length (List.filter f (flat_map g l)) = sum_list_with n l.
Proof.
  induction l as [|x l IH]; intros Hg; [done |]. simpl.
  rewrite List.filter_app, length_app, Hg by left.
  rewrite IH; [done |]. intros y Hy. apply Hg. by right.
Qed.

Lemma sum_list_with_ext_in {A} (f g : A → nat) (l : list A) :
  (∀ x, x ∈ l → f x = g x) → sum_list_with f l = sum_list_with g l.
Proof.
  induction l as [|x l IH]; intros Hfg; [done |]. simpl.
  rewrite Hfg by left. rewrite IH; [done |]. intros y Hy. apply Hfg. by right.
Qed.

Lemma sum_list_with_fmap {A B} (f : B → nat) (g : A → B) (l : list A) :
  sum_list_with f (g <$> l) = sum_list_with (fun x => f (g x)) l.
Proof. induction l as [|x l IH]; [done |]. simpl. f_equal. exact IH. Qed.

Lemma sum_list_with_const {A} (c : nat) (l : list A) :
  sum_list_with (fun _ => c) l = (c * length l)%nat.
Proof. induction l as [|x l IH]; simpl; lia. Qed.

Lemma sum_list_with_add {A} (f g : A → nat) (l : list A) :
  sum_list_with (fun x => f x + g x)%nat l = (sum_list_with f l + sum_list_with g l)%nat.
Proof. induction l as [|x l IH]; simpl; lia. Qed.

(** A sum over the dates of the page is a sum over the buckets. *)
Lemma sum_over_sorted_dates (s : state) (f : list str → nat) :
  sum_list_with (fun date => f (default [] (photos_by_date s !! date))) (sorted_dates s)
  = sum_list_with (fun kv : str * list str => f kv.2) (map_to_list (photos_by_date s)).
Proof.
  unfold sorted_dates, sorted. rewrite <- (StrSort.Permuted_sort _).
  rewrite sum_list_with_fmap. apply sum_list_with_ext_in.
  intros [date links] Hin. apply elem_of_map_to_list in Hin. simpl. by rewrite Hin.
Qed.

Lemma link_line_kind (link : str) :
  is_heading (link_line link) = false ∧ is_link_line (link_line link) = true.
Proof. split; reflexivity. Qed.

Lemma date_section_lines (s : state) (date : str) :
  let links := default [] (photos_by_date s !! date) in
  length (date_section s date) = (3 + length links)%nat
  ∧ length (List.filter is_heading (date_section s date)) = 1%nat
  ∧ length (List.filter is_link_line (date_section s date)) = length links.
Proof.
  cbv zeta. unfold date_section. set (links := default [] _).
  split_and!.
  - simpl. rewrite length_app, length_map. simpl. lia.
  - change (length (List.filter is_heading
              ([heading_line date (length links); gallery_open_line]
               ++ List.map link_line links ++ [u "    </div>"])) = 1%nat).
    rewrite !List.filter_app, !length_app.
    rewrite (filter_none is_heading (List.map link_line links)).
    + reflexivity.
    + apply Forall_forall. intros line Hline.
      apply list_elem_of_In, in_map_iff in Hline as (link & <- & _). reflexivity.
  - change (length (List.filter is_link_line
              ([heading_line date (length links); gallery_open_line]
               ++ List.map link_line links ++ [u "    </div>"])) = length links).
    rewrite !List.filter_app, !length_app.
    assert (List.filter is_link_line (List.map link_line links) = List.map link_line links)
      as ->.
    { induction links as [|l ls IH]; [done |]. simpl List.map.
      change (List.filter is_link_line (link_line l :: List.map link_line ls))
        with (link_line l :: List.filter is_link_line (List.map link_line ls)).
      by rewrite IH. }
    rewrite length_map. 
    assert (List.filter is_link_line [heading_line date (length links); gallery_open_line] = [])
      as -> by reflexivity.
    assert (List.filter is_link_line [u "    </div>"] = []) as -> by reflexivity.
    simpl. lia.
Qed.

Lemma no_link_line_outside_sections (env : Env) (total : nat) :
  Forall (fun line => is_link_line line = false)
    (html_head total ++ [no_images_line] ++ html_footer env).
Proof.
  assert (∀ line : str, take 5 line ≠ take 5 (u "        <a href=") →
                        is_link_line line = false) as Hshort.
  { intros line Hline. unfold is_link_line. apply bool_decide_eq_false_2.
    intros Heq. apply Hline. apply (f_equal (take 5)) in Heq.
    rewrite take_take in Heq. exact Heq. }
  assert (∀ line : str, take 16 line ≠ u "        <a href=" →
                        is_link_line line = false) as Hlong.
  { intros line Hline. unfold is_link_line. by apply bool_decide_eq_false_2. }
  apply Forall_app_2; [| apply Forall_app_2].
  - unfold html_head.
    repeat (apply Forall_cons_2;
            [first [apply Hshort; by vm_compute | apply Hlong; by vm_compute] |]).
    apply Forall_nil_2.
  - apply Forall_cons_2; [apply Hshort; by vm_compute | apply Forall_nil_2].
  - unfold html_footer.
    repeat (apply Forall_cons_2;
            [first [apply Hshort; by vm_compute | apply Hlong; by vm_compute] |]).
    apply Forall_nil_2.
Qed.

Lemma length_flat_map {A B} (g : A → list B) (l : list A) :
  length (flat_map g l) = sum_list_with (fun x => length (g x)) l.
Proof. induction l as [|x l IH]; [done |]. simpl. by rewrite length_app, IH. Qed.

Section PageSize.
Context (env : Env).

(** The lines of the page, by kind. *)
Lemma generate_html_content_lines (s : state) :
  let page := generate_html_content env s in
  length (List.filter is_heading page) = size (photos_by_date s)
  ∧ length (List.filter is_link_line page) = shown s
  ∧ length page
    = (if decide (photos_by_date s = ∅) then 30
       else 29 + 3 * size (photos_by_date s) + shown s)%nat.
Proof.
  cbv zeta.
  assert (length (sorted_dates s) = size (photos_by_date s)) as Hsize.
  { unfold sorted_dates. by rewrite sorted_length, length_fmap, length_map_to_list. }
  pose proof (no_heading_outside_sections env (size (all_links s))) as Hh.
  pose proof (no_link_line_outside_sections env (size (all_links s))) as Hl.
  apply Forall_app in Hh as [Hh1 [Hh2 Hh3]%Forall_app].
  apply Forall_app in Hl as [Hl1 [Hl2 Hl3]%Forall_app].
  assert (length (html_head (size (all_links s))) = 24%nat) as Hhead by reflexivity.
  assert (length (html_footer env) = 5%nat) as Hfoot by reflexivity.
  unfold generate_html_content.
  rewrite !List.filter_app, !length_app, Hhead, Hfoot.
  rewrite (filter_none _ _ Hh1), (filter_none _ _ Hh3),
    (filter_none _ _ Hl1), (filter_none _ _ Hl3).
  destruct (decide (photos_by_date s = ∅)) as [Hempty | Hne].
  - assert (sorted_dates s = []) as ->
      by (unfold sorted_dates; by rewrite Hempty, map_to_list_empty).
    rewrite (filter_none _ _ Hh2), (filter_none _ _ Hl2).
    unfold shown. by rewrite Hempty, map_to_list_empty, map_size_empty.
  - destruct (sorted_dates s) as [|d dates] eqn:Hdates.
    { simpl in Hsize. symmetry in Hsize.
      by apply map_size_empty_inv in Hsize. }
    rewrite <- Hdates in Hsize. rewrite <- Hdates.
    rewrite (filter_flat_map_length is_heading (date_section s) (fun _ => 1%nat)),
      (filter_flat_map_length is_link_line (date_section s)
         (fun date => length (default [] (photos_by_date s !! date))));
      [| intros date _; apply date_section_lines | intros date _; apply date_section_lines].
    rewrite sum_list_with_const, Hsize.
    rewrite (sum_over_sorted_dates s length). fold (shown s).
    rewrite length_flat_map.
    rewrite (sum_list_with_ext_in _
               (fun date => 3 + length (default [] (photos_by_date s !! date)))%nat)
      by (intros date _; apply date_section_lines).
    rewrite sum_list_with_add, sum_list_with_const, Hsize.
    rewrite (sum_over_sorted_dates s length). fold (shown s).
    simpl. lia.
Qed.

(** X15. The page has one heading per bucket and one link line per entry
    of a bucket, and nothing else varies: its length is the 29 lines of
    the head and the footer, then three lines per bucket and one per
    entry, or the single notice when there is no bucket. It opens with
    the document type and ends with the closing tag of the document. *)
Theorem page_line_count (s : state) :
  let page := generate_html_content env s in
  length (List.filter is_heading page) = size (photos_by_date s)
  ∧ length (List.filter is_link_line page) = shown s
  ∧ length page
    = (if decide (photos_by_date s = ∅) then 30
       else 29 + 3 * size (photos_by_date s) + shown s)%nat
  ∧ head page = Some (u "<!DOCTYPE html>")
  ∧ last page = Some (u "</html>").
Proof.
  cbv zeta. destruct (generate_html_content_lines s) as (Hheadings & Hlinks & Hlength).
  split_and!; [done | done | done | reflexivity |].
  unfold generate_html_content. rewrite !last_app. reflexivity.
Qed.

End PageSize.

(** ** What the configuration changes *)

(** X16. Of the configuration, parsing reads the input directory and the
    list of extensions and nothing else: the configured encoding is
    never used, files are opened under the three fixed encodings
    whatever it says, and the output directory plays no part before the
    page is written. *)
Theorem encoding_is_ignored `{Unicode} (env : Env) (config config' : Config) :
  input_dir config = input_dir config' →
  image_extensions config = image_extensions config' →
  (∀ href, is_image_link config href = is_image_link config' href)
  ∧ (∀ file_path w,
       process_html_file env config file_path w = process_html_file env config' file_path w)
  ∧ (∀ w, parse_files env config w = parse_files env config' w)
  ∧ (∀ w, main env config w = main env config' w).
Proof.
  destruct config as [d enc out exts], config' as [d' enc' out' exts'].
  cbn [input_dir image_extensions]. intros <- <-.
  split_and!; reflexivity.
Qed.

Lemma encoding_is_ignored_witness :
  @parse_files ucd example_env (Config_init (u "export") (Some (u "cp1252")) None None) init
  = @parse_files ucd example_env example_config init.
Proof.
  exact (proj1 (proj2 (proj2 (@encoding_is_ignored ucd example_env
           (Config_init (u "export") (Some (u "cp1252")) None None) example_config
           eq_refl eq_refl))) init).
Defined.

(** ** The script *)

Lemma run_bind_S {A B} (m : Cli.S A) (k : A → Cli.S B) (p : Cli.process) :
  (m ≫= k) p
  = match m p with
    | (p', Cli.Ok a) => k a p'
    | (p', Cli.Err e) => (p', Cli.Err e)
    | (p', Cli.Exit c) => (p', Cli.Exit c)
    end.
Proof. reflexivity. Qed.


Section Script.
Context `{Unicode} (os : Cli.Os).

(** The gallery file: what is created, written, logged and returned. *)
Lemma generate_html_gallery_run (config : Config) (p : Cli.process) :
  let output_file :=
    path_join (output_dir config) (u "gallery_" ++ Cli.timestamp os ++ u ".html") in
  let text := join [10] (generate_html_content (Cli.env os) (self (Cli.parser p))) in
  let r := Cli.generate_html_gallery os config p in
  Cli.parser r.1 = Cli.parser p ∧ Cli.stdout r.1 = Cli.stdout p
  ∧ Cli.debug r.1 = Cli.debug p ∧ Cli.prompts r.1 = Cli.prompts p
  ∧ match Cli.open_w os output_file with
    | Raise e =>
      r.2 = Cli.Err e ∧ Cli.files r.1 = Cli.files p
      ∧ Cli.records r.1
        = Cli.records p ++ if is_Exception e then [Cli.ErrorCreatingGallery e] else []
    | Return _ =>
      match Cli.write os output_file text with
      | Return _ =>
        r.2 = Cli.Ok output_file
        ∧ Cli.files r.1
          = Cli.files p ++ [Cli.Truncated output_file; Cli.Written output_file text]
        ∧ Cli.records r.1 = Cli.records p ++ [Cli.InfoGalleryCreated output_file]
      | Raise e =>
        r.2 = Cli.Err e ∧ Cli.files r.1 = Cli.files p ++ [Cli.Truncated output_file]
        ∧ Cli.records r.1
          = Cli.records p ++ if is_Exception e then [Cli.ErrorCreatingGallery e] else []
      end
    end.
Proof.
  intros output_file text r. subst r.
  destruct (Cli.generate_html_gallery os config p) as [p1 r1] eqn:Hrun.
  cbn [fst snd].
  unfold Cli.generate_html_gallery, Cli.try_except in Hrun. fold output_file in Hrun.
  rewrite run_bind_S in Hrun. unfold Cli.method at 1, gets at 1 in Hrun.
  cbv beta iota zeta in Hrun.
  change (join [10] (generate_html_content (Cli.env os) (self (Cli.parser p))))
    with text in Hrun.
  rewrite run_bind_S in Hrun. unfold Cli.open_for_writing at 1 in Hrun.
  clearbody output_file text.
  assert (∀ (e : exception) (p0 : Cli.process),
            (if is_Exception e
             then (Cli.logger (Cli.ErrorCreatingGallery e) ≫= λ _, Cli.raise e) p0
             else (p0, Cli.Err e))
            = ({| Cli.parser := Cli.parser p0;
                  Cli.records :=
                    Cli.records p0
                      ++ (if is_Exception e then [Cli.ErrorCreatingGallery e] else []);
                  Cli.debug := Cli.debug p0; Cli.prompts := Cli.prompts p0;
                  Cli.files := Cli.files p0; Cli.stdout := Cli.stdout p0 |},
               Cli.Err e : Cli.result str)) as Hhandler.
  { intros e p0. destruct (is_Exception e); [done |]. rewrite app_nil_r. by destruct p0. }
  destruct (Cli.open_w os output_file) as [[] | e].
  - cbv beta iota in Hrun. rewrite run_bind_S in Hrun.
    unfold Cli.write_and_close at 1 in Hrun.
    cbn [Cli.parser Cli.stdout Cli.files Cli.records Cli.debug Cli.prompts] in Hrun.
    destruct (Cli.write os output_file text) as [[] | e].
    + cbv beta iota in Hrun. rewrite run_bind_S in Hrun.
      unfold Cli.logger at 1 in Hrun. cbv beta iota in Hrun.
      unfold mret, Cli.S_ret, Cli.ret in Hrun. injection Hrun as <- <-.
      cbn [Cli.parser Cli.stdout Cli.files Cli.records Cli.debug Cli.prompts].
      rewrite <- app_assoc. by split_and!.
    + cbv beta iota in Hrun. rewrite Hhandler in Hrun. injection Hrun as <- <-.
      cbn [Cli.parser Cli.stdout Cli.files Cli.records Cli.debug Cli.prompts].
      by split_and!.
  - cbv beta iota in Hrun. rewrite Hhandler in Hrun. injection Hrun as <- <-.
    cbn [Cli.parser Cli.stdout Cli.files Cli.records Cli.debug Cli.prompts].
    by split_and!.
Qed.


(** [print] changes the lines printed only. *)
Lemma print_run (line : str) (p : Cli.process) :
  let r := Cli.print os line p in
  Cli.parser r.1 = Cli.parser p ∧ Cli.records r.1 = Cli.records p
  ∧ Cli.debug r.1 = Cli.debug p ∧ Cli.prompts r.1 = Cli.prompts p
  ∧ Cli.files r.1 = Cli.files p
  ∧ match r.2 with
    | Cli.Ok _ => Cli.stdout r.1 = Cli.stdout p ++ [line]
    | Cli.Err e => Cli.stdout r.1 = Cli.stdout p
    | Cli.Exit _ => False
    end.
Proof.
  cbv zeta. unfold Cli.print. by destruct (Cli.stdout_write os line) as [[] | e].
Qed.

(** Three lines in a row: they are printed up to the first that fails. *)
Lemma print_lines_run (l1 l2 l3 : str) (p : Cli.process) :
  let r := (Cli.print os l1 ≫= λ _, Cli.print os l2 ≫= λ _, Cli.print os l3) p in
  Cli.parser r.1 = Cli.parser p ∧ Cli.records r.1 = Cli.records p
  ∧ Cli.debug r.1 = Cli.debug p ∧ Cli.prompts r.1 = Cli.prompts p
  ∧ Cli.files r.1 = Cli.files p
  ∧ match r.2 with
    | Cli.Ok _ => Cli.stdout r.1 = Cli.stdout p ++ [l1; l2; l3]
    | Cli.Err e =>
      ∃ k, (k < 3)%nat ∧ Cli.stdout r.1 = Cli.stdout p ++ take k [l1; l2; l3]
    | Cli.Exit _ => False
    end.
Proof.
  cbv zeta. rewrite run_bind_S.
  pose proof (print_run l1 p) as (Hw1 & Hr1 & Hd1 & Hp1 & Hf1 & Hs1). cbv zeta in *.
  destruct (Cli.print os l1 p) as [p1 [[] | e | c]]; cbn [fst snd] in *; [| | done].
  2: { split_and!; try done. exists 0%nat. split; [lia |]. by rewrite app_nil_r. }
  rewrite run_bind_S.
  pose proof (print_run l2 p1) as (Hw2 & Hr2 & Hd2 & Hp2 & Hf2 & Hs2). cbv zeta in *.
  destruct (Cli.print os l2 p1) as [p2 [[] | e | c]]; cbn [fst snd] in *; [| | done].
  2: { split_and!; try congruence. exists 1%nat. split; [lia |]. by rewrite Hs2, Hs1. }
  pose proof (print_run l3 p2) as (Hw3 & Hr3 & Hd3 & Hp3 & Hf3 & Hs3). cbv zeta in *.
  destruct (Cli.print os l3 p2) as [p3 [[] | e | c]]; cbn [fst snd] in *; [| | done].
  - split_and!; try congruence. by rewrite Hs3, Hs2, Hs1, <- !app_assoc.
  - split_and!; try congruence. exists 2%nat. split; [lia |].
    by rewrite Hs3, Hs2, Hs1, <- !app_assoc.
Qed.





(** The two [except] clauses of [main]. *)
Lemma main_run (p : Cli.process) :
  Cli.main os p
  = match Cli.main_body os p with
    | (p', Cli.Err e) =>
      ({| Cli.parser := Cli.parser p';
          Cli.records :=
            Cli.records p'
              ++ [if is_Exception e then Cli.ErrorUnexpected e else Cli.InfoCancelled];
          Cli.debug := Cli.debug p'; Cli.prompts := Cli.prompts p';
          Cli.files := Cli.files p'; Cli.stdout := Cli.stdout p' |},
       Cli.Exit (if is_Exception e then 1 else 130)%Z)
    | r => r
    end.
Proof.
  unfold Cli.main. destruct (Cli.main_body os p) as [p' [[] | e | c]]; [done | | done].
  by destruct e.
Qed.


(** X19. A directory without HTML files still gets its gallery. When no
    directory is given on the command line, [main] asks for one and
    strips the answer; when that directory passes the checks, the scan
    finds no file and the gallery file can be opened and written,
    [parse_files] warns and returns, and [main] goes on: it writes the
    page of an empty gallery, which says that no images were found and
    gives a total of 0. It returns normally when the standard output
    takes the three lines. When the standard output refuses the first
    line, [main] exits with 1 (130 for an interruption) and has printed
    nothing, although the gallery is written and logged as created. *)
Theorem main_without_html_files
    (args : Cli.Namespace) (answer : str) (p : Cli.process) :
  Cli.parse_arguments os = Cli.Ok args →
  Cli.args_input_dir args = None →
  Cli.input os = Return answer →
  strip answer ≠ [] →
  Cli.isdir os (strip answer) = true →
  Cli.access_R_OK os (strip answer) = true →
  glob (Cli.env os) (strip answer) = Return [] →
  let output_file :=
    path_join (Cli.args_output_dir args)
      (u "gallery_" ++ Cli.timestamp os ++ u ".html") in
  let text :=
    join [10] (html_head 0 ++ [no_images_line] ++ html_footer (Cli.env os)) in
  Cli.open_w os output_file = Return tt →
  Cli.write os output_file text = Return tt →
  let r := Cli.main os p in
  Cli.files r.1
  = Cli.files p ++ [Cli.Truncated output_file; Cli.Written output_file text]
  ∧ Cli.prompts r.1 = Cli.prompts p ++ [u "Enter path to input directory: "]
  ∧ logs (Cli.parser r.1) = logs (Cli.parser p) ++ [InfoFound 0; WarningNoFiles]
  ∧ ((∀ line, line ∈ summary_lines output_file (self init) →
              Cli.stdout_write os line = Return tt) →
     r.2 = Cli.Ok tt
     ∧ Cli.stdout r.1 = Cli.stdout p ++ summary_lines output_file (self init)
     ∧ Cli.records r.1 = Cli.records p ++ [Cli.InfoGalleryCreated output_file])
  ∧ (∀ e, Cli.stdout_write os (10 :: u "✓ Gallery successfully created: " ++ output_file)
          = Raise e →
          r.2 = Cli.Exit (if is_Exception e then 1 else 130)%Z
          ∧ Cli.stdout r.1 = Cli.stdout p
          ∧ Cli.records r.1
            = Cli.records p
                ++ [Cli.InfoGalleryCreated output_file;
                    if is_Exception e then Cli.ErrorUnexpected e else Cli.InfoCancelled]).
Proof.
  intros Hargs Hnone Hinput Hne Hdir Hacc Hglob output_file text Hopen Hwrite r. subst r.
  set (config := Config_init (strip answer) (Some (Cli.args_encoding args))
                   (Some (Cli.args_output_dir args)) None).
  set (prints := Cli.print os (10 :: u "✓ Gallery successfully created: " ++ output_file)
                 ≫= λ _, Cli.print os (u "✓ Total images processed: " ++ str_of_nat 0)
                 ≫= λ _, Cli.print os (u "✓ Date groups created: " ++ str_of_nat 0)).
  assert (∀ p0, Cli.create_gallery os config p0
            = prints
                {| Cli.parser :=
                     {| self := self init;
                        logs := logs (Cli.parser p0) ++ [InfoFound 0; WarningNoFiles];
                        pbar := pbar (Cli.parser p0); history := [] |};
                   Cli.records := Cli.records p0 ++ [Cli.InfoGalleryCreated output_file];
                   Cli.debug := Cli.debug p0; Cli.prompts := Cli.prompts p0;
                   Cli.files :=
                     Cli.files p0
                       ++ [Cli.Truncated output_file; Cli.Written output_file text];
                   Cli.stdout := Cli.stdout p0 |}) as Hcreate.
  { intros p0. unfold Cli.create_gallery.
    rewrite run_bind_S. unfold Cli.ImageGalleryParser at 1. cbv beta iota.
    rewrite run_bind_S. unfold Cli.method at 1. cbn [Cli.parser].
    unfold parse_files at 1, parse_files_with, find_html_files.
    change (input_dir config) with (strip answer). rewrite Hglob.
    rewrite !run_bind. unfold logger. rewrite run_ret.
    cbn [self logs pbar history length]. cbv beta iota zeta.
    rewrite run_bind_S.
    match goal with
    | |- context [Cli.generate_html_gallery os config ?p1] =>
      pose proof (generate_html_gallery_run config p1) as Hgallery;
      cbv zeta in Hgallery;
      destruct (Cli.generate_html_gallery os config p1) as [p2 r2]
    end.
    cbn [fst snd Cli.parser Cli.stdout Cli.files Cli.records Cli.debug Cli.prompts
           self init] in Hgallery.
    assert (generate_html_content (Cli.env os)
              {| photos_by_date := ∅; all_links := ∅ |}
            = html_head 0 ++ [no_images_line] ++ html_footer (Cli.env os)) as Hpage.
    { unfold generate_html_content, sorted_dates. cbn [photos_by_date all_links].
      by rewrite map_to_list_empty, size_empty. }
    rewrite Hpage in Hgallery.
    change (output_dir config) with (Cli.args_output_dir args) in Hgallery.
    fold output_file text in Hgallery. rewrite Hopen, Hwrite in Hgallery.
    destruct Hgallery as (Hparser & Hstdout & Hdebug & Hprompts & -> & Hfiles & Hrecords).
    cbv beta iota.
    rewrite run_bind_S. unfold Cli.method at 1, gets at 1. cbv beta iota zeta.
    rewrite run_bind_S. unfold Cli.method at 1, gets at 1. cbv beta iota zeta.
    cbn [Cli.parser Cli.stdout Cli.files Cli.records Cli.debug Cli.prompts].
    rewrite Hparser, Hstdout, Hdebug, Hprompts, Hfiles, Hrecords.
    cbn [self all_links photos_by_date]. rewrite size_empty, map_size_empty.
    rewrite <- !app_assoc. reflexivity. }
  assert (summary_lines output_file (self init)
          = [10 :: u "✓ Gallery successfully created: " ++ output_file;
             u "✓ Total images processed: " ++ str_of_nat 0;
             u "✓ Date groups created: " ++ str_of_nat 0]) as Hlines.
  { unfold summary_lines. cbn [self init all_links photos_by_date].
    by rewrite size_empty, map_size_empty. }
  rewrite Hlines.
  set (l1 := 10 :: u "✓ Gallery successfully created: " ++ output_file) in *.
  set (l2 := u "✓ Total images processed: " ++ str_of_nat 0) in *.
  set (l3 := u "✓ Date groups created: " ++ str_of_nat 0) in *.
  clearbody output_file text l1 l2 l3. clear Hlines.
  assert (∃ p0, Cli.main_body os p
                = prints
                    {| Cli.parser :=
                         {| self := self init;
                            logs := logs (Cli.parser p) ++ [InfoFound 0; WarningNoFiles];
                            pbar := pbar (Cli.parser p); history := [] |};
                       Cli.records := Cli.records p ++ [Cli.InfoGalleryCreated output_file];
                       Cli.debug := Cli.debug p0;
                       Cli.prompts := Cli.prompts p ++ [u "Enter path to input directory: "];
                       Cli.files :=
                         Cli.files p
                           ++ [Cli.Truncated output_file; Cli.Written output_file text];
                       Cli.stdout := Cli.stdout p |}) as [p0 Hbody].
  { unfold Cli.main_body.
    rewrite run_bind_S. unfold Cli.lift at 1. rewrite Hargs.
    cbv beta iota. rewrite run_bind_S.
    assert (∃ p0, (if Cli.args_verbose args then Cli.setLevel_DEBUG else mret ()) p
                  = (p0, Cli.Ok tt)
                  ∧ Cli.files p0 = Cli.files p ∧ Cli.records p0 = Cli.records p
                  ∧ Cli.parser p0 = Cli.parser p ∧ Cli.prompts p0 = Cli.prompts p
                  ∧ Cli.stdout p0 = Cli.stdout p)
      as (p0 & Hverbose & <- & <- & <- & <- & <-)
      by (destruct (Cli.args_verbose args); by eexists).
    exists p0. rewrite Hverbose. cbv beta iota. rewrite run_bind_S.
    unfold Cli.get_input_dir at 1. rewrite Hnone.
    rewrite run_bind_S. unfold Cli.input_line at 1. rewrite Hinput.
    cbv beta iota. unfold mret at 1, Cli.S_ret, Cli.ret at 1.
    cbv beta iota. rewrite run_bind_S.
    match goal with
    | |- context [Cli.validate_input_directory os (strip answer) ?p1] =>
      assert (Cli.validate_input_directory os (strip answer) p1 = (p1, Cli.Ok tt))
        as Hvalid
    end.
    { unfold Cli.validate_input_directory. rewrite Hdir, Hacc.
      by destruct (strip answer). }
    rewrite Hvalid. cbv beta iota. fold config.
    rewrite Hcreate. done. }
  rewrite main_run, Hbody.
  match goal with
  | |- context [prints ?p3] =>
    pose proof (print_lines_run l1 l2 l3 p3) as Hprint; cbv zeta in Hprint;
    fold prints in Hprint;
    destruct (prints p3) as [p4 r4] eqn:Hprints
  end.
  cbn [fst snd Cli.parser Cli.stdout Cli.files Cli.records Cli.debug Cli.prompts logs]
    in Hprint.
  destruct Hprint as (Hparser & Hrecords & _ & Hprompts & Hfiles & _).
  split_and!.
  - by destruct r4 as [[] | e | c].
  - by destruct r4 as [[] | e | c].
  - destruct r4 as [[] | e | c]; cbn [fst Cli.parser]; by rewrite Hparser.
  - intros Hok. unfold prints in Hprints.
    rewrite run_bind_S in Hprints. unfold Cli.print at 1 in Hprints.
    rewrite (Hok l1) in Hprints by set_solver. cbv beta iota in Hprints.
    rewrite run_bind_S in Hprints. unfold Cli.print at 1 in Hprints.
    rewrite (Hok l2) in Hprints by set_solver. cbv beta iota in Hprints.
    unfold Cli.print in Hprints.
    rewrite (Hok l3) in Hprints by set_solver.
    injection Hprints as <- <-.
    cbn [fst snd Cli.stdout Cli.records]. by rewrite <- !app_assoc.
  - intros e Hraise. unfold prints in Hprints.
    rewrite run_bind_S in Hprints. unfold Cli.print at 1 in Hprints.
    rewrite Hraise in Hprints. injection Hprints as <- <-.
    cbn [fst snd Cli.stdout Cli.records]. by rewrite <- !app_assoc.
Qed.

End Script.



Lemma main_without_html_files_witness :
  (@Cli.main ucd empty_os Cli.start).2 = Cli.Ok tt
  ∧ Cli.files (@Cli.main ucd empty_os Cli.start).1
    = [Cli.Truncated (u "out/gallery_20240201_120000.html");
       Cli.Written (u "out/gallery_20240201_120000.html")
         (join [10] (html_head 0 ++ [no_images_line] ++ html_footer empty_env))].
Proof.
  destruct (@main_without_html_files ucd empty_os
              {| Cli.args_input_dir := None; Cli.args_encoding := u "utf-8";
                 Cli.args_output_dir := u "out/"; Cli.args_verbose := true |}
              (u "export ") Cli.start eq_refl eq_refl eq_refl)
    as (Hfiles & _ & _ & Hok & _).
  - vm_compute. discriminate.
  - vm_compute. reflexivity.
  - reflexivity.
  - reflexivity.
  - reflexivity.
  - reflexivity.
  - split; [by apply Hok |]. rewrite Hfiles. vm_compute. reflexivity.
Defined.

(** ** The markup of a heading *)

Lemma count_cons (c x : code) (s : str) :
  count c (x :: s) = ((if (c =? x)%N then 1 else 0) + count c s)%nat.
Proof. unfold count. simpl. by destruct (c =? x). Qed.

Lemma count_join (c sep : code) (parts : list str) :
  c ≠ sep → count c (join [sep] parts) = sum_list_with (count c) parts.
Proof.
  intros Hc. induction parts as [|p ps IH]; [done |].
  destruct ps as [|p' ps].
  - simpl. lia.
  - change (join [sep] (p :: p' :: ps)) with (p ++ sep :: join [sep] (p' :: ps)).
    rewrite count_app, count_cons, IH.
    rewrite (proj2 (N.eqb_neq c sep)) by done. simpl. lia.
Qed.

(** Reversing the parts of a key moves its characters and adds none. *)
Lemma count_human_date (c : code) (date_key : str) :
  c ≠ 46 → count c (human_date date_key) = count c date_key.
Proof.
  intros Hc. unfold human_date. change (u ".") with [46].
  rewrite count_join, sum_list_with_reverse by done.
  rewrite <- (count_join c 46) by done. by rewrite join_split.
Qed.

Lemma elem_of_zfill (width : nat) (s : str) (c : code) :
  c ∈ zfill width s → c ∈ s ∨ c = 48.
Proof.
  unfold zfill. destruct (decide _); [by left |].
  assert (∀ k, c ∈ replicate k 48 → c = 48) as Hfill
    by (by intros k [? _]%elem_of_replicate).
  destruct s as [|x r].
  - intros Hin. right. by eapply Hfill.
  - destruct (_ || _).
    + rewrite elem_of_cons, elem_of_app.
      intros [-> | [Hin | Hin]]; [left; left | right; by eapply Hfill | left; by right].
    + rewrite elem_of_app. intros [Hin | Hin]; [right; by eapply Hfill | by left].
Qed.

Section Heading.
Context `{Unicode}.

(** X20. The date of a heading is written into the page as it is, without
    escaping. When no decimal digit is an ampersand, a quote or an angle
    bracket, a key that [extract_date] returned contains none of them,
    and the heading of its section has the two pairs of angle brackets
    of its own markup and neither quotes nor ampersands. *)
Theorem heading_line_markup
    (Hdigits : ∀ c, isdecimal c = true → delimiter c = false ∧ c ≠ 38)
    (text date_key : str) (image_count : nat) :
  extract_date text = Return (Some date_key) →
  (∀ c, c ∈ date_key → delimiter c = false ∧ c ≠ 38)
  ∧ count 60 (heading_line date_key image_count) = 2%nat
  ∧ count 62 (heading_line date_key image_count) = 2%nat
  ∧ count 34 (heading_line date_key image_count) = 0%nat
  ∧ count 39 (heading_line date_key image_count) = 0%nat
  ∧ count 38 (heading_line date_key image_count) = 0%nat.
Proof.
  intros Hkey.
  assert (∀ c, c ∈ date_key → delimiter c = false ∧ c ≠ 38) as Hplain.
  { destruct (extract_date_Some_inv _ _ Hkey)
      as (day & year & month & k & -> & _ & Hyear & _ & Hday & Hmonth).
    destruct (MONTHS_items_digits _ _ Hmonth) as [Hm _].
    assert (∀ c, ascii_digit c → delimiter c = false ∧ c ≠ 38) as Hascii
      by (intros c [? ?]; unfold delimiter; lia).
    assert (∀ (s : str) c, forallb isdecimal s = true → c ∈ s →
                           delimiter c = false ∧ c ≠ 38) as Hdec.
    { intros s c Hs Hc. apply Hdigits. rewrite forallb_forall in Hs.
      by apply Hs, list_elem_of_In. }
    intros c. rewrite elem_of_app, elem_of_cons, elem_of_app, elem_of_cons.
    intros [Hc | [-> | [Hc | [-> | Hc]]]].
    - exact (Hdec year c Hyear Hc).
    - split; [reflexivity | discriminate].
    - rewrite Forall_forall in Hm. by apply Hascii, Hm.
    - split; [reflexivity | discriminate].
    - apply elem_of_zfill in Hc as [Hc | ->];
        [exact (Hdec day c Hday Hc) | split; [reflexivity | discriminate]]. }
  split; [done |].
  assert (∀ c, (delimiter c = true ∨ c = 38) →
               count c (human_date date_key) = 0%nat
               ∧ count c (str_of_nat image_count) = 0%nat) as Hzero.
  { intros c Hc. split.
    - rewrite count_human_date by (intros ->; by destruct Hc).
      apply count_absent. intros Hin. destruct (Hplain _ Hin) as [Hd H38].
      destruct Hc; congruence.
    - apply count_absent. intros Hin. apply uint_codes_digits in Hin as [? ?].
      destruct Hc as [Hc | ->]; [unfold delimiter in Hc |]; lia. }
  unfold heading_line.
  destruct (Hzero 60) as [H1 H2]; [by left |].
  destruct (Hzero 62) as [H3 H4]; [by left |].
  destruct (Hzero 34) as [H5 H6]; [by left |].
  destruct (Hzero 39) as [H7 H8]; [by left |].
  destruct (Hzero 38) as [H9 H10]; [by right |].
  rewrite !count_app, H1, H2, H3, H4, H5, H6, H7, H8, H9, H10.
  by split_and!.
Qed.

End Heading.

Lemma ucd_digits_plain (c : code) :
  @isdecimal ucd c = true → delimiter c = false ∧ c ≠ 38.
Proof.
  unfold isdecimal, decimal, ucd, ucd_decimal, in_range, delimiter. intros Hd.
  destruct (_ && _) eqn:H1 in Hd;
    [| destruct (_ && _) eqn:H2 in Hd; [| destruct (_ && _) eqn:H3 in Hd; [| done]]];
    lia.
Qed.

Lemma heading_line_markup_witness :
  count 60 (heading_line (u "2024.01.15") 2) = 2%nat
  ∧ count 62 (heading_line (u "2024.01.15") 2) = 2%nat.
Proof.
  destruct (@heading_line_markup ucd ucd_digits_plain (u "15 янв 2024") (u "2024.01.15") 2)
    as (_ & Hlt & Hgt & _).
  - vm_compute. reflexivity.
  - split; [exact Hlt | exact Hgt].
Defined.

(** ** From the files to the page *)

Lemma shown_append_photo (date_key href : str) (s : state) :
  shown (append_photo date_key href s) = S (shown s).
Proof.
  unfold shown. cbn [append_photo photos_by_date].
  destruct (photos_by_date s !! date_key) as [old |] eqn:Hold; cbn [default].
  - rewrite <- insert_delete_eq.
    rewrite map_to_list_insert by apply lookup_delete_eq.
    rewrite <- (map_to_list_delete _ _ _ Hold).
    simpl. rewrite length_app. simpl. lia.
  - rewrite map_to_list_insert by done. reflexivity.
Qed.

Lemma shown_record_links (s : state) (ls : list (str * option str)) :
  shown (record_links s ls) = (shown s + length (omap snd ls))%nat.
Proof.
  revert s; induction ls as [|[href d] ls IH]; intros s; [simpl; lia |].
  change (record_links s ((href, d) :: ls))
    with (record_links (record_link s (href, d)) ls).
  rewrite IH. unfold record_link. cbn [fst snd].
  destruct d as [date_key |].
  - rewrite shown_append_photo.
    change (shown (add_link href s)) with (shown s).
    change (omap snd ((href, Some date_key) :: ls)) with (date_key :: omap snd ls).
    cbn [length]. lia.
  - reflexivity.
Qed.

Lemma shown_aggregate (ls : list (str * option str)) :
  shown (aggregate ls) = length (omap snd ls).
Proof.
  unfold aggregate, shown at 1. cbn [photos_by_date].
  rewrite map_to_list_fmap, sum_list_with_fmap.
  rewrite (sum_list_with_ext_in _ (fun kv : str * list str => length kv.2))
    by (intros [k v] _; apply sorted_length).
  fold (shown (record_links {| photos_by_date := ∅; all_links := ∅ |} ls)).
  rewrite shown_record_links. unfold shown. cbn [photos_by_date].
  by rewrite map_to_list_empty.
Qed.

Lemma dates_aggregate (ls : list (str * option str)) :
  size (photos_by_date (aggregate ls)) = size (list_to_set (omap snd ls) : gset str).
Proof.
  rewrite <- (size_dom (D := gset str)). f_equal. apply set_eq. intros date.
  rewrite elem_of_dom, aggregate_lookup, elem_of_list_to_set, list_elem_of_omap.
  split.
  - destruct (dated date ls) as [|href new] eqn:Hdated; [by intros [? ?] |]. intros _.
    exists (href, Some date). split; [| done].
    apply elem_of_dated. rewrite Hdated. left.
  - intros ([href d] & Hin & Hd). simpl in Hd. subst d.
    apply elem_of_dated in Hin.
    destruct (dated date ls); [by apply elem_of_nil in Hin | by eexists].
Qed.

Section Shown.
Context `{Unicode} (env : Env) (config : Config).

(** X21. From the files to the page: after an uninterrupted run on a new
    parser, the page has one link line for every image link that was
    found inside a dated message, as often as it was found, and one
    heading for every date found; image links outside dated messages add
    to the total and to nothing else. *)
Theorem page_shows_dated_links (files : list str) :
  glob env (input_dir config) = Return files →
  uninterrupted env files →
  let seen := flat_map (file_links env config) files in
  ∃ page,
    (main env config init).2 = Return page
    ∧ length (List.filter is_link_line page) = length (omap snd seen)
    ∧ length (List.filter is_heading page)
      = size (list_to_set (omap snd seen) : gset str)
    ∧ u "    <div class=" ++ q ++ u "stats" ++ q ++ u ">Total images found: "
        ++ str_of_nat (size (list_to_set seen.*1 : gset str)) ++ u "</div>"
      ∈ page.
Proof.
  intros Hglob Hexc seen.
  destruct (parse_files_aggregate env config files Hglob Hexc) as [Hret Hself].
  fold seen in Hself.
  exists (generate_html_content env (aggregate seen)).
  pose proof (generate_html_content_lines env (aggregate seen)) as (Hh & Hl & _).
  split_and!.
  - unfold main. rewrite run_bind.
    destruct (parse_files env config init) as [w [[] | e]]; [| done].
    cbn [fst snd] in *. unfold gets. cbn [snd]. by rewrite Hself.
  - by rewrite Hl, shown_aggregate.
  - by rewrite Hh, dates_aggregate.
  - unfold generate_html_content. apply elem_of_app. left.
    assert (all_links (aggregate seen) = list_to_set seen.*1) as ->.
    { unfold aggregate. cbn [all_links]. rewrite record_links_all_links.
      cbn [all_links]. by rewrite (left_id_L ∅ (∪)). }
    unfold html_head. do 23 apply list_elem_of_further. apply list_elem_of_here.
Qed.

End Shown.

Lemma page_shows_dated_links_witness :
  ∃ page,
    (@main ucd example_env example_config init).2 = Return page
    ∧ length (List.filter is_link_line page) = 3%nat
    ∧ length (List.filter is_heading page) = 2%nat.
Proof.
  destruct (@page_shows_dated_links ucd example_env example_config
              [u "export/broken.html"; u "export/messages.html"]
              eq_refl (example_env_uninterrupted _))
    as (page & Hmain & Hlinks & Hheadings & _).
  exists page. split; [exact Hmain |]. split.
  - rewrite Hlinks. vm_compute. reflexivity.
  - rewrite Hheadings. vm_compute. reflexivity.
Defined.
